(** * GridForm: the pattern evaluation and compositing pipeline

    A shallow embedding of the core of GridForm (js/scripts.js and its
    documented variant): pattern evaluation, the two stateful pattern
    sources, scalar and colour blending, glyph selection and the click
    effect life cycle.

    JavaScript numbers are modelled as real numbers: every arithmetic
    operation is the exact one, so rounding, NaN and the infinities of
    IEEE doubles are outside the model (the one place where the source
    starts from [Infinity], the nearest-point search, is modelled with an
    explicit extended number).  Integer-valued numbers that the source
    uses as indices, loop counters or bit patterns are modelled in [Z]
    and [nat].

    The colour blend is the exception: the integers it prints are floors
    of computed numbers and change with the rounding of a single
    operation, so [blendColors] is modelled a second time on binary64
    numbers (module [Double]), and the statements that fix a printed
    integer are made there. *)

From Stdlib Require Import Reals Lra Lia ZArith List String Ascii Bool.
From Stdlib Require Import DecimalString.
From Stdlib Require HexadecimalString Floats Uint63.
Import ListNotations.

Open Scope R_scope.

(** ** Comparisons of numbers as booleans *)

Definition Rltb (a b : R) : bool := if Rlt_dec a b then true else false.
Definition Rleb (a b : R) : bool := if Rle_dec a b then true else false.
Definition Rgtb (a b : R) : bool := Rltb b a.
Definition Rgeb (a b : R) : bool := Rleb b a.

(** ** The p5.js built-ins the sketch calls

    These are functions of the p5.js library, not of the repository; they
    are written here with the meaning p5.js documents for them. *)

Module P5.

(** [lerp(start, stop, amt)] *)
Definition lerp (start stop amt : R) : R := amt * (stop - start) + start.

(** [constrain(n, low, high)] is [Math.max(Math.min(n, high), low)]. *)
Definition constrain (n low high : R) : R := Rmax (Rmin n high) low.

(** [constrain] on an integer-valued number. *)
Definition constrainZ (n low high : Z) : Z := Z.max (Z.min n high) low.

(** [map(n, start1, stop1, start2, stop2)] *)
Definition map (n start1 stop1 start2 stop2 : R) : R :=
  (n - start1) / (stop1 - start1) * (stop2 - start2) + start2.

(** [dist(x1, y1, x2, y2)] *)
Definition dist (x1 y1 x2 y2 : R) : R :=
  sqrt ((x2 - x1) * (x2 - x1) + (y2 - y1) * (y2 - y1)).

(** [floor(n)], as an integer. *)
Definition floor (n : R) : Z := Int_part n.

(** [atan2(y, x)] in radians. *)
Definition atan2 (y x : R) : R :=
  if Rltb 0 x then atan (y / x)
  else if Rltb x 0 then
    (if Rleb 0 y then atan (y / x) + PI else atan (y / x) - PI)
  else if Rltb 0 y then PI / 2
  else if Rltb y 0 then - (PI / 2)
  else 0.

Definition TWO_PI : R := 2 * PI.

End P5.

(** ** Colours *)

Module Rgb.
Record t : Type := mk { r : Z; g : Z; b : Z }.
End Rgb.

Definition white : Rgb.t := Rgb.mk 255 255 255.

(** One character of the classes [a-f\d] under the [i] flag, with its
    value in base 16. *)
Definition hexDigit (c : ascii) : option Z :=
  let n := Z.of_nat (nat_of_ascii c) in
  if ((48 <=? n) && (n <=? 57))%Z then Some (n - 48)%Z
  else if ((97 <=? n) && (n <=? 102))%Z then Some (n - 87)%Z
  else if ((65 <=? n) && (n <=? 70))%Z then Some (n - 55)%Z
  else None.

(** [parseInt(s, 16)] on a group of two hexadecimal digits. *)
Definition parseHex2 (c d : ascii) : option Z :=
  match hexDigit c, hexDigit d with
  | Some h, Some l => Some (16 * h + l)%Z
  | _, _ => None
  end.

(** [hexToRgb]: the regular expression
    [/^#?([a-f\d]{2})([a-f\d]{2})([a-f\d]{2})$/i] accepts an optional [#]
    followed by exactly six hexadecimal digits; anything else yields
    white. *)
Definition hexToRgb (hex : string) : Rgb.t :=
  let body :=
    match hex with
    | String "#"%char rest => rest
    | _ => hex
    end in
  match list_ascii_of_string body with
  | [r1; r2; g1; g2; b1; b2] =>
      match parseHex2 r1 r2, parseHex2 g1 g2, parseHex2 b1 b2 with
      | Some r, Some g, Some b => Rgb.mk r g b
      | _, _, _ => white
      end
  | _ => white
  end.

(** The decimal rendering of an integer-valued number. *)
Definition string_of_Z (z : Z) : string := NilZero.string_of_int (Z.to_int z).

(** The template [`rgb(${r}, ${g}, ${b})`]. *)
Definition rgbString (c : Rgb.t) : string :=
  ("rgb(" ++ string_of_Z (Rgb.r c) ++ ", " ++ string_of_Z (Rgb.g c)
   ++ ", " ++ string_of_Z (Rgb.b c) ++ ")")%string.

(** ** Compositor *)

(** The value of one channel before [Math.floor], for the blend [mode];
    [c1] and [c2] are the channel values of the two colours. *)
Definition blendChannel (mode : string) (c1 c2 localBlend : R) : R :=
  if String.eqb mode "add" then
    P5.constrain (c1 + (c2 * localBlend)) 0 255
  else if String.eqb mode "multiply" then
    P5.lerp c1 ((c1 * c2) / 255) localBlend
  else if String.eqb mode "overlay" then
    P5.lerp c1
      (if Rltb c1 128 then (2 * c1 * c2) / 255
       else 255 - (2 * (255 - c1) * (255 - c2)) / 255)
      localBlend
  else if String.eqb mode "difference" then
    P5.lerp c1 (Rabs (c1 - c2)) localBlend
  else if String.eqb mode "screen" then
    P5.lerp c1 (255 - (((255 - c1) * (255 - c2)) / 255)) localBlend
  else
    P5.lerp c1 c2 localBlend.

(** The three integers [Math.floor(r)], [Math.floor(g)], [Math.floor(b)]
    that [blendColors] prints. *)
Definition blendColorsRgb (color1Hex color2Hex mode : string)
    (value1 value2 amount : R) : Rgb.t :=
  let color1 := hexToRgb color1Hex in
  let color2 := hexToRgb color2Hex in
  let localBlend := value1 * value2 * amount in
  let r := blendChannel mode (IZR (Rgb.r color1)) (IZR (Rgb.r color2)) localBlend in
  let g := blendChannel mode (IZR (Rgb.g color1)) (IZR (Rgb.g color2)) localBlend in
  let b := blendChannel mode (IZR (Rgb.b color1)) (IZR (Rgb.b color2)) localBlend in
  Rgb.mk (P5.floor r) (P5.floor g) (P5.floor b).

Definition blendColors (color1Hex color2Hex mode : string)
    (value1 value2 amount : R) : string :=
  rgbString (blendColorsRgb color1Hex color2Hex mode value1 value2 amount).

Definition blendValues (value1 value2 : R) (mode : string) (amount : R) : R :=
  let value2 := P5.lerp 0.5 value2 amount in
  if String.eqb mode "add" then
    P5.constrain (value1 + value2 - 0.5) 0 1
  else if String.eqb mode "multiply" then
    value1 * value2
  else if String.eqb mode "overlay" then
    (if Rltb value1 0.5 then 2 * value1 * value2
     else 1 - 2 * (1 - value1) * (1 - value2))
  else if String.eqb mode "difference" then
    Rabs (value1 - value2)
  else if String.eqb mode "screen" then
    1 - (1 - value1) * (1 - value2)
  else
    value1.

(** ** State of the sketch *)

Module Point.
Record t : Type := mk { x : R; y : R; vx : R; vy : R }.
End Point.

Module Click.
Record t : Type :=
  mk { x : R; y : R; life : R; maxLife : R; strength : R; radius : R }.
End Click.

(** A pattern slot of [settings]; [noiseVariant] is [None] where the
    property is absent (it only exists in the documented variant). *)
Record Pattern : Type :=
  { type : string; speed : R; scale : R; noiseVariant : option string }.

(** The globals the evaluation reads and writes.  [noise] stands for
    p5's [noise(x, y, z)], a fixed function once its table is seeded.
    A cell of [cellularGrid] that is [undefined] reads as [false]. *)
Record State : Type :=
  { gridCols : R;
    gridRows : R;
    noise : R -> R -> R -> R;
    cellularGrid : list (list bool);
    voronoiPoints : list Point.t }.

Definition setCellularGrid (st : State) (g : list (list bool)) : State :=
  {| gridCols := gridCols st; gridRows := gridRows st; noise := noise st;
     cellularGrid := g; voronoiPoints := voronoiPoints st |}.

Definition setVoronoiPoints (st : State) (ps : list Point.t) : State :=
  {| gridCols := gridCols st; gridRows := gridRows st; noise := noise st;
     cellularGrid := cellularGrid st; voronoiPoints := ps |}.

(** ** Escape-time iterations *)

(** The [for] loop of [mandelbrotIteration] and of [juliaIteration]: the
    two functions run the same loop, the first from [z = 0] with the
    constant [(cx, cy)], the second from [z = (zx, zy)] with the constant
    [c]; [fuel] is the number of rounds left and [i] the loop counter. *)

Fixpoint mandelbrotLoop (fuel i maxIter : nat) (zx zy cx cy : R) : nat :=
  match fuel with
  | O => maxIter
  | S fuel' =>
      if Rgtb (zx * zx + zy * zy) 4 then i
      else
        let temp := zx * zx - zy * zy + cx in
        let zy' := 2 * zx * zy + cy in
        mandelbrotLoop fuel' (S i) maxIter temp zy' cx cy
  end.

Definition mandelbrotIteration (cx cy : R) (maxIter : nat) : nat :=
  mandelbrotLoop maxIter 0 maxIter 0 0 cx cy.

Definition juliaIteration (zx zy : R) (c : R * R) (maxIter : nat) : nat :=
  mandelbrotLoop maxIter 0 maxIter zx zy (fst c) (snd c).

(** ** Cellular automaton *)

Definition Grid : Type := list (list bool).

(** Assignment [a[i] = v] on a JavaScript array: inside the array it
    replaces, at or past the end it extends (the skipped slots are holes,
    which read as [hole]). *)
Definition setAt {A : Type} (hole : A) (i : nat) (v : A) (a : list A) : list A :=
  if (i <? List.length a)%nat then firstn i a ++ v :: skipn (S i) a
  else a ++ repeat hole (i - List.length a) ++ [v].

(** [cellularGrid[ny][nx]] for [ny], [nx] that are not negative: [None]
    is the TypeError of indexing a missing row. *)
Definition cellAt (g : Grid) (ny nx : Z) : option bool :=
  match nth_error g (Z.to_nat ny) with
  | None => None
  | Some row => Some (nth (Z.to_nat nx) row false)
  end.

(** The body of the inner [dx] loop of [updateCellular], for the cell
    [(x, y)] and the offset [(dx, dy)]; [acc] is [neighbors]. *)
Definition neighborStep (g : Grid) (x y dy : Z) (acc : option nat) (dx : Z)
  : option nat :=
  match acc with
  | None => None
  | Some neighbors =>
      if ((dx =? 0) && (dy =? 0))%Z then Some neighbors
      else
        let nx := (x + dx)%Z in
        let ny := (y + dy)%Z in
        if ((0 <=? nx) && (nx <? 40) && (0 <=? ny) && (ny <? 30))%Z then
          match cellAt g ny nx with
          | None => None
          | Some true => Some (S neighbors)
          | Some false => Some neighbors
          end
        else Some neighbors
  end.

(** The two [dy], [dx] loops of [updateCellular]. *)
Definition countNeighbors (g : Grid) (x y : Z) : option nat :=
  fold_left (fun acc dy => fold_left (neighborStep g x y dy) [-1; 0; 1]%Z acc)
            [-1; 0; 1]%Z (Some O).

(** The value written to [newGrid[y][x]]. *)
Definition newCell (g : Grid) (x y : Z) : option bool :=
  match countNeighbors g x y with
  | None => None
  | Some neighbors =>
      match cellAt g y x with
      | None => None
      | Some true => Some ((neighbors =? 2)%nat || (neighbors =? 3)%nat)
      | Some false => Some (neighbors =? 3)%nat
      end
  end.

(** The body of the [x] loop: the assignment [newGrid[y][x] = ...]. *)
Definition rowStep (cellularGrid : Grid) (y : nat) (acc : option Grid) (x : nat)
  : option Grid :=
  match acc with
  | None => None
  | Some newGrid =>
      match newCell cellularGrid (Z.of_nat x) (Z.of_nat y) with
      | None => None
      | Some v => Some (setAt [] y (setAt false x v (nth y newGrid [])) newGrid)
      end
  end.

(** The body of the [y] loop: [newGrid[y] = []], then the [x] loop. *)
Definition gridStep (cellularGrid : Grid) (acc : option Grid) (y : nat)
  : option Grid :=
  match acc with
  | None => None
  | Some newGrid =>
      fold_left (rowStep cellularGrid y) (seq 0 40) (Some (setAt [] y [] newGrid))
  end.

(** [updateCellular]: [newGrid] is filled row by row from the old grid,
    which is only read; the result is the grid assigned to
    [cellularGrid], or [None] when a read raised. *)
Definition updateCellular (cellularGrid : Grid) : option Grid :=
  fold_left (gridStep cellularGrid) (seq 0 30) (Some []).

(** [cellularGrid[cellY] && cellularGrid[cellY][cellX]] as a condition:
    an index that is negative or past the end reads [undefined]. *)
Definition cellTruthy (g : Grid) (cellY cellX : Z) : bool :=
  if (cellY <? 0)%Z then false
  else match nth_error g (Z.to_nat cellY) with
       | None => false
       | Some row =>
           if (cellX <? 0)%Z then false else nth (Z.to_nat cellX) row false
       end.

(** ** Voronoi swarm *)

(** The advance of one point at the head of [getVoronoiValue]. *)
Definition movePoint (p : Point.t) : Point.t :=
  let x := Point.x p + Point.vx p in
  let y := Point.y p + Point.vy p in
  let vx := if Rleb x 0 || Rgeb x 1 then Point.vx p * -1 else Point.vx p in
  let vy := if Rleb y 0 || Rgeb y 1 then Point.vy p * -1 else Point.vy p in
  Point.mk (P5.constrain x 0 1) (P5.constrain y 0 1) vx vy.

(** A distance of the nearest-point search, which starts at [Infinity]. *)
Inductive Dist : Type :=
  | Finite (d : R)
  | Infinity.

Definition distLt (d : R) (m : Dist) : bool :=
  match m with
  | Finite m' => Rltb d m'
  | Infinity => true
  end.

(** The second loop of [getVoronoiValue]: [(minDist, secondMinDist)]. *)
Definition nearestTwo (x y : R) (points : list Point.t) : Dist * Dist :=
  fold_left (fun acc point =>
    let '(minDist, secondMinDist) := acc in
    let d := P5.dist x y (Point.x point) (Point.y point) in
    if distLt d minDist then (Finite d, minDist)
    else if distLt d secondMinDist then (minDist, Finite d)
    else (minDist, secondMinDist)) points (Infinity, Infinity).

(** [getVoronoiValue]: the returned number and the points after the
    call.  The number is [None] when it is not finite, which needs fewer
    than two points. *)
Definition getVoronoiValue (points : list Point.t) (x y timeOffset : R)
  : option R * list Point.t :=
  let points' := List.map movePoint points in
  match nearestTwo x y points' with
  | (Finite minDist, Finite secondMinDist) =>
      (Some (((secondMinDist - minDist) * 10 + sin (timeOffset * 100)) * 2 - 1),
       points')
  | _ => (None, points')
  end.

(** ** Pattern evaluation *)

(** The operands of [^] are converted to signed 32-bit integers. *)
Definition toInt32 (z : Z) : Z := ((z + 2 ^ 31) mod 2 ^ 32 - 2 ^ 31)%Z.

Section Kinds.

Variables (normalizedX normalizedY : R) (pattern : Pattern) (time : R).

Definition wavesValue : R :=
  (sin (normalizedX * P5.TWO_PI * 5 + time * speed pattern * 100) +
   sin (normalizedY * P5.TWO_PI * 3 + time * speed pattern * 80)) / 2.

Definition ripplesValue : R :=
  let centerX := 0.5 in
  let centerY := 0.5 in
  let distance := P5.dist normalizedX normalizedY centerX centerY in
  sin (distance * P5.TWO_PI * 10 - time * speed pattern * 200).

Definition noiseValue (noise : R -> R -> R -> R) : R :=
  noise (normalizedX * scale pattern * 100) (normalizedY * scale pattern * 100)
        (time * speed pattern * 10) * 2 - 1.

Definition spiralValue : R :=
  let angle := P5.atan2 (normalizedY - 0.5) (normalizedX - 0.5) in
  let radius := P5.dist normalizedX normalizedY 0.5 0.5 in
  sin (angle * 3 + radius * 20 + time * speed pattern * 100).

Definition checkerboardValue : R :=
  let checkX := P5.floor (normalizedX * scale pattern * 100) in
  let checkY := P5.floor (normalizedY * scale pattern * 100) in
  IZR (Z.rem (checkX + checkY + P5.floor (time * speed pattern * 100)) 2) * 2 - 1.

Definition stripesValue : R :=
  sin ((normalizedX + normalizedY) * scale pattern * 200 + time * speed pattern * 100).

Definition plasmaValue : R :=
  (sin (normalizedX * 16 + time * speed pattern * 80) +
   sin (normalizedY * 8 + time * speed pattern * 60) +
   sin ((normalizedX + normalizedY) * 16 + time * speed pattern * 40) +
   sin (sqrt (normalizedX * normalizedX + normalizedY * normalizedY) * 8
        + time * speed pattern * 120)) / 4.

Definition mandelbrotValue (maxIter : nat) : R :=
  let zx := (normalizedX - 0.5) * 4 in
  let zy := (normalizedY - 0.5) * 4 in
  let cx := zx + sin (time * speed pattern * 50) * 0.3 in
  let cy := zy + cos (time * speed pattern * 30) * 0.3 in
  INR (mandelbrotIteration cx cy maxIter) / INR maxIter.

Definition juliaValue (maxIter : nat) : R :=
  let jx := (normalizedX - 0.5) * 4 in
  let jy := (normalizedY - 0.5) * 4 in
  let juliaC := (sin (time * speed pattern * 100) * 0.8,
                 cos (time * speed pattern * 70) * 0.8) in
  INR (juliaIteration jx jy juliaC maxIter) / INR maxIter.

Definition tunnelValue : R :=
  let tunnelAngle := P5.atan2 (normalizedY - 0.5) (normalizedX - 0.5) in
  let tunnelRadius := P5.dist normalizedX normalizedY 0.5 0.5 in
  sin (tunnelAngle * 8 + time * speed pattern * 100) *
  sin (1 / (tunnelRadius + 0.1) + time * speed pattern * 50).

Definition mosaicValue : R :=
  let mosaicX := P5.floor (normalizedX * scale pattern * 200) in
  let mosaicY := P5.floor (normalizedY * scale pattern * 200) in
  let mosaicHash :=
    Z.rem (Z.lxor (toInt32 (mosaicX * 73856093)) (toInt32 (mosaicY * 19349663)))
          1000000 in
  (IZR mosaicHash / 500000 - 1) + sin (time * speed pattern * 100) * 0.3.

(** The [noise] case of the documented variant, with its three variants. *)
Definition noiseVariantValue (noise : R -> R -> R -> R) : R :=
  let variant :=
    match noiseVariant pattern with
    | None => "simplex"%string
    | Some s => if String.eqb s "" then "simplex"%string else s
    end in
  if String.eqb variant "simplex" then noiseValue noise
  else if String.eqb variant "turbulence" then
    let '(value, _, _) :=
      fold_left (fun acc (_ : nat) =>
        let '(value, amplitude, frequency) := acc in
        (value + amplitude *
           noise (normalizedX * scale pattern * 100 * frequency)
                 (normalizedY * scale pattern * 100 * frequency)
                 (time * speed pattern * 10 * frequency),
         amplitude * 0.5, frequency * 2.0)) (seq 0 4) (0, 1.0, 1.0) in
    (value / 1.875) * 2 - 1
  else if String.eqb variant "ridged" then
    let baseNoise :=
      noise (normalizedX * scale pattern * 100) (normalizedY * scale pattern * 100)
            (time * speed pattern * 10) in
    1.0 - Rabs (baseNoise * 2 - 1) * 2 - 1
  else noiseValue noise.

End Kinds.

(** [getPatternValue] of js/scripts.js.  The result is the number
    returned and the state after the call; the number is [None] when the
    call does not return a finite number (a TypeError of [updateCellular],
    or a Voronoi value that is not finite). *)
Definition getPatternValue (st : State) (x y : R) (pattern : Pattern) (time : R)
  : option R * State :=
  let normalizedX := x / gridCols st in
  let normalizedY := y / gridRows st in
  let kind := type pattern in
  let '(value, st') :=
    if String.eqb kind "waves" then
      (Some (wavesValue normalizedX normalizedY pattern time), st)
    else if String.eqb kind "ripples" then
      (Some (ripplesValue normalizedX normalizedY pattern time), st)
    else if String.eqb kind "noise" then
      (Some (noiseValue normalizedX normalizedY pattern time (noise st)), st)
    else if String.eqb kind "spiral" then
      (Some (spiralValue normalizedX normalizedY pattern time), st)
    else if String.eqb kind "checkerboard" then
      (Some (checkerboardValue normalizedX normalizedY pattern time), st)
    else if String.eqb kind "stripes" then
      (Some (stripesValue normalizedX normalizedY pattern time), st)
    else if String.eqb kind "plasma" then
      (Some (plasmaValue normalizedX normalizedY pattern time), st)
    else if String.eqb kind "mandelbrot" then
      (Some (mandelbrotValue normalizedX normalizedY pattern time 20), st)
    else if String.eqb kind "julia" then
      (Some (juliaValue normalizedX normalizedY pattern time 20), st)
    else if String.eqb kind "cellular" then
      let updated :=
        if (Z.rem (P5.floor (time * speed pattern * 100)) 30 =? 0)%Z
        then updateCellular (cellularGrid st)
        else Some (cellularGrid st) in
      match updated with
      | None => (None, st)
      | Some grid =>
          let cellX := P5.floor (normalizedX * 40) in
          let cellY := P5.floor (normalizedY * 30) in
          (Some (if cellTruthy grid cellY cellX then 1 else -1),
           setCellularGrid st grid)
      end
    else if String.eqb kind "voronoi" then
      let '(v, points) :=
        getVoronoiValue (voronoiPoints st) normalizedX normalizedY
                        (time * speed pattern) in
      (v, setVoronoiPoints st points)
    else if String.eqb kind "tunnel" then
      (Some (tunnelValue normalizedX normalizedY pattern time), st)
    else if String.eqb kind "mosaic" then
      (Some (mosaicValue normalizedX normalizedY pattern time), st)
    else (Some 0, st) in
  (option_map (fun value => (value + 1) / 2) value, st').

(** The documented variant of the sketch: no cellular kind, three noise
    variants, and an iteration budget chosen from the global [targetFPS]. *)
Module Variant.

Definition getPatternValue (targetFPS : R) (st : State) (x y : R)
    (pattern : Pattern) (time : R) : option R * State :=
  let normalizedX := x / gridCols st in
  let normalizedY := y / gridRows st in
  let kind := type pattern in
  let '(value, st') :=
    if String.eqb kind "waves" then
      (Some (wavesValue normalizedX normalizedY pattern time), st)
    else if String.eqb kind "ripples" then
      (Some (ripplesValue normalizedX normalizedY pattern time), st)
    else if String.eqb kind "noise" then
      (Some (noiseVariantValue normalizedX normalizedY pattern time (noise st)), st)
    else if String.eqb kind "spiral" then
      (Some (spiralValue normalizedX normalizedY pattern time), st)
    else if String.eqb kind "checkerboard" then
      (Some (checkerboardValue normalizedX normalizedY pattern time), st)
    else if String.eqb kind "stripes" then
      (Some (stripesValue normalizedX normalizedY pattern time), st)
    else if String.eqb kind "plasma" then
      (Some (plasmaValue normalizedX normalizedY pattern time), st)
    else if String.eqb kind "mandelbrot" then
      let mandelbrotIterations := if Rleb targetFPS 30 then 10%nat else 15%nat in
      (Some (mandelbrotValue normalizedX normalizedY pattern time
                             mandelbrotIterations), st)
    else if String.eqb kind "julia" then
      let juliaIterations := if Rleb targetFPS 30 then 10%nat else 15%nat in
      (Some (juliaValue normalizedX normalizedY pattern time juliaIterations), st)
    else if String.eqb kind "voronoi" then
      let '(v, points) :=
        getVoronoiValue (voronoiPoints st) normalizedX normalizedY
                        (time * speed pattern) in
      (v, setVoronoiPoints st points)
    else if String.eqb kind "tunnel" then
      (Some (tunnelValue normalizedX normalizedY pattern time), st)
    else if String.eqb kind "mosaic" then
      (Some (mosaicValue normalizedX normalizedY pattern time), st)
    else (Some 0, st) in
  (option_map (fun value => (value + 1) / 2) value, st').

End Variant.

(** ** Glyph selection (the last step of [draw] for one cell) *)

(** [charIndex] after the [constrain]. *)
Definition charIndex {A : Type} (finalValue : R) (selectedRamp : list A) : Z :=
  let last := (Z.of_nat (List.length selectedRamp) - 1)%Z in
  let charIndex := P5.floor (P5.map finalValue 0 1 0 (IZR last)) in
  P5.constrainZ charIndex 0 last.

(** [selectedRamp[charIndex]]: [None] is [undefined]. *)
Definition rampAt {A : Type} (selectedRamp : list A) (i : Z) : option A :=
  if (i <? 0)%Z then None else nth_error selectedRamp (Z.to_nat i).

Definition glyph {A : Type} (finalValue : R) (selectedRamp : list A) : option A :=
  rampAt selectedRamp (charIndex finalValue selectedRamp).

(** ** Click effects *)

Definition decay (effect : Click.t) : Click.t :=
  Click.mk (Click.x effect) (Click.y effect) (Click.life effect - 0.016)
           (Click.maxLife effect) (Click.strength effect) (Click.radius effect).

(** [updateInteractiveEffects] of js/scripts.js: the callback of [filter]
    first decrements the life of the effect, then tests it. *)
Definition updateInteractiveEffects (clickEffects : list Click.t) : list Click.t :=
  filter (fun effect => Rgtb (Click.life effect) 0) (List.map decay clickEffects).

Module Interactive.
Record t : Type :=
  mk { enabled : bool; type : string; strength : R; radius : R;
       clickEnabled : bool }.
End Interactive.

Definition baseCharWidth : R := 8.
Definition baseCharHeight : R := 14.

(** [mousePressed]: [width], [height], [mouseX] and [mouseY] are the p5
    globals of that name. *)
Definition mousePressed (interactive : Interactive.t)
    (gridCols gridRows gridScale width height mouseX mouseY : R)
    (clickEffects : list Click.t) : list Click.t :=
  if Interactive.enabled interactive && Interactive.clickEnabled interactive then
    let gridPixelWidth := gridCols * baseCharWidth * gridScale in
    let gridPixelHeight := gridRows * baseCharHeight * gridScale in
    let startX := (width - gridPixelWidth) / 2 in
    let startY := (height - gridPixelHeight) / 2 in
    let relativeX := mouseX - startX in
    let relativeY := mouseY - startY in
    let normalizedX := relativeX / gridPixelWidth in
    let normalizedY := relativeY / gridPixelHeight in
    if Rgeb normalizedX 0 && Rleb normalizedX 1 &&
       Rgeb normalizedY 0 && Rleb normalizedY 1 then
      clickEffects ++
      [Click.mk normalizedX normalizedY 3.0 3.0
                (Interactive.strength interactive)
                (Interactive.radius interactive)]
    else clickEffects
  else clickEffects.


(** ** Reference notions used to state the properties *)

(** The blend modes the two blend functions recognise. *)
Definition blendModes : list string :=
  ["add"; "multiply"; "overlay"; "difference"; "screen"]%string.

(** A hexadecimal digit, by enumeration. *)
Definition isHexDigit (c : ascii) : bool :=
  existsb (Ascii.eqb c) (list_ascii_of_string "0123456789abcdefABCDEF").

(** A string that reads as a six-digit hexadecimal colour: six
    hexadecimal digits, with or without a leading [#]. *)
Definition parsesAsHexColor (hex : string) : Prop :=
  exists digits : list ascii,
    (hex = string_of_list_ascii digits \/
     hex = String "#"%char (string_of_list_ascii digits)) /\
    List.length digits = 6%nat /\
    forallb isHexDigit digits = true.

(** A point of the swarm that lies in the unit square. *)
Definition inUnitSquare (p : Point.t) : Prop :=
  0 <= Point.x p <= 1 /\ 0 <= Point.y p <= 1.

(** The swarm after a sequence of calls of [getVoronoiValue], one per
    query [(x, y, timeOffset)]. *)
Definition swarmAfter (queries : list (R * R * R)) (points : list Point.t)
  : list Point.t :=
  fold_left (fun ps q =>
    let '(x, y, timeOffset) := q in snd (getVoronoiValue ps x y timeOffset))
    queries points.

(** A state used to run the evaluation on concrete inputs. *)
Definition demoState : State :=
  {| gridCols := 80; gridRows := 50; noise := fun _ _ _ => 0.5;
     cellularGrid := []; voronoiPoints := [] |}.

(** The kinds whose evaluation touches no state. *)
Definition statelessKinds : list string :=
  ["waves"; "ripples"; "noise"; "spiral"; "checkerboard"; "stripes"; "plasma";
   "mandelbrot"; "julia"; "tunnel"; "mosaic"]%string.

(** A swarm of eight points: one at rest in the origin, seven moving to
    the right along the lower edge. *)
Definition demoSwarm : list Point.t :=
  Point.mk 0 0 0 0 :: repeat (Point.mk 0.5 0 0.01 0) 7.

Definition voronoiState : State :=
  {| gridCols := 80; gridRows := 50; noise := fun _ _ _ => 0.5;
     cellularGrid := []; voronoiPoints := demoSwarm |}.

(** A 40x30 grid holding a blinker in its upper left corner, lying flat
    in the second row, and the same blinker standing upright. *)
Definition deadRow : list bool := repeat false 40.

Definition blinkerFlat : Grid :=
  deadRow :: (true :: true :: true :: repeat false 37) :: repeat deadRow 28.

Definition blinkerUpright : Grid :=
  repeat (false :: true :: repeat false 38) 3 ++ repeat deadRow 27.

Definition cellularState : State :=
  {| gridCols := 40; gridRows := 30; noise := fun _ _ _ => 0.5;
     cellularGrid := blinkerFlat; voronoiPoints := [] |}.

(** *** Game of Life, as the rules state it *)

(** The cell [(x, y)] of the 40x30 domain is live; a cell outside the
    domain is dead. *)
Definition alive (g : Grid) (x y : Z) : bool :=
  if ((0 <=? x) && (x <? 40) && (0 <=? y) && (y <? 30))%Z
  then nth (Z.to_nat x) (nth (Z.to_nat y) g []) false
  else false.

(** The eight neighbouring offsets [(dx, dy)]. *)
Definition neighborOffsets : list (Z * Z) :=
  [(-1, -1); (0, -1); (1, -1); (-1, 0); (1, 0); (-1, 1); (0, 1); (1, 1)]%Z.

Definition liveNeighbors (g : Grid) (x y : Z) : nat :=
  list_sum (List.map (fun d => if alive g (x + fst d) (y + snd d) then 1%nat else 0%nat)
                     neighborOffsets).

(** Birth on exactly three live neighbours, survival on two or three. *)
Definition lifeRule (live : bool) (neighbors : nat) : bool :=
  if live then (neighbors =? 2)%nat || (neighbors =? 3)%nat
  else (neighbors =? 3)%nat.

(** A grid of 30 rows of 40 cells. *)
Definition wellFormed (g : Grid) : Prop :=
  List.length g = 30%nat /\ Forall (fun row => List.length row = 40%nat) g.

Definition allDead (g : Grid) : Prop := forall x y : Z, alive g x y = false.

(** The row [y] of the next generation, and the next generation. *)
Definition nextRow (g : Grid) (y : nat) : list bool :=
  List.map (fun x => lifeRule (alive g (Z.of_nat x) (Z.of_nat y))
                              (liveNeighbors g (Z.of_nat x) (Z.of_nat y)))
           (seq 0 40).

Definition nextGeneration (g : Grid) : Grid := List.map (nextRow g) (seq 0 30).

(** The kinds whose raw value is a combination of sines or an iteration
    ratio. *)
Definition boundedKinds : list string :=
  ["waves"; "ripples"; "spiral"; "stripes"; "plasma"; "mandelbrot"; "julia";
   "tunnel"]%string.

(** ** Further functions of the sketch *)

(** *** Colour construction *)








(** *** Reference notions for colours *)

(** The value of a hexadecimal digit, by its position in the digits. *)
Definition hexValue (c : ascii) : Z :=
  let fix position (digits : list ascii) (i : Z) : Z :=
    match digits with
    | [] => 0%Z
    | d :: rest => if Ascii.eqb c d then i else position rest (i + 1)%Z
    end in
  if existsb (Ascii.eqb c) (list_ascii_of_string "ABCDEF")
  then position (list_ascii_of_string "ABCDEF") 10%Z
  else position (list_ascii_of_string "0123456789abcdef") 0%Z.

(** A colour whose channels are integers of [0 .. 255]. *)
Definition validRgb (c : Rgb.t) : Prop :=
  (0 <= Rgb.r c <= 255)%Z /\ (0 <= Rgb.g c <= 255)%Z /\ (0 <= Rgb.b c <= 255)%Z.

(** The integers of [0 .. 255]. *)
Definition bytes : list Z := List.map Z.of_nat (seq 0 256).


(** *** Seeding of the stateful kinds *)

(** [Math.random()] is modelled by the stream of the numbers it returns:
    [rnd k] is the result of the call number [k], and the functions that
    draw random numbers return the number of calls made so far. *)
Definition Random : Type := nat -> R.

(** The body of the [x] loop of [initCellular]. *)
Definition initRowStep (rnd : Random) (y : nat) (acc : Grid * nat) (x : nat)
  : Grid * nat :=
  let '(cellularGrid, k) := acc in
  (setAt [] y (setAt false x (Rgtb (rnd k) 0.6) (nth y cellularGrid [])) cellularGrid,
   S k).

(** The body of the [y] loop of [initCellular]. *)
Definition initGridStep (rnd : Random) (acc : Grid * nat) (y : nat) : Grid * nat :=
  let '(cellularGrid, k) := acc in
  fold_left (initRowStep rnd y) (seq 0 40) (setAt [] y [] cellularGrid, k).

Definition initCellular (rnd : Random) (k : nat) : Grid * nat :=
  fold_left (initGridStep rnd) (seq 0 30) ([], k).

(** [initVoronoi]: eight points are pushed, each drawing four numbers. *)
Definition initVoronoi (rnd : Random) (k : nat) : list Point.t * nat :=
  fold_left (fun (acc : list Point.t * nat) (_ : nat) =>
    let '(voronoiPoints, k) := acc in
    (voronoiPoints ++
       [Point.mk (rnd k) (rnd (k + 1)%nat)
                 ((rnd (k + 2)%nat - 0.5) * 0.02)
                 ((rnd (k + 3)%nat - 0.5) * 0.02)],
     (k + 4)%nat)) (seq 0 8) ([], k).

(** *** Reference notions for the stateful kinds *)

(** A stream of numbers of [[0, 1)], as [Math.random] returns them. *)
Definition unitStream (rnd : Random) : Prop := forall k : nat, 0 <= rnd k < 1.

(** [n] calls of [updateCellular] in a row. *)
Fixpoint updateCellularTimes (n : nat) (g : Grid) : option Grid :=
  match n with
  | O => Some g
  | S n' =>
      match updateCellular g with
      | None => None
      | Some g' => updateCellularTimes n' g'
      end
  end.

(** What the nearest-point search holds after [k] points: nothing, the
    nearest distance, or the two nearest distances in order; [P] is a
    property of every distance met. *)
Definition nearestInv (P : R -> Prop) (k : nat) (acc : Dist * Dist) : Prop :=
  match acc with
  | (Infinity, Infinity) => k = 0%nat
  | (Finite m, Infinity) => k = 1%nat /\ 0 <= m /\ P m
  | (Finite m, Finite s) => (2 <= k)%nat /\ 0 <= m <= s /\ P m /\ P s
  | (Infinity, Finite _) => False
  end.

(** The speeds of the points of a swarm along the two axes. *)
Definition speeds (points : list Point.t) : list (R * R) :=
  List.map (fun p => (Rabs (Point.vx p), Rabs (Point.vy p))) points.

(** The generation that a call of the cellular kind leaves behind. *)
Definition cellularGate (pattern : Pattern) (time : R) : bool :=
  (Z.rem (P5.floor (time * speed pattern * 100)) 30 =? 0)%Z.

(** The grid that [initCellular] builds from the random numbers number
    [k], [k + 1], ...: row by row, a cell is live when its number exceeds
    0.6. *)
Definition seededGrid (rnd : Random) (k : nat) : Grid :=
  List.map (fun y =>
    List.map (fun x => Rgtb (rnd (k + 40 * y + x)%nat) 0.6) (seq 0 40)) (seq 0 30).

(** A point whose velocity components are at most 0.01 in absolute
    value. *)
Definition slowPoint (p : Point.t) : Prop :=
  Rabs (Point.vx p) <= 0.01 /\ Rabs (Point.vy p) <= 0.01.

(** *** Pointer interaction *)

(** [applyInteractiveEffect] of js/scripts.js: [time], [mousePos] and
    [clickEffects] are the globals of that name, [interactive] is
    [settings.interactive]. *)
Definition applyInteractiveEffect (st : State) (interactive : Interactive.t)
    (mousePos : R * R) (time : R) (clickEffects : list Click.t)
    (x y baseValue : R) : R :=
  let normalizedX := x / gridCols st in
  let normalizedY := y / gridRows st in
  let effect := 0 in
  let mouseDistance := P5.dist normalizedX normalizedY (fst mousePos) (snd mousePos) in
  let effect :=
    if Rltb mouseDistance (Interactive.radius interactive) then
      let strength := (1 - mouseDistance / Interactive.radius interactive)
                      * Interactive.strength interactive in
      let kind := Interactive.type interactive in
      if String.eqb kind "ripple" then
        effect + sin (mouseDistance * 20 - time * 5) * strength * 0.3
      else if String.eqb kind "attract" then
        effect + strength * 0.5
      else if String.eqb kind "repel" then
        effect - strength * 0.5
      else if String.eqb kind "trail" then
        effect + strength * 0.4 * sin (time * 2)
      else if String.eqb kind "distort" then
        let angle := P5.atan2 (normalizedY - snd mousePos)
                              (normalizedX - fst mousePos) in
        effect + sin (angle * 4 + time * 3) * strength * 0.3
      else effect
    else effect in
  let effect :=
    fold_left (fun effect clickEffect =>
      let clickDistance :=
        P5.dist normalizedX normalizedY (Click.x clickEffect) (Click.y clickEffect) in
      if Rltb clickDistance (Click.radius clickEffect) then
        let clickStrength :=
          (1 - clickDistance / Click.radius clickEffect) * Click.strength clickEffect
          * (Click.life clickEffect / Click.maxLife clickEffect) in
        effect + sin (clickDistance * 15
                      - (Click.maxLife clickEffect - Click.life clickEffect) * 3)
                 * clickStrength
      else effect) clickEffects effect in
  P5.constrain (baseValue + effect) 0 1.

(** [mouseMoved]: the new [mousePos]. *)
Definition mouseMoved (interactive : Interactive.t)
    (gridCols gridRows gridScale width height mouseX mouseY : R)
    (mousePos : R * R) : R * R :=
  if Interactive.enabled interactive then
    let gridPixelWidth := gridCols * baseCharWidth * gridScale in
    let gridPixelHeight := gridRows * baseCharHeight * gridScale in
    let startX := (width - gridPixelWidth) / 2 in
    let startY := (height - gridPixelHeight) / 2 in
    let relativeX := mouseX - startX in
    let relativeY := mouseY - startY in
    (P5.constrain (relativeX / gridPixelWidth) 0 1,
     P5.constrain (relativeY / gridPixelHeight) 0 1)
  else mousePos.

(** *** Reference notions for the interaction *)

(** No click effect reaches the point [(nx, ny)]. *)
Definition outOfReach (nx ny : R) (clickEffects : list Click.t) : Prop :=
  Forall (fun e => Click.radius e <= P5.dist nx ny (Click.x e) (Click.y e))
         clickEffects.

(** A click effect as [mousePressed] creates them and
    [updateInteractiveEffects] keeps them. *)
Definition liveEffect (e : Click.t) : Prop :=
  0 < Click.life e <= 3 /\ Click.maxLife e = 3 /\
  0 <= Click.x e <= 1 /\ 0 <= Click.y e <= 1.

(** The pointer events and frames that touch the click effects. *)
Inductive Event : Type :=
  | Pressed (interactive : Interactive.t)
            (gridCols gridRows gridScale width height mouseX mouseY : R)
  | Frame.

Definition handle (clickEffects : list Click.t) (e : Event) : list Click.t :=
  match e with
  | Pressed interactive gridCols gridRows gridScale width height mouseX mouseY =>
      mousePressed interactive gridCols gridRows gridScale width height
                   mouseX mouseY clickEffects
  | Frame => updateInteractiveEffects clickEffects
  end.

Definition handleAll (events : list Event) (clickEffects : list Click.t)
  : list Click.t :=
  fold_left handle events clickEffects.

(** The number of presses in a history. *)
Definition presses (events : list Event) : nat :=
  List.length (filter (fun e => match e with Frame => false | _ => true end) events).

(** *** The frame loop and the text export *)

(** A character of a ramp or of the exported text: a UTF-16 code unit. *)
Definition Char : Type := nat.

Definition newline : Char := 10%nat.

(** The text that [+=] appends for a character that is [undefined]. *)
Definition undefinedText : list Char :=
  [117; 110; 100; 101; 102; 105; 110; 101; 100]%nat.

(** [settings.pattern1] and [settings.pattern2]: the fields that
    [getPatternValue] reads ([pattern]) and those that only [draw]
    reads. *)
Module Slot.
Record t : Type :=
  mk { pattern : Pattern; color : string; glow : bool; rotation : bool }.
End Slot.

Module Settings.
Record t : Type :=
  mk { charSize : R; charSpacing : R;
       pattern1 : Slot.t; pattern2 : Slot.t; pattern2Enabled : bool;
       interactive : Interactive.t;
       blendMode : string; blendAmount : R }.
End Settings.

(** The globals of the sketch that a frame reads or writes; [width] and
    [height] are the p5 globals of the canvas size. *)
Module Sketch.
Record t : Type :=
  mk { state : State; settings : Settings.t;
       time : R; speedMultiplier : R; gridScale : R;
       width : R; height : R;
       mousePos : R * R; clickEffects : list Click.t;
       currentRamp1 : list Char; currentRamp2 : list Char }.
End Sketch.

(** What [draw] hands to the canvas for one cell: the colour given to
    [fill], the intensity given to [applyGlow] when it is called, and the
    character drawn at [(xPos, yPos)], turned by [rotation] unless that
    is 0. *)
Module DrawCall.
Record t : Type :=
  mk { xPos : R; yPos : R; char : option Char; fill : string;
       glow : option R; rotation : R }.
End DrawCall.

(** The number of rounds of [for (let i = 0; i < n; i++)]. *)
Definition loopCount (n : R) : nat := Z.to_nat (- P5.floor (- n)).

(** The body of the two loops of [draw] for the cell [(x, y)], run on
    the state [st]; [None] when a pattern evaluation does not return a
    finite number. *)
Definition drawCell (sk : Sketch.t) (startX startY actualCharWidth actualCharHeight
    actualCharSize : R) (st : State) (x y : nat) : option DrawCall.t * State :=
  let settings := Sketch.settings sk in
  let pattern1 := Settings.pattern1 settings in
  let pattern2 := Settings.pattern2 settings in
  let time := Sketch.time sk in
  let xPos := startX + (INR x + 0.5) * actualCharWidth in
  let yPos := startY + (INR y + 0.5) * actualCharHeight in
  match getPatternValue st (INR x) (INR y) (Slot.pattern pattern1) time with
  | (None, st1) => (None, st1)
  | (Some value1, st1) =>
      let glowIntensity1 := if Slot.glow pattern1 then value1 else 0 in
      let shouldRotate1 := Slot.rotation pattern1 in
      let blended :=
        if Settings.pattern2Enabled settings then
          match getPatternValue st1 (INR x) (INR y) (Slot.pattern pattern2) time with
          | (None, st2) => (None, st2)
          | (Some value2, st2) =>
              let finalValue := blendValues value1 value2 (Settings.blendMode settings)
                                            (Settings.blendAmount settings) in
              let glowIntensity2 := if Slot.glow pattern2 then value2 else 0 in
              let finalColor :=
                blendColors (Slot.color pattern1) (Slot.color pattern2)
                            (Settings.blendMode settings) value1 value2
                            (Settings.blendAmount settings) in
              let blendStrength := value1 * value2 * Settings.blendAmount settings in
              let useRamp1 := Rltb blendStrength 0.5 in
              (Some (finalValue, finalColor, glowIntensity2, useRamp1,
                     Slot.rotation pattern2), st2)
          end
        else (Some (value1, Slot.color pattern1, 0, true, false), st1) in
      match blended with
      | (None, st2) => (None, st2)
      | (Some (finalValue, finalColor, glowIntensity2, useRamp1, shouldRotate2), st2) =>
          let finalValue :=
            if Interactive.enabled (Settings.interactive settings)
            then applyInteractiveEffect st2 (Settings.interactive settings)
                   (Sketch.mousePos sk) time (Sketch.clickEffects sk)
                   (INR x) (INR y) finalValue
            else finalValue in
          let maxGlowIntensity := Rmax glowIntensity1 glowIntensity2 in
          let glow :=
            if Rgtb maxGlowIntensity 0 then Some (Rpower maxGlowIntensity 0.7)
            else None in
          let selectedRamp :=
            if useRamp1 then Sketch.currentRamp1 sk else Sketch.currentRamp2 sk in
          let char := glyph finalValue selectedRamp in
          let rotationAngle :=
            if (useRamp1 && shouldRotate1) || (negb useRamp1 && shouldRotate2)
            then finalValue * P5.TWO_PI + (INR x + INR y) * 0.1 + time * 2
            else 0 in
          (Some (DrawCall.mk xPos yPos char finalColor glow rotationAngle), st2)
      end
  end.

(** The [y] loop of [draw] for the column [x], then the [x] loop: the
    state and the calls made so far, or [None] once a cell failed. *)
Definition drawStep (cell : State -> nat -> nat -> option DrawCall.t * State)
    (x : nat) (acc : option (State * list DrawCall.t)) (y : nat)
  : option (State * list DrawCall.t) :=
  match acc with
  | None => None
  | Some (st, calls) =>
      match cell st x y with
      | (None, _) => None
      | (Some call, st') => Some (st', calls ++ [call])
      end
  end.

(** [draw] of js/scripts.js: the sketch after the frame and the calls
    made to the canvas, or [None] when a cell failed. *)
Definition draw (sk : Sketch.t) : option (Sketch.t * list DrawCall.t) :=
  let time := Sketch.time sk + 0.016 * Sketch.speedMultiplier sk in
  let clickEffects := updateInteractiveEffects (Sketch.clickEffects sk) in
  let settings := Sketch.settings sk in
  let gridCols := gridCols (Sketch.state sk) in
  let gridRows := gridRows (Sketch.state sk) in
  let gridPixelWidth := gridCols * baseCharWidth in
  let gridPixelHeight := gridRows * baseCharHeight in
  let scaleX := Sketch.width sk / gridPixelWidth in
  let scaleY := Sketch.height sk / gridPixelHeight in
  let gridScale := Rmin (Rmin scaleX scaleY) 1.0 in
  let actualCharWidth := baseCharWidth * gridScale * Settings.charSpacing settings in
  let actualCharHeight := baseCharHeight * gridScale * Settings.charSpacing settings in
  let actualCharSize := Settings.charSize settings * gridScale in
  let startX := (Sketch.width sk - (gridCols * actualCharWidth)) / 2 in
  let startY := (Sketch.height sk - (gridRows * actualCharHeight)) / 2 in
  let sk1 :=
    Sketch.mk (Sketch.state sk) settings time (Sketch.speedMultiplier sk) gridScale
              (Sketch.width sk) (Sketch.height sk) (Sketch.mousePos sk) clickEffects
              (Sketch.currentRamp1 sk) (Sketch.currentRamp2 sk) in
  let cell := drawCell sk1 startX startY actualCharWidth actualCharHeight
                       actualCharSize in
  match
    fold_left (fun acc x =>
      fold_left (drawStep cell x) (seq 0 (loopCount gridRows)) acc)
      (seq 0 (loopCount gridCols)) (Some (Sketch.state sk, []))
  with
  | None => None
  | Some (st, calls) =>
      Some (Sketch.mk st settings time (Sketch.speedMultiplier sk) gridScale
                      (Sketch.width sk) (Sketch.height sk) (Sketch.mousePos sk)
                      clickEffects (Sketch.currentRamp1 sk) (Sketch.currentRamp2 sk),
            calls)
  end.

(** The body of the two loops of [exportTextFile] for the cell [(x, y)]:
    the character appended to the text. *)
Definition exportCell (sk : Sketch.t) (st : State) (x y : nat)
  : option (option Char) * State :=
  let settings := Sketch.settings sk in
  let time := Sketch.time sk in
  match getPatternValue st (INR x) (INR y)
          (Slot.pattern (Settings.pattern1 settings)) time with
  | (None, st1) => (None, st1)
  | (Some value1, st1) =>
      let blended :=
        if Settings.pattern2Enabled settings then
          match getPatternValue st1 (INR x) (INR y)
                  (Slot.pattern (Settings.pattern2 settings)) time with
          | (None, st2) => (None, st2)
          | (Some value2, st2) =>
              let finalValue := blendValues value1 value2 (Settings.blendMode settings)
                                            (Settings.blendAmount settings) in
              let blendStrength := value1 * value2 * Settings.blendAmount settings in
              (Some (finalValue, Rltb blendStrength 0.5), st2)
          end
        else (Some (value1, true), st1) in
      match blended with
      | (None, st2) => (None, st2)
      | (Some (finalValue, useRamp1), st2) =>
          let finalValue :=
            if Interactive.enabled (Settings.interactive settings)
            then applyInteractiveEffect st2 (Settings.interactive settings)
                   (Sketch.mousePos sk) time (Sketch.clickEffects sk)
                   (INR x) (INR y) finalValue
            else finalValue in
          let selectedRamp :=
            if useRamp1 then Sketch.currentRamp1 sk else Sketch.currentRamp2 sk in
          (Some (glyph finalValue selectedRamp), st2)
      end
  end.

(** [textContent += char] *)
Definition appendChar (textContent : list Char) (char : option Char) : list Char :=
  match char with
  | Some c => textContent ++ [c]
  | None => textContent ++ undefinedText
  end.

(** The body of the [x] loop of [exportTextFile] for the row [y]. *)
Definition exportStep (sk : Sketch.t) (y : nat) (acc : option (State * list Char))
    (x : nat) : option (State * list Char) :=
  match acc with
  | None => None
  | Some (st, textContent) =>
      match exportCell sk st x y with
      | (None, _) => None
      | (Some char, st') => Some (st', appendChar textContent char)
      end
  end.

(** [exportTextFile]: the state after the export and the text handed to
    the download, or [None] when a cell failed. *)
Definition exportTextFile (sk : Sketch.t) : option (State * list Char) :=
  fold_left (fun acc y =>
    match fold_left (exportStep sk y)
            (seq 0 (loopCount (gridCols (Sketch.state sk)))) acc with
    | None => None
    | Some (st, textContent) => Some (st, textContent ++ [newline])
    end) (seq 0 (loopCount (gridRows (Sketch.state sk))))
    (Some (Sketch.state sk, [])).

(** *** Reference notions for the frame loop *)

(** A sketch whose active patterns are of stateless kinds. *)
Definition statelessSketch (sk : Sketch.t) : Prop :=
  In (type (Slot.pattern (Settings.pattern1 (Sketch.settings sk)))) statelessKinds /\
  (Settings.pattern2Enabled (Sketch.settings sk) = true ->
   In (type (Slot.pattern (Settings.pattern2 (Sketch.settings sk)))) statelessKinds).

(** A sketch whose two patterns are of kinds that stay in the unit
    interval. *)
Definition boundedSketch (sk : Sketch.t) : Prop :=
  In (type (Slot.pattern (Settings.pattern1 (Sketch.settings sk)))) boundedKinds /\
  In (type (Slot.pattern (Settings.pattern2 (Sketch.settings sk)))) boundedKinds.

(** The sketch with another secondary ramp. *)
Definition withRamp2 (sk : Sketch.t) (ramp : list Char) : Sketch.t :=
  Sketch.mk (Sketch.state sk) (Sketch.settings sk) (Sketch.time sk)
            (Sketch.speedMultiplier sk) (Sketch.gridScale sk) (Sketch.width sk)
            (Sketch.height sk) (Sketch.mousePos sk) (Sketch.clickEffects sk)
            (Sketch.currentRamp1 sk) ramp.

(** The call of a cell, read off a result of [drawCell]. *)
Definition callOf (r : option DrawCall.t * State) : DrawCall.t :=
  match fst r with
  | Some call => call
  | None => DrawCall.mk 0 0 None "" None 0
  end.

(** A sketch used to run a frame on concrete inputs: a 3x2 grid of
    waves on the ramp [" .:"]. *)
Definition demoSketch : Sketch.t :=
  Sketch.mk
    {| gridCols := 3; gridRows := 2; noise := fun _ _ _ => 0.5;
       cellularGrid := []; voronoiPoints := [] |}
    (Settings.mk 12 1.0
       (Slot.mk (Build_Pattern "waves" 0.01 0.05 None) "#ffffff" false false)
       (Slot.mk (Build_Pattern "ripples" 0.02 0.08 None) "#00ff00" false false)
       false (Interactive.mk false "ripple" 1.0 0.2 true) "multiply" 0.5)
    0 1.0 1.0 800 500 (0.5, 0.5) [] [32; 46; 58]%nat [32; 46; 58]%nat.

(** The state as [setup] leaves it for the stateful kinds: a 40x30 grid
    and at least two points. *)
Definition readyState (st : State) : Prop :=
  wellFormed (cellularGrid st) /\ (2 <= List.length (voronoiPoints st))%nat.

(** A call that draws a character of one of the two ramps. *)
Definition rampGlyph (sk : Sketch.t) (call : DrawCall.t) : Prop :=
  exists c : Char,
    DrawCall.char call = Some c /\
    (In c (Sketch.currentRamp1 sk) \/ In c (Sketch.currentRamp2 sk)).

(** A sketch ready for a frame on the stateful kinds: a voronoi pattern
    blended with a cellular one on a 3x2 grid. *)
Definition demoReadySketch : Sketch.t :=
  Sketch.mk
    {| gridCols := 3; gridRows := 2; noise := fun _ _ _ => 0.5;
       cellularGrid := blinkerFlat; voronoiPoints := demoSwarm |}
    (Settings.mk 12 1.0
       (Slot.mk (Build_Pattern "voronoi" 0.01 0.05 None) "#ffffff" true false)
       (Slot.mk (Build_Pattern "cellular" 0.02 0.08 None) "#00ff00" false true)
       true (Interactive.mk true "ripple" 1.0 0.2 true) "screen" 0.8)
    0 1.0 1.0 800 500 (0.5, 0.5) [] [32; 46; 58]%nat [32; 35]%nat.

(** One evaluation of the voronoi kind, as a step of the state. *)
Definition advanceSwarm (st : State) : State :=
  setVoronoiPoints st (List.map movePoint (voronoiPoints st)).

(** A frame that blends two bounded kinds with a small amount. *)
Definition demoBlendSketch : Sketch.t :=
  Sketch.mk
    {| gridCols := 3; gridRows := 2; noise := fun _ _ _ => 0.5;
       cellularGrid := []; voronoiPoints := [] |}
    (Settings.mk 12 1.0
       (Slot.mk (Build_Pattern "waves" 0.01 0.05 None) "#ffffff" false false)
       (Slot.mk (Build_Pattern "ripples" 0.02 0.08 None) "#00ff00" false false)
       true (Interactive.mk false "ripple" 1.0 0.2 true) "multiply" 0.4)
    0 1.0 1.0 800 500 (0.5, 0.5) [] [32; 46; 58]%nat [32; 35]%nat.

(** One evaluation of the cellular kind while the gate is open, as a
    step of the state. *)
Definition advanceGeneration (st : State) : State :=
  setCellularGrid st (nextGeneration (cellularGrid st)).

(** A sketch whose only active pattern is of the given kind. *)
Definition singlePattern (kind : string) (sk : Sketch.t) : Prop :=
  type (Slot.pattern (Settings.pattern1 (Sketch.settings sk))) = kind /\
  Settings.pattern2Enabled (Sketch.settings sk) = false.

(** *** Webcam glyphs (documented variant) *)

(** The code units of an ASCII string literal. *)
Definition codeUnits (s : string) : list Char :=
  List.map nat_of_ascii (list_ascii_of_string s).

Definition webcamGradient : list Char := codeUnits "_______.:!/r(l1Z4H9W8$@".

(** [webcamGradient.replaceAll('_', ' ')] *)
Definition preparedWebcamGradient : list Char :=
  List.map (fun c => if (c =? 95)%nat then 160%nat else c) webcamGradient.

(** The index [val] computed by [getWebcamCharByScale]. *)
Definition webcamIndex (scale : R) : Z :=
  P5.floor (scale / 255 * (INR (List.length webcamGradient) - 1)).

Definition getWebcamCharByScale (scale : R) : option Char :=
  rampAt preparedWebcamGradient (webcamIndex scale).
(** ** Colour blending in double precision

    [blendColors] prints [Math.floor] of numbers it computes in IEEE 754
    double precision, and the integer that the floor yields depends on the
    rounding of each operation.  For the printed integers the function is
    therefore modelled a second time, on binary64 numbers (the primitive
    type [float], whose operations round to nearest, ties to even), every
    operation in the order of the source. *)

Module Double.
Import PrimFloat SpecFloat FloatOps.

(** A channel value of [hexToRgb], an integer of [0 .. 255], as a
    number. *)
Definition ofZ (z : Z) : float := of_uint63 (Uint63.of_Z z).

(** [Math.min(a, b)] and [Math.max(a, b)]: NaN if an argument is NaN, and
    [-0] below [+0]. *)
Definition min (a b : float) : float :=
  if is_nan a || is_nan b then nan
  else if (a <? b)%float then a
  else if (a =? b)%float then (if get_sign a then a else b)
  else b.

Definition max (a b : float) : float :=
  if is_nan a || is_nan b then nan
  else if (b <? a)%float then a
  else if (a =? b)%float then (if get_sign a then b else a)
  else b.

(** [lerp(start, stop, amt)] and [constrain(n, low, high)] of p5.js. *)
Definition lerp (start stop amt : float) : float :=
  (amt * (stop - start) + start)%float.

Definition constrain (n low high : float) : float := max (min n high) low.

(** The result of [Math.floor]: NaN, an infinity, or an integer (the sign
    of a zero is dropped; a template string prints both zeros as [0]). *)
Inductive Integer : Type :=
| NaN
| Infinity (negative : bool)
| Int (z : Z).

Definition floor (x : float) : Integer :=
  match Prim2SF x with
  | S754_nan => NaN
  | S754_infinity s => Infinity s
  | S754_zero _ => Int 0
  | S754_finite s m e => Int (Z.shiftl (cond_Zopp s (Zpos m)) e)
  end.

(** The text of such a number in a template string ([Number::toString]
    of ECMAScript, here on integers).  A positive integer-valued double
    [z] is written with the integers [k], [s] and [n] such that [s] has
    [k] digits, [s * 10^(n-k)] rounds to [z] and [k] is as small as
    possible (among several [s], the one nearest to [z]): the digits of
    [s] followed by [n - k] zeros if [n <= 21], and the exponent notation
    otherwise.  Up to 2^53 these are the digits of [z] itself. *)
Definition nearest (z : Z) : spec_float := binary_normalize prec emax z 0 false.

Definition digits10 (z : Z) : Z := Z.of_nat (String.length (string_of_Z z)).

(** The candidate [(s, n)] of [k] digits, if there is one. *)
Definition candidate (z k : Z) : option (Z * Z) :=
  let d := digits10 z in
  let j := (d - k)%Z in
  if (j <=? 0)%Z then Some (z, d)
  else
    let lo := (z / 10 ^ j)%Z in
    let hi := (lo + 1)%Z in
    let okLo := SFeqb (nearest (lo * 10 ^ j)) (nearest z) in
    let okHi := ((hi <? 10 ^ k)%Z && SFeqb (nearest (hi * 10 ^ j)) (nearest z))%bool in
    if (okLo && okHi)%bool then
      match (z - lo * 10 ^ j ?= hi * 10 ^ j - z)%Z with
      | Lt => Some (lo, d)
      | Gt => Some (hi, d)
      | Eq => Some (if Z.even lo then lo else hi, d)
      end
    else if okLo then Some (lo, d)
    else if okHi then Some (hi, d)
    else None.

Definition shortest (z : Z) : Z * Z :=
  let d := digits10 z in
  if SFeqb (nearest (10 ^ d)) (nearest z) then (1%Z, (d + 1)%Z)
  else
    let fix search (ks : list nat) : Z * Z :=
      match ks with
      | [] => (z, d)
      | k :: rest =>
          match candidate z (Z.of_nat k) with
          | Some sn => sn
          | None => search rest
          end
      end in
    search (seq 1 17).

Definition positiveToString (z : Z) : string :=
  let '(s, n) := shortest z in
  let digits := string_of_Z s in
  let k := Z.of_nat (String.length digits) in
  if (n <=? 21)%Z then
    (digits ++ string_of_list_ascii (repeat "0"%char (Z.to_nat (n - k))))%string
  else
    match digits with
    | String first EmptyString =>
        (digits ++ "e+" ++ string_of_Z (n - 1))%string
    | String first rest =>
        (String first ("." ++ rest) ++ "e+" ++ string_of_Z (n - 1))%string
    | EmptyString => digits
    end.

Definition toString (n : Integer) : string :=
  match n with
  | NaN => "NaN"
  | Infinity false => "Infinity"
  | Infinity true => "-Infinity"
  | Int Z0 => "0"
  | Int (Zpos p) => positiveToString (Zpos p)
  | Int (Zneg p) => ("-" ++ positiveToString (Zpos p))%string
  end.

(** The template [`rgb(${r}, ${g}, ${b})`]. *)
Definition rgbString (r g b : Integer) : string :=
  ("rgb(" ++ toString r ++ ", " ++ toString g ++ ", " ++ toString b ++ ")")%string.

(** The value of one channel before [Math.floor]. *)
Definition blendChannel (mode : string) (c1 c2 localBlend : float) : float :=
  if String.eqb mode "add" then
    constrain (c1 + (c2 * localBlend)) 0 255
  else if String.eqb mode "multiply" then
    lerp c1 ((c1 * c2) / 255) localBlend
  else if String.eqb mode "overlay" then
    lerp c1
      (if (c1 <? 128)%float then (2 * c1 * c2) / 255
       else 255 - (2 * (255 - c1) * (255 - c2)) / 255)
      localBlend
  else if String.eqb mode "difference" then
    lerp c1 (abs (c1 - c2)) localBlend
  else if String.eqb mode "screen" then
    lerp c1 (255 - (((255 - c1) * (255 - c2)) / 255)) localBlend
  else
    lerp c1 c2 localBlend.

(** [Math.floor(r)], [Math.floor(g)] and [Math.floor(b)]. *)
Definition blendColorsRgb (color1Hex color2Hex mode : string)
    (value1 value2 amount : float) : Integer * Integer * Integer :=
  let color1 := hexToRgb color1Hex in
  let color2 := hexToRgb color2Hex in
  let localBlend := (value1 * value2 * amount)%float in
  let r := blendChannel mode (ofZ (Rgb.r color1)) (ofZ (Rgb.r color2)) localBlend in
  let g := blendChannel mode (ofZ (Rgb.g color1)) (ofZ (Rgb.g color2)) localBlend in
  let b := blendChannel mode (ofZ (Rgb.b color1)) (ofZ (Rgb.b color2)) localBlend in
  (floor r, floor g, floor b).

Definition blendColors (color1Hex color2Hex mode : string)
    (value1 value2 amount : float) : string :=
  let '(r, g, b) := blendColorsRgb color1Hex color2Hex mode value1 value2 amount in
  rgbString r g b.

End Double.

(** Classes of binary64 numbers, on their specification
    ([SpecFloat.spec_float]: sign, mantissa and exponent). *)

Section DoubleClasses.
Import SpecFloat.

(** A number that is a zero or finite (neither NaN nor an infinity). *)
Definition finiteSF (x : spec_float) : Prop :=
  match x with
  | S754_zero _ | S754_finite _ _ _ => True
  | _ => False
  end.

(** A number of the unit interval: a zero, or positive with exponent at
    most that of 1. *)
Definition unitSF (x : spec_float) : Prop :=
  match x with
  | S754_zero _ => True
  | S754_finite false _ e => (e <= -52)%Z
  | _ => False
  end.

End DoubleClasses.

(** ** Basic facts about the comparisons and the built-ins *)

Lemma Rltb_true (a b : R) : a < b -> Rltb a b = true.
Proof. intros H. unfold Rltb. destruct (Rlt_dec a b); [reflexivity | contradiction]. Qed.

Lemma Rltb_false (a b : R) : b <= a -> Rltb a b = false.
Proof. intros H. unfold Rltb. destruct (Rlt_dec a b); [lra | reflexivity]. Qed.

Lemma Rleb_true (a b : R) : a <= b -> Rleb a b = true.
Proof. intros H. unfold Rleb. destruct (Rle_dec a b); [reflexivity | contradiction]. Qed.

Lemma Rleb_false (a b : R) : b < a -> Rleb a b = false.
Proof. intros H. unfold Rleb. destruct (Rle_dec a b); [lra | reflexivity]. Qed.

Lemma Rltb_spec (a b : R) : Rltb a b = true <-> a < b.
Proof.
  unfold Rltb. destruct (Rlt_dec a b); split; intros; auto; discriminate.
Qed.

Lemma constrain_bounds (n low high : R) :
  low <= high -> low <= P5.constrain n low high <= high.
Proof.
  intros H. unfold P5.constrain, Rmax, Rmin.
  destruct (Rle_dec n high); destruct (Rle_dec _ low); lra.
Qed.

Lemma floor_IZR (z : Z) : P5.floor (IZR z) = z.
Proof.
  unfold P5.floor. symmetry. apply Int_part_spec. lra.
Qed.

Lemma floor_unique (r : R) (z : Z) : IZR z <= r < IZR z + 1 -> P5.floor r = z.
Proof.
  intros H. unfold P5.floor. symmetry. apply Int_part_spec. lra.
Qed.

Lemma floor_bounds (r : R) : IZR (P5.floor r) <= r < IZR (P5.floor r) + 1.
Proof.
  unfold P5.floor. pose proof (base_Int_part r). lra.
Qed.

(** ** Channel values *)

Lemma hexDigit_range (c : ascii) (z : Z) : hexDigit c = Some z -> (0 <= z <= 15)%Z.
Proof.
  destruct c as [[] [] [] [] [] [] [] []]; vm_compute; intros E;
    try discriminate E; injection E as <-; split; discriminate.
Qed.

Lemma parseHex2_range (c d : ascii) (z : Z) :
  parseHex2 c d = Some z -> (0 <= z <= 255)%Z.
Proof.
  unfold parseHex2.
  destruct (hexDigit c) as [h |] eqn:Eh; [| discriminate].
  destruct (hexDigit d) as [l |] eqn:El; [| discriminate].
  intros E. assert (Ez : z = (16 * h + l)%Z) by congruence.
  apply hexDigit_range in Eh. apply hexDigit_range in El. lia.
Qed.

Lemma validRgb_white : validRgb white.
Proof. unfold validRgb, white. cbn [Rgb.r Rgb.g Rgb.b]. lia. Qed.

Lemma hexToRgb_valid (hex : string) : validRgb (hexToRgb hex).
Proof.
  unfold hexToRgb.
  destruct (list_ascii_of_string _)
    as [| r1 [| r2 [| g1 [| g2 [| b1 [| b2 [| ? ?]]]]]]];
    try apply validRgb_white.
  destruct (parseHex2 r1 r2) as [r |] eqn:Er; [| apply validRgb_white].
  destruct (parseHex2 g1 g2) as [g |] eqn:Eg; [| apply validRgb_white].
  destruct (parseHex2 b1 b2) as [b |] eqn:Eb; [| apply validRgb_white].
  apply parseHex2_range in Er. apply parseHex2_range in Eg.
  apply parseHex2_range in Eb. unfold validRgb. cbn [Rgb.r Rgb.g Rgb.b]. lia.
Qed.

Lemma bytes_spec (z : Z) : (0 <= z <= 255)%Z -> In z bytes.
Proof.
  intros H. unfold bytes. apply in_map_iff. exists (Z.to_nat z).
  split; [lia | apply in_seq; lia].
Qed.

(** ** Double precision: facts about binary64 arithmetic *)

Section DoublePrecision.
Import PrimFloat SpecFloat FloatOps FloatAxioms.

Lemma digits2_pos_size (m : positive) : digits2_pos m = Pos.size m.
Proof. induction m; cbn; congruence. Qed.

Lemma digits2_pos_le (m : positive) (k : Z) :
  (Zpos m < 2 ^ k)%Z -> (0 <= k)%Z -> (Zpos (digits2_pos m) <= k)%Z.
Proof.
  intros H K. rewrite digits2_pos_size.
  pose proof (Pos.size_le m) as L.
  assert (L' : (2 ^ Zpos (Pos.size m) <= 2 * Zpos m)%Z).
  { rewrite <- Pos2Z.inj_pow. change (2 * Zpos m)%Z with (Zpos m~0). exact L. }
  destruct (Z_le_gt_dec (Zpos (Pos.size m)) k) as [Hle | Hgt]; [exact Hle |].
  exfalso.
  assert (P : (2 ^ (k + 1) <= 2 ^ Zpos (Pos.size m))%Z)
    by (apply Z.pow_le_mono_r; lia).
  rewrite Z.pow_add_r in P by lia. lia.
Qed.

Lemma digits2_pos_gt (m : positive) : (Zpos m < 2 ^ Zpos (digits2_pos m))%Z.
Proof.
  rewrite digits2_pos_size. rewrite <- Pos2Z.inj_pow. apply Pos.size_gt.
Qed.

Lemma Zdigits2_le (m k : Z) :
  (0 <= m < 2 ^ k)%Z -> (0 <= k)%Z -> (0 <= Zdigits2 m <= k)%Z.
Proof.
  intros H K. destruct m as [| p | p]; cbn [Zdigits2]; [lia | | lia].
  split; [lia | apply digits2_pos_le; lia].
Qed.

(** The mantissa and the exponent of a finite binary64 number. *)
Lemma bounded_binary64 (m : positive) (e : Z) :
  bounded prec emax m e = true ->
  (Zpos m < 2 ^ 53)%Z /\ (-1074 <= e <= 971)%Z /\
  fexp prec emax (Zpos (digits2_pos m) + e) = e.
Proof.
  unfold bounded, canonical_mantissa. intros H.
  apply andb_true_iff in H. destruct H as [C B].
  apply Z.eqb_eq in C. apply Z.leb_le in B.
  assert (F : forall x, fexp prec emax x = Z.max (x - 53) (-1074)) by reflexivity.
  rewrite F in C. change (emax - prec)%Z with 971%Z in B.
  pose proof (digits2_pos_gt m) as G.
  assert (D : (Zpos (digits2_pos m) <= 53)%Z) by lia.
  split; [| split; [lia | rewrite F; exact C]].
  eapply Z.lt_le_trans; [exact G |]. apply Z.pow_le_mono_r; lia.
Qed.


(** *** Rounding never yields NaN *)

Lemma iter_pos_invariant {A : Type} (P : A -> Prop) (f : A -> A) :
  (forall x, P x -> P (f x)) -> forall (p : positive) (x : A), P x -> P (iter_pos f p x).
Proof.
  intros Hf. induction p as [p IH | p IH |]; intros x Hx; cbn [iter_pos].
  - apply IH, IH, Hf, Hx.
  - apply IH, IH, Hx.
  - apply Hf, Hx.
Qed.

Lemma shr_1_bounds (M : Z) (mrs : shr_record) :
  (0 <= shr_m mrs <= M)%Z -> (0 <= shr_m (shr_1 mrs) <= M)%Z.
Proof.
  destruct mrs as [m r s]. cbn [shr_m]. intros H.
  destruct m as [| [p | p |] | p]; cbn [shr_1 shr_m]; lia.
Qed.

Lemma shr_fexp_bounds (m e : Z) (l : location) :
  (0 <= m)%Z ->
  (0 <= shr_m (fst (shr_fexp prec emax m e l)) <= m)%Z /\
  (snd (shr_fexp prec emax m e l) = e \/
   snd (shr_fexp prec emax m e l) = fexp prec emax (Zdigits2 m + e)).
Proof.
  intros Hm. unfold shr_fexp, shr.
  assert (R : shr_m (shr_record_of_loc m l) = m) by (destruct l as [| []]; reflexivity).
  destruct (fexp prec emax (Zdigits2 m + e) - e)%Z as [| p | p] eqn:E; cbn [fst snd].
  - rewrite R. split; [lia | left; reflexivity].
  - split; [| right; lia].
    apply (iter_pos_invariant (fun mrs => (0 <= shr_m mrs <= m)%Z)).
    + apply shr_1_bounds.
    + rewrite R. lia.
  - rewrite R. split; [lia | left; reflexivity].
Qed.

Lemma round_nearest_even_bounds (m : Z) (l : location) :
  (0 <= m)%Z -> (0 <= round_nearest_even m l <= m + 1)%Z.
Proof.
  intros H. destruct l as [| []]; cbn [round_nearest_even];
    try destruct (Z.even m); lia.
Qed.

(** Rounding a positive mantissa gives a zero, a finite number or an
    infinity. *)
Lemma binary_round_aux_not_nan (s : bool) (m : positive) (e : Z) (l : location) :
  binary_round_aux prec emax s (Zpos m) e l <> S754_nan.
Proof.
  unfold binary_round_aux.
  destruct (shr_fexp prec emax (Zpos m) e l) as [mrs' e'] eqn:E1.
  pose proof (shr_fexp_bounds (Zpos m) e l ltac:(lia)) as [B1 _].
  rewrite E1 in B1. cbn [fst] in B1.
  pose proof (round_nearest_even_bounds (shr_m mrs') (loc_of_shr_record mrs')
                ltac:(lia)) as B2.
  set (m1 := round_nearest_even (shr_m mrs') (loc_of_shr_record mrs')) in *.
  destruct (shr_fexp prec emax m1 e' loc_Exact) as [mrs'' e''] eqn:E2.
  pose proof (shr_fexp_bounds m1 e' loc_Exact ltac:(lia)) as [B3 _].
  rewrite E2 in B3. cbn [fst] in B3.
  destruct (shr_m mrs'') as [| p | p]; [discriminate | | lia].
  destruct (e'' <=? emax - prec)%Z; discriminate.
Qed.

(** Rounding a small number does not overflow. *)
Lemma binary_round_aux_finite (s : bool) (m : positive) (e : Z) (l : location) :
  (Zpos m < 2 ^ 106)%Z -> (e <= -104)%Z ->
  finiteSF (binary_round_aux prec emax s (Zpos m) e l).
Proof.
  intros Hm He. unfold binary_round_aux.
  assert (F : forall x, fexp prec emax x = Z.max (x - 53) (-1074)) by reflexivity.
  destruct (shr_fexp prec emax (Zpos m) e l) as [mrs' e'] eqn:E1.
  pose proof (shr_fexp_bounds (Zpos m) e l ltac:(lia)) as [B1 X1].
  rewrite E1 in B1, X1. cbn [fst snd] in B1, X1. rewrite F in X1.
  pose proof (Zdigits2_le (Zpos m) 106 ltac:(lia) ltac:(lia)) as D1.
  pose proof (round_nearest_even_bounds (shr_m mrs') (loc_of_shr_record mrs')
                ltac:(lia)) as B2.
  set (m1 := round_nearest_even (shr_m mrs') (loc_of_shr_record mrs')) in *.
  destruct (shr_fexp prec emax m1 e' loc_Exact) as [mrs'' e''] eqn:E2.
  pose proof (shr_fexp_bounds m1 e' loc_Exact ltac:(lia)) as [B3 X3].
  rewrite E2 in B3, X3. cbn [fst snd] in B3, X3. rewrite F in X3.
  assert (M1 : (0 <= m1 < 2 ^ 107)%Z).
  { split; [lia |]. change (2 ^ 107)%Z with (2 * 2 ^ 106)%Z. lia. }
  pose proof (Zdigits2_le m1 107 M1 ltac:(lia)) as D3.
  destruct (shr_m mrs'') as [| p | p]; [exact I | | lia].
  assert (L : (e'' <=? emax - prec)%Z = true).
  { apply Z.leb_le. change (emax - prec)%Z with 971%Z. lia. }
  rewrite L. exact I.
Qed.


(** *** Products and sums *)

Lemma SF64mul_not_nan (x y : spec_float) :
  finiteSF x -> finiteSF y -> SF64mul x y <> S754_nan.
Proof.
  destruct x as [sx | sx | | sx mx ex]; destruct y as [sy | sy | | sy my ey];
    cbn [finiteSF]; try contradiction; intros _ _;
    unfold SF64mul, SFmul; try discriminate.
  apply binary_round_aux_not_nan.
Qed.

Lemma SF64mul_unit (x y : spec_float) :
  valid_binary x = true -> valid_binary y = true ->
  unitSF x -> unitSF y -> finiteSF (SF64mul x y).
Proof.
  destruct x as [sx | sx | | sx mx ex]; destruct y as [sy | sy | | sy my ey];
    cbn [unitSF valid_binary]; try contradiction; intros Vx Vy Ux Uy;
    unfold SF64mul, SFmul; try exact I.
  destruct sx; [contradiction |]. destruct sy; [contradiction |].
  apply bounded_binary64 in Vx. apply bounded_binary64 in Vy.
  destruct Vx as (Mx & _ & _). destruct Vy as (My & _ & _).
  apply binary_round_aux_finite; [| lia].
  rewrite Pos2Z.inj_mul. change (2 ^ 106)%Z with (2 ^ 53 * 2 ^ 53)%Z.
  apply Z.mul_lt_mono_nonneg; lia.
Qed.

Lemma SF64add_not_nan (x y : spec_float) :
  finiteSF x -> y <> S754_nan -> SF64add x y <> S754_nan.
Proof.
  destruct x as [sx | sx | | sx mx ex]; destruct y as [sy | sy | | sy my ey];
    cbn [finiteSF]; try contradiction; intros _ Hy;
    unfold SF64add, SFadd; try discriminate; try congruence.
  - destruct sx, sy; discriminate.
  - cbv zeta. unfold binary_normalize.
    match goal with
    | |- match ?z with _ => _ end <> _ => destruct z as [| p | p]
    end; [discriminate | |];
      unfold binary_round;
      match goal with
      | |- (let '(_, _) := ?a in _) <> _ => destruct a as [mz ez]
      end; apply binary_round_aux_not_nan.
Qed.

(** Multiplying by 1 is exact. *)
Lemma Prim2SF_one : Prim2SF 1 = S754_finite false 4503599627370496 (-52).
Proof. reflexivity. Qed.

Lemma SF64mul_one (x : spec_float) :
  valid_binary x = true -> SF64mul x (Prim2SF 1) = x.
Proof.
  rewrite Prim2SF_one. destruct x as [s | s | | s m e]; cbn [valid_binary]; intros V;
    unfold SF64mul, SFmul; try (destruct s; reflexivity); [reflexivity |].
  apply bounded_binary64 in V. destruct V as (M & E & C).
  assert (F : forall x, fexp prec emax x = Z.max (x - 53) (-1074)) by reflexivity.
  rewrite F in C.
  rewrite xorb_false_r, Pos.mul_comm.
  cbn [Pos.mul].
  unfold binary_round_aux, shr_fexp.
  cbn [Zdigits2 digits2_pos]. rewrite !Pos2Z.inj_succ. rewrite F.
  replace (Z.max _ _ - (e + -52))%Z with 52%Z by lia.
  cbn [shr shr_record_of_loc iter_pos shr_1 shr_m loc_of_shr_record
       round_nearest_even orb].
  cbn [Zdigits2]. rewrite F.
  replace (Z.max _ _ - (e + -52 + 52))%Z with 0%Z by lia.
  cbn [shr shr_record_of_loc shr_m].
  replace (e + -52 + 52)%Z with e by lia.
  assert (L : (e <=? emax - prec)%Z = true).
  { apply Z.leb_le. change (emax - prec)%Z with 971%Z. lia. }
  rewrite L. reflexivity.
Qed.

Lemma mul_one (x : float) : (x * 1)%float = x.
Proof.
  apply Prim2SF_inj. rewrite mul_spec. apply SF64mul_one, Prim2SF_valid.
Qed.


(** *** Comparisons *)

Lemma SFcompare_refl (x : spec_float) :
  x <> S754_nan -> SFcompare x x = Some Eq.
Proof.
  destruct x as [s | s | | s m e]; intros H; cbn [SFcompare];
    [reflexivity | destruct s; reflexivity | congruence |].
  rewrite Z.compare_refl, Pos.compare_cont_refl. destruct s; reflexivity.
Qed.

Lemma is_nan_spec (x : float) :
  is_nan x = match Prim2SF x with S754_nan => true | _ => false end.
Proof.
  unfold is_nan. rewrite eqb_spec. unfold SFeqb.
  destruct (Prim2SF x) as [s | s | | s m e] eqn:E;
    try (rewrite SFcompare_refl by discriminate; reflexivity).
  reflexivity.
Qed.

Lemma ltb_leb (a b : float) : (a <? b)%float = true -> (a <=? b)%float = true.
Proof.
  rewrite ltb_spec, leb_spec. unfold SFltb, SFleb.
  destruct (SFcompare _ _) as [[] |]; congruence.
Qed.

Lemma eqb_leb (a b : float) : (a =? b)%float = true -> (a <=? b)%float = true.
Proof.
  rewrite eqb_spec, leb_spec. unfold SFeqb, SFleb.
  destruct (SFcompare _ _) as [[] |]; congruence.
Qed.

Lemma eqb_zero_leb (a : float) : (a =? 0)%float = true -> (0 <=? a)%float = true.
Proof.
  rewrite eqb_spec, leb_spec. change (Prim2SF 0) with (S754_zero false).
  unfold SFeqb, SFleb.
  destruct (Prim2SF a) as [s | s | | s m e]; cbn [SFcompare];
    try reflexivity; try (destruct s; discriminate); discriminate.
Qed.

Lemma leb_not_nan (a b : float) : (a <=? b)%float = true -> is_nan a = false.
Proof.
  rewrite leb_spec, is_nan_spec. unfold SFleb.
  destruct (Prim2SF a); try reflexivity. cbn [SFcompare]. discriminate.
Qed.

(** *** The clamp to [0 .. 255] and its floor *)

Lemma constrain_byte_range (n : float) :
  is_nan n = false ->
  (0 <=? Double.constrain n 0 255)%float = true /\
  (Double.constrain n 0 255 <=? 255)%float = true.
Proof.
  intros N. unfold Double.constrain.
  assert (T : (Double.min n 255 <=? 255)%float = true).
  { unfold Double.min. rewrite N. change (is_nan 255) with false. cbn [orb].
    destruct (n <? 255)%float eqn:L; [apply ltb_leb, L |].
    destruct (n =? 255)%float eqn:Q; [| reflexivity].
    destruct (get_sign n); [apply eqb_leb, Q | reflexivity]. }
  set (t := Double.min n 255) in *.
  unfold Double.max. rewrite (leb_not_nan _ _ T). change (is_nan 0) with false.
  cbn [orb].
  destruct (0 <? t)%float eqn:L; [split; [apply ltb_leb, L | exact T] |].
  destruct (t =? 0)%float eqn:Q; [| split; reflexivity].
  destruct (get_sign t); [split; reflexivity |].
  split; [apply eqb_zero_leb, Q | exact T].
Qed.

Lemma floor_byte_range (r : float) :
  (0 <=? r)%float = true -> (r <=? 255)%float = true ->
  exists z : Z, Double.floor r = Double.Int z /\ (0 <= z <= 255)%Z.
Proof.
  rewrite !leb_spec. change (Prim2SF 0) with (S754_zero false).
  change (Prim2SF 255) with (S754_finite false 8972014882652160 (-45)).
  unfold Double.floor. pose proof (Prim2SF_valid r) as V. unfold SFleb.
  destruct (Prim2SF r) as [s | s | | s m e]; cbn [SFcompare].
  - intros _ _. exists 0%Z. split; [reflexivity | lia].
  - destruct s; discriminate.
  - discriminate.
  - destruct s; [discriminate |]. intros _ H.
    cbn [valid_binary] in V. apply bounded_binary64 in V. destruct V as (M & E & _).
    exists (Z.shiftl (Zpos m) e). split; [reflexivity |].
    assert (Ee : (e < -45)%Z \/ (e = -45 /\ Zpos m <= 8972014882652160)%Z).
    { destruct (e ?= -45)%Z eqn:C.
      - right. apply Z.compare_eq in C. split; [exact C |].
        rewrite Pos.compare_cont_spec in H.
        destruct (Pos.compare m 8972014882652160) eqn:P;
          cbn [Pos.switch_Eq] in H; try discriminate.
        + apply Pos.compare_eq in P. subst m. apply Z.le_refl.
        + apply Z.lt_le_incl, Pos2Z.pos_lt_pos. exact P.
      - left. apply Z.compare_lt_iff in C. exact C.
      - discriminate. }
    rewrite Z.shiftl_div_pow2 by lia.
    assert (P : (0 < 2 ^ (- e))%Z) by (apply Z.pow_pos_nonneg; lia).
    split; [apply Z.div_pos; lia |].
    apply Z.lt_succ_r. apply Z.div_lt_upper_bound; [exact P |].
    destruct Ee as [Ee | [-> Ee]].
    + assert (Q : (2 ^ 46 <= 2 ^ (- e))%Z) by (apply Z.pow_le_mono_r; lia).
      change (2 ^ 53)%Z with (2 ^ 46 * 128)%Z in M. nia.
    + change (2 ^ (- -45))%Z with 35184372088832%Z. lia.
Qed.


(** *** The operands of the colour blend *)

Lemma unit_interval_unitSF (v : float) :
  (0 <=? v)%float = true -> (v <=? 1)%float = true -> unitSF (Prim2SF v).
Proof.
  rewrite !leb_spec, Prim2SF_one. change (Prim2SF 0) with (S754_zero false).
  unfold SFleb.
  destruct (Prim2SF v) as [s | s | | s m e]; cbn [SFcompare unitSF].
  - intros _ _. exact I.
  - destruct s; discriminate.
  - discriminate.
  - destruct s; [discriminate |]. intros _ H.
    destruct (e ?= -52)%Z eqn:C; [| | discriminate].
    + apply Z.compare_eq in C. lia.
    + apply Z.lt_le_incl. exact C.
Qed.

Lemma unitSF_finiteSF (x : spec_float) : unitSF x -> finiteSF x.
Proof. destruct x as [s | s | | [] m e]; cbn; tauto. Qed.

(** The channel values are exact as numbers: finite, never NaN. *)
Lemma ofZ_finite (z : Z) : (0 <= z <= 255)%Z -> finiteSF (Prim2SF (Double.ofZ z)).
Proof.
  intros H. apply bytes_spec in H.
  assert (A : forallb (fun z => match Prim2SF (Double.ofZ z) with
                                | S754_zero _ | S754_finite _ _ _ => true
                                | _ => false
                                end) bytes = true) by (vm_compute; reflexivity).
  rewrite forallb_forall in A. specialize (A z H).
  destruct (Prim2SF (Double.ofZ z)); cbn [finiteSF]; congruence || exact I.
Qed.

(** The number that mode 'add' clamps is never NaN for pattern values of
    the unit interval. *)
Lemma add_operand_not_nan (a b : Z) (v1 v2 : float) :
  (0 <= a <= 255)%Z -> (0 <= b <= 255)%Z ->
  (0 <=? v1)%float = true -> (v1 <=? 1)%float = true ->
  (0 <=? v2)%float = true -> (v2 <=? 1)%float = true ->
  is_nan (Double.ofZ a + Double.ofZ b * (v1 * v2))%float = false.
Proof.
  intros Ha Hb L1 U1 L2 U2.
  pose proof (unit_interval_unitSF v1 L1 U1) as S1.
  pose proof (unit_interval_unitSF v2 L2 U2) as S2.
  pose proof (SF64mul_unit _ _ (Prim2SF_valid v1) (Prim2SF_valid v2) S1 S2) as P.
  rewrite <- mul_spec in P.
  pose proof (SF64mul_not_nan _ _ (ofZ_finite b Hb) P) as Q.
  rewrite <- mul_spec in Q.
  pose proof (SF64add_not_nan _ _ (ofZ_finite a Ha) Q) as R.
  rewrite <- add_spec in R.
  rewrite is_nan_spec.
  destruct (Prim2SF (Double.ofZ a + Double.ofZ b * (v1 * v2))%float);
    congruence || reflexivity.
Qed.


(** A channel of [0 .. 255] is printed with its decimal digits. *)
Lemma toString_byte (z : Z) :
  (0 <= z <= 255)%Z -> Double.toString (Double.Int z) = string_of_Z z.
Proof.
  intros H. apply bytes_spec in H.
  assert (A : forallb (fun z => String.eqb (Double.toString (Double.Int z))
                                           (string_of_Z z)) bytes = true)
    by (vm_compute; reflexivity).
  rewrite forallb_forall in A. apply String.eqb_eq, A, H.
Qed.

Lemma rgbString_bytes (r g b : Z) :
  (0 <= r <= 255)%Z -> (0 <= g <= 255)%Z -> (0 <= b <= 255)%Z ->
  Double.rgbString (Double.Int r) (Double.Int g) (Double.Int b) =
  rgbString (Rgb.mk r g b).
Proof.
  intros Hr Hg Hb. unfold Double.rgbString, rgbString. cbn [Rgb.r Rgb.g Rgb.b].
  rewrite !toString_byte by assumption. reflexivity.
Qed.

End DoublePrecision.

(** ** Scalar blend *)

(** C2: with mode 'multiply' and amount 0 the second value is dampened to
    [lerp(0.5, v2, 0) = 0.5], and [blendValues] returns half of the first
    value (not the first value itself), for all [v1] and [v2], in
    particular for those of the unit interval. *)
Theorem blendValues_multiply_amount_zero (v1 v2 : R) :
  P5.lerp 0.5 v2 0 = 0.5 /\
  blendValues v1 v2 "multiply" 0 = 0.5 * v1 /\
  blendValues v1 v2 "multiply" 0 = v1 / 2.
Proof.
  unfold blendValues, P5.lerp. cbn [String.eqb Ascii.eqb Bool.eqb].
  repeat split; lra.
Qed.

(** ** Colour blend *)

Section ColourBlend.
Import PrimFloat.

Lemma hexToRgb_black : hexToRgb "#000000" = Rgb.mk 0 0 0.
Proof. reflexivity. Qed.

Lemma hexToRgb_white : hexToRgb "#ffffff" = Rgb.mk 255 255 255.
Proof. reflexivity. Qed.

Lemma blendChannel_add (c1 c2 localBlend : R) :
  blendChannel "add" c1 c2 localBlend = P5.constrain (c1 + c2 * localBlend) 0 255.
Proof. reflexivity. Qed.

Lemma blendColorsRgb_channels (c1 c2 mode : string) (v1 v2 amount : R) :
  blendColorsRgb c1 c2 mode v1 v2 amount =
  Rgb.mk
    (P5.floor (blendChannel mode (IZR (Rgb.r (hexToRgb c1)))
                 (IZR (Rgb.r (hexToRgb c2))) (v1 * v2 * amount)))
    (P5.floor (blendChannel mode (IZR (Rgb.g (hexToRgb c1)))
                 (IZR (Rgb.g (hexToRgb c2))) (v1 * v2 * amount)))
    (P5.floor (blendChannel mode (IZR (Rgb.b (hexToRgb c1)))
                 (IZR (Rgb.b (hexToRgb c2))) (v1 * v2 * amount))).
Proof. reflexivity. Qed.

Lemma constrain_quarter_white :
  P5.constrain (0 + 255 * (1 / 2 * (1 / 2) * 1)) 0 255 = 63.75.
Proof.
  unfold P5.constrain, Rmax, Rmin.
  destruct (Rle_dec _ 255); destruct (Rle_dec _ 0); lra.
Qed.

(** C6, as stated, fails: for black and white blended with mode 'add',
    amount 1 and both pattern values 1/2, the red channel that
    [blendColors] prints is 63, while [clamp(c1 + c2*v1*v2, 0, 255)] is
    63.75.  Every number of this run is a double, so it is the same in
    exact and in double-precision arithmetic. *)
Lemma blendColors_add_output_not_the_clamp :
  blendColors "#000000" "#ffffff" "add" (1 / 2) (1 / 2) 1 = "rgb(63, 63, 63)"%string /\
  Rgb.r (blendColorsRgb "#000000" "#ffffff" "add" (1 / 2) (1 / 2) 1) = 63%Z /\
  IZR (Rgb.r (blendColorsRgb "#000000" "#ffffff" "add" (1 / 2) (1 / 2) 1)) <>
  P5.constrain (IZR (Rgb.r (hexToRgb "#000000")) +
                IZR (Rgb.r (hexToRgb "#ffffff")) * (1 / 2) * (1 / 2)) 0 255 /\
  Double.blendColors "#000000" "#ffffff" "add" 0.5 0.5 1 = "rgb(63, 63, 63)"%string /\
  Double.constrain (0 + 255 * 0.5 * 0.5) 0 255 = 63.75%float.
Proof.
  assert (D : Double.blendColors "#000000" "#ffffff" "add" 0.5 0.5 1 =
              "rgb(63, 63, 63)"%string /\
              Double.constrain (0 + 255 * 0.5 * 0.5) 0 255 = 63.75%float)
    by (split; vm_compute; reflexivity).
  assert (E : blendColorsRgb "#000000" "#ffffff" "add" (1 / 2) (1 / 2) 1 =
              Rgb.mk 63 63 63).
  { rewrite blendColorsRgb_channels, hexToRgb_black, hexToRgb_white.
    cbn [Rgb.r Rgb.g Rgb.b]. rewrite blendChannel_add, constrain_quarter_white.
    assert (F : P5.floor 63.75 = 63%Z) by (apply floor_unique; lra).
    rewrite F. reflexivity. }
  unfold blendColors. rewrite E.
  split; [reflexivity |]. split; [reflexivity |]. split; [| exact D].
  rewrite hexToRgb_black, hexToRgb_white. cbn [Rgb.r].
  replace (0 + 255 * (1 / 2) * (1 / 2)) with (0 + 255 * (1 / 2 * (1 / 2) * 1)) by lra.
  rewrite constrain_quarter_white. lra.
Qed.

Lemma Double_blendChannel_add (c1 c2 localBlend : float) :
  Double.blendChannel "add" c1 c2 localBlend =
  Double.constrain (c1 + c2 * localBlend) 0 255.
Proof. reflexivity. Qed.

Lemma Double_blendColorsRgb_channels (c1 c2 mode : string) (v1 v2 amount : float) :
  Double.blendColorsRgb c1 c2 mode v1 v2 amount =
  (Double.floor (Double.blendChannel mode (Double.ofZ (Rgb.r (hexToRgb c1)))
                   (Double.ofZ (Rgb.r (hexToRgb c2))) (v1 * v2 * amount)),
   Double.floor (Double.blendChannel mode (Double.ofZ (Rgb.g (hexToRgb c1)))
                   (Double.ofZ (Rgb.g (hexToRgb c2))) (v1 * v2 * amount)),
   Double.floor (Double.blendChannel mode (Double.ofZ (Rgb.b (hexToRgb c1)))
                   (Double.ofZ (Rgb.b (hexToRgb c2))) (v1 * v2 * amount))).
Proof. reflexivity. Qed.

Lemma Double_clamp_byte (a b : Z) (v1 v2 : float) :
  (0 <= a <= 255)%Z -> (0 <= b <= 255)%Z ->
  (0 <=? v1)%float = true -> (v1 <=? 1)%float = true ->
  (0 <=? v2)%float = true -> (v2 <=? 1)%float = true ->
  exists z : Z,
    Double.floor (Double.constrain (Double.ofZ a + Double.ofZ b * (v1 * v2)) 0 255) =
    Double.Int z /\ (0 <= z <= 255)%Z.
Proof.
  intros Ha Hb L1 U1 L2 U2.
  pose proof (add_operand_not_nan a b v1 v2 Ha Hb L1 U1 L2 U2) as N.
  destruct (constrain_byte_range _ N) as [L U].
  exact (floor_byte_range _ L U).
Qed.

(** C6, amended: with mode 'add' and amount 1 each channel is, before the
    final [Math.floor], [clamp(c1 + c2 * (v1 * v2), 0, 255)] in double
    precision, the operations rounded one by one in the order of the
    source (the product [v1 * v2] first; the multiplication by the
    amount 1 is exact), and the channel that [blendColors] prints is the
    floor of that number: for pattern values of the unit interval an
    integer of [0 .. 255]. *)
Theorem blendColors_add_amount_one (color1Hex color2Hex : string) (v1 v2 : float) :
  let c1 := hexToRgb color1Hex in
  let c2 := hexToRgb color2Hex in
  let clamp (a b : Z) :=
    Double.constrain (Double.ofZ a + Double.ofZ b * (v1 * v2)) 0 255 in
  (forall a b : float, Double.blendChannel "add" a b (v1 * v2 * 1) =
                       Double.constrain (a + b * (v1 * v2)) 0 255) /\
  Double.blendColorsRgb color1Hex color2Hex "add" v1 v2 1 =
    (Double.floor (clamp (Rgb.r c1) (Rgb.r c2)),
     Double.floor (clamp (Rgb.g c1) (Rgb.g c2)),
     Double.floor (clamp (Rgb.b c1) (Rgb.b c2))) /\
  Double.blendColors color1Hex color2Hex "add" v1 v2 1 =
    Double.rgbString (Double.floor (clamp (Rgb.r c1) (Rgb.r c2)))
                     (Double.floor (clamp (Rgb.g c1) (Rgb.g c2)))
                     (Double.floor (clamp (Rgb.b c1) (Rgb.b c2))) /\
  ((0 <=? v1)%float = true -> (v1 <=? 1)%float = true ->
   (0 <=? v2)%float = true -> (v2 <=? 1)%float = true ->
   (forall a b : Z, (0 <= a <= 255)%Z -> (0 <= b <= 255)%Z ->
      exists z : Z, Double.floor (clamp a b) = Double.Int z /\ (0 <= z <= 255)%Z) /\
   exists r g b : Z,
     Double.blendColorsRgb color1Hex color2Hex "add" v1 v2 1 =
       (Double.Int r, Double.Int g, Double.Int b) /\
     (0 <= r <= 255)%Z /\ (0 <= g <= 255)%Z /\ (0 <= b <= 255)%Z /\
     Double.blendColors color1Hex color2Hex "add" v1 v2 1 =
       rgbString (Rgb.mk r g b)).
Proof.
  intros c1 c2 clamp.
  assert (A : forall a b : float, Double.blendChannel "add" a b (v1 * v2 * 1) =
                                  Double.constrain (a + b * (v1 * v2)) 0 255).
  { intros a b. rewrite Double_blendChannel_add, mul_one. reflexivity. }
  assert (B : Double.blendColorsRgb color1Hex color2Hex "add" v1 v2 1 =
    (Double.floor (clamp (Rgb.r c1) (Rgb.r c2)),
     Double.floor (clamp (Rgb.g c1) (Rgb.g c2)),
     Double.floor (clamp (Rgb.b c1) (Rgb.b c2)))).
  { rewrite Double_blendColorsRgb_channels, !A. reflexivity. }
  split; [exact A |]. split; [exact B |]. split.
  - unfold Double.blendColors. rewrite B. reflexivity.
  - intros L1 U1 L2 U2.
    split; [intros a b Ha Hb; exact (Double_clamp_byte a b v1 v2 Ha Hb L1 U1 L2 U2) |].
    destruct (hexToRgb_valid color1Hex) as (R1 & G1 & B1).
    destruct (hexToRgb_valid color2Hex) as (R2 & G2 & B2).
    destruct (Double_clamp_byte _ _ v1 v2 R1 R2 L1 U1 L2 U2) as (r & Er & Hr).
    destruct (Double_clamp_byte _ _ v1 v2 G1 G2 L1 U1 L2 U2) as (g & Eg & Hg).
    destruct (Double_clamp_byte _ _ v1 v2 B1 B2 L1 U1 L2 U2) as (b & Eb & Hb).
    fold c1 c2 in Er, Eg, Eb. fold (clamp (Rgb.r c1) (Rgb.r c2)) in Er.
    fold (clamp (Rgb.g c1) (Rgb.g c2)) in Eg.
    fold (clamp (Rgb.b c1) (Rgb.b c2)) in Eb.
    exists r, g, b. rewrite B, Er, Eg, Eb.
    repeat split; try lia.
    unfold Double.blendColors. rewrite B, Er, Eg, Eb. apply rgbString_bytes; lia.
Qed.

(** At black and [#646464] with pattern values 0.5 and [(4/20 + 1)/2]
    (a julia and a mandelbrot value) the exact product [100 * 0.5 * v2]
    is below 30, but [100 * (0.5 * v2)] rounds to 30, and 30 is
    printed. *)
Lemma blendColors_add_amount_one_witness :
  ((0 <=? 0.5)%float = true /\ (0.5 <=? 1)%float = true /\
   (0 <=? (4 / 20 + 1) / 2)%float = true /\ ((4 / 20 + 1) / 2 <=? 1)%float = true) /\
  (exists (m : positive) (e : Z),
      FloatOps.Prim2SF ((4 / 20 + 1) / 2) = SpecFloat.S754_finite false m e /\
      (100 * Zpos m < 2 * 30 * 2 ^ (- e))%Z) /\
  Double.blendColors "#000000" "#646464" "add" 0.5 ((4 / 20 + 1) / 2) 1 =
    "rgb(30, 30, 30)"%string.
Proof.
  split; [repeat split |].
  split; [eexists _, _; split; [vm_compute; reflexivity | reflexivity] |].
  destruct (blendColors_add_amount_one "#000000" "#646464" 0.5 ((4 / 20 + 1) / 2))
    as (_ & _ & _ & H).
  destruct (H eq_refl eq_refl eq_refl eq_refl) as (_ & r & g & b & E & _ & _ & _ & S).
  rewrite S.
  assert (C : Double.blendColorsRgb "#000000" "#646464" "add" 0.5 ((4 / 20 + 1) / 2) 1 =
              (Double.Int 30, Double.Int 30, Double.Int 30)) by (vm_compute; reflexivity).
  rewrite C in E. injection E as <- <- <-. reflexivity.
Defined.

(** ** Fallbacks *)

Lemma hexDigit_isHexDigit (c : ascii) :
  hexDigit c <> None -> isHexDigit c = true.
Proof.
  destruct c as [[] [] [] [] [] [] [] []]; vm_compute; congruence.
Qed.

Lemma parseHex2_isHexDigit (c d : ascii) :
  parseHex2 c d <> None -> isHexDigit c = true /\ isHexDigit d = true.
Proof.
  unfold parseHex2. intros H.
  split; apply hexDigit_isHexDigit; intros E; rewrite E in H;
    [ | destruct (hexDigit c) ]; congruence.
Qed.

Lemma hexToRgb_not_white_parses (hex : string) :
  hexToRgb hex <> white -> parsesAsHexColor hex.
Proof.
  unfold hexToRgb. intros H.
  set (body := match hex with String "#"%char rest => rest | _ => hex end) in *.
  assert (Hb : hex = body \/ hex = String "#"%char body).
  { subst body. destruct hex as [| c rest]; [left; reflexivity |].
    destruct c as [[] [] [] [] [] [] [] []]; auto. }
  destruct (list_ascii_of_string body)
    as [| r1 [| r2 [| g1 [| g2 [| b1 [| b2 [| ? ?]]]]]]] eqn:E;
    try congruence.
  exists [r1; r2; g1; g2; b1; b2].
  assert (Es : string_of_list_ascii [r1; r2; g1; g2; b1; b2] = body).
  { rewrite <- E. apply string_of_list_ascii_of_string. }
  rewrite Es. split; [exact Hb | split; [reflexivity |]].
  destruct (parseHex2 r1 r2) eqn:E1; [| congruence].
  destruct (parseHex2 g1 g2) eqn:E2; [| congruence].
  destruct (parseHex2 b1 b2) eqn:E3; [| congruence].
  cbn [forallb].
  destruct (parseHex2_isHexDigit r1 r2) as [-> ->]; [congruence |].
  destruct (parseHex2_isHexDigit g1 g2) as [-> ->]; [congruence |].
  destruct (parseHex2_isHexDigit b1 b2) as [-> ->]; [congruence |].
  reflexivity.
Qed.

Lemma Rgb_eq_dec (a b : Rgb.t) : {a = b} + {a <> b}.
Proof. decide equality; apply Z.eq_dec. Qed.

Lemma not_blendMode_eqb (mode : string) :
  ~ In mode blendModes ->
  String.eqb mode "add" = false /\ String.eqb mode "multiply" = false /\
  String.eqb mode "overlay" = false /\ String.eqb mode "difference" = false /\
  String.eqb mode "screen" = false.
Proof.
  intros H. repeat split; apply String.eqb_neq; intros ->; apply H;
    unfold blendModes; simpl; tauto.
Qed.

Lemma blendChannel_default (mode : string) (c1 c2 localBlend : R) :
  ~ In mode blendModes -> blendChannel mode c1 c2 localBlend = P5.lerp c1 c2 localBlend.
Proof.
  intros H. destruct (not_blendMode_eqb mode H) as (E1 & E2 & E3 & E4 & E5).
  unfold blendChannel. rewrite E1, E2, E3, E4, E5. reflexivity.
Qed.

(** C7, as stated, fails in its part on [blendColors]: with the
    unrecognised mode 'none', black and white, both pattern values 1/2
    and amount 1, the channel that [blendColors] prints is 63, while
    [lerp(c1, c2, v1*v2*amount)] is 63.75.  Every number of this run is a
    double, so it is the same in exact and in double-precision
    arithmetic. *)
Lemma blendColors_default_output_not_the_lerp :
  ~ In "none"%string blendModes /\
  blendColors "#000000" "#ffffff" "none" (1 / 2) (1 / 2) 1 = "rgb(63, 63, 63)"%string /\
  IZR (Rgb.r (blendColorsRgb "#000000" "#ffffff" "none" (1 / 2) (1 / 2) 1)) <>
  P5.lerp (IZR (Rgb.r (hexToRgb "#000000"))) (IZR (Rgb.r (hexToRgb "#ffffff")))
          (1 / 2 * (1 / 2) * 1) /\
  Double.blendColors "#000000" "#ffffff" "none" 0.5 0.5 1 = "rgb(63, 63, 63)"%string /\
  Double.lerp 0 255 (0.5 * 0.5 * 1) = 63.75%float.
Proof.
  assert (D : Double.blendColors "#000000" "#ffffff" "none" 0.5 0.5 1 =
              "rgb(63, 63, 63)"%string /\
              Double.lerp 0 255 (0.5 * 0.5 * 1) = 63.75%float)
    by (split; vm_compute; reflexivity).
  assert (N : ~ In "none"%string blendModes).
  { unfold blendModes. simpl. intros H. repeat destruct H as [H | H]; discriminate || exact H. }
  assert (L : P5.lerp 0 255 (1 / 2 * (1 / 2) * 1) = 63.75) by (unfold P5.lerp; lra).
  assert (E : blendColorsRgb "#000000" "#ffffff" "none" (1 / 2) (1 / 2) 1 =
              Rgb.mk 63 63 63).
  { rewrite blendColorsRgb_channels, hexToRgb_black, hexToRgb_white.
    cbn [Rgb.r Rgb.g Rgb.b]. rewrite (blendChannel_default _ _ _ _ N), L.
    assert (F : P5.floor 63.75 = 63%Z) by (apply floor_unique; lra).
    rewrite F. reflexivity. }
  split; [exact N |]. unfold blendColors. rewrite E. split; [reflexivity |].
  split; [| exact D].
  rewrite hexToRgb_black, hexToRgb_white. cbn [Rgb.r]. rewrite L. lra.
Qed.

Lemma Double_blendChannel_default (mode : string) (c1 c2 localBlend : float) :
  ~ In mode blendModes ->
  Double.blendChannel mode c1 c2 localBlend = Double.lerp c1 c2 localBlend.
Proof.
  intros H. destruct (not_blendMode_eqb mode H) as (E1 & E2 & E3 & E4 & E5).
  unfold Double.blendChannel. rewrite E1, E2, E3, E4, E5. reflexivity.
Qed.

(** C7, amended: the blend and colour functions are total with silent
    fallbacks.  For a mode that is none of add, multiply, overlay,
    difference and screen, [blendValues] returns [v1] unchanged and
    [blendColors] prints, for each channel, the floor of the linear
    interpolation [lerp(c1, c2, v1*v2*amount)], computed in double
    precision as the source and p5.js do ([amt * (stop - start) + start],
    every operation rounded); and for a string that does not read as a
    six-digit hexadecimal colour, [hexToRgb] returns white. *)
Theorem blend_and_color_fallbacks (mode : string) :
  ~ In mode blendModes ->
  (forall v1 v2 amount : R, blendValues v1 v2 mode amount = v1) /\
  (forall (c1 c2 : string) (v1 v2 amount : float),
      let lerpChannel (channel : Rgb.t -> Z) :=
        Double.lerp (Double.ofZ (channel (hexToRgb c1)))
                    (Double.ofZ (channel (hexToRgb c2))) (v1 * v2 * amount) in
      Double.blendColorsRgb c1 c2 mode v1 v2 amount =
        (Double.floor (lerpChannel Rgb.r), Double.floor (lerpChannel Rgb.g),
         Double.floor (lerpChannel Rgb.b)) /\
      Double.blendColors c1 c2 mode v1 v2 amount =
        Double.rgbString (Double.floor (lerpChannel Rgb.r))
                         (Double.floor (lerpChannel Rgb.g))
                         (Double.floor (lerpChannel Rgb.b))) /\
  (forall hex : string, ~ parsesAsHexColor hex -> hexToRgb hex = white).
Proof.
  intros H. destruct (not_blendMode_eqb mode H) as (E1 & E2 & E3 & E4 & E5).
  split; [| split].
  - intros v1 v2 amount. unfold blendValues. rewrite E1, E2, E3, E4, E5. reflexivity.
  - intros c1 c2 v1 v2 amount lerpChannel.
    assert (B : Double.blendColorsRgb c1 c2 mode v1 v2 amount =
                (Double.floor (lerpChannel Rgb.r), Double.floor (lerpChannel Rgb.g),
                 Double.floor (lerpChannel Rgb.b))).
    { rewrite Double_blendColorsRgb_channels, !(Double_blendChannel_default _ _ _ _ H).
      reflexivity. }
    split; [exact B |]. unfold Double.blendColors. rewrite B. reflexivity.
  - intros hex Hn. destruct (Rgb_eq_dec (hexToRgb hex) white) as [E | E]; [exact E |].
    exfalso. apply Hn. apply hexToRgb_not_white_parses. exact E.
Qed.

(** The mode 'normal' is not a blend mode of the source: the scalar blend
    returns its first value, the colour blend prints the floors of the
    interpolations as double precision rounds them (30 where the exact
    product is below 30, and 255 for white blended towards black by
    a factor of 2^-67), and 'red' reads as white. *)
Lemma blend_and_color_fallbacks_witness :
  ~ In "normal"%string blendModes /\
  blendValues 0.25 0.75 "normal" 1 = 0.25 /\
  Double.blendColors "#000000" "#646464" "normal" 0.5 ((4 / 20 + 1) / 2) 1 =
    "rgb(30, 30, 30)"%string /\
  Double.blendColors "#ffffff" "#000000" "normal" 0x1p-67 1 1 =
    "rgb(255, 255, 255)"%string /\
  hexToRgb "red" = white.
Proof.
  assert (N : ~ In "normal"%string blendModes).
  { unfold blendModes. simpl. intros H. repeat destruct H as [H | H]; discriminate || exact H. }
  destruct (blend_and_color_fallbacks "normal" N) as (A & B & C).
  split; [exact N |]. split; [apply A |].
  split; [| split].
  - destruct (B "#000000"%string "#646464"%string 0.5 ((4 / 20 + 1) / 2) 1)%float as [_ S].
    rewrite S. vm_compute. reflexivity.
  - destruct (B "#ffffff"%string "#000000"%string 0x1p-67 1 1)%float as [_ S].
    rewrite S. vm_compute. reflexivity.
  - apply C. intros (digits & [E | E] & L & _).
    + destruct digits as [| ? [| ? [| ? [| ? [| ? [| ? [| ? ?]]]]]]]; discriminate.
    + discriminate.
Defined.

End ColourBlend.

(** ** Glyph selection *)

Lemma map_unit_range (v stop2 : R) : P5.map v 0 1 0 stop2 = v * stop2.
Proof. unfold P5.map. field. Qed.

Lemma constrainZ_bounds (n low high : Z) :
  (low <= high)%Z -> (low <= P5.constrainZ n low high <= high)%Z.
Proof. unfold P5.constrainZ. lia. Qed.

Lemma rampAt_in_range {A : Type} (ramp : list A) (i : Z) :
  (0 <= i < Z.of_nat (List.length ramp))%Z -> exists c, rampAt ramp i = Some c.
Proof.
  intros H. unfold rampAt.
  destruct (Z.ltb_spec i 0); [lia |].
  destruct (nth_error ramp (Z.to_nat i)) as [c |] eqn:E; [exists c; reflexivity |].
  apply nth_error_None in E. lia.
Qed.

(** C5: glyph mapping is total and in bounds.  For a ramp that is not
    empty and every real value, the index is
    [floor(value * (length - 1))] clamped to [0 .. length - 1], so it
    selects a character of the ramp; value 0 selects the first character,
    value 1 the last one, and a ramp of length 1 always yields its single
    character. *)
Theorem charIndex_total_in_bounds {A : Type} (ramp : list A) :
  ramp <> [] ->
  let last := (Z.of_nat (List.length ramp) - 1)%Z in
  (forall value : R,
      charIndex value ramp = P5.constrainZ (P5.floor (value * IZR last)) 0 last /\
      (0 <= charIndex value ramp <= last)%Z /\
      exists c, glyph value ramp = Some c) /\
  charIndex 0 ramp = 0%Z /\
  glyph 0 ramp = nth_error ramp 0 /\
  charIndex 1 ramp = last /\
  glyph 1 ramp = nth_error ramp (List.length ramp - 1) /\
  (forall (c : A) (value : R), ramp = [c] -> glyph value ramp = Some c).
Proof.
  intros Hne last.
  assert (Hlen : (0 < List.length ramp)%nat).
  { destruct ramp; [congruence | simpl; lia]. }
  assert (Hlast : (0 <= last)%Z) by (unfold last; lia).
  assert (Hidx : forall value,
             charIndex value ramp = P5.constrainZ (P5.floor (value * IZR last)) 0 last).
  { intros value. unfold charIndex. fold last. rewrite map_unit_range. reflexivity. }
  assert (Hzero : charIndex 0 ramp = 0%Z).
  { rewrite Hidx. replace (0 * IZR last) with (IZR 0) by lra.
    rewrite floor_IZR. unfold P5.constrainZ. lia. }
  assert (Hone : charIndex 1 ramp = last).
  { rewrite Hidx. rewrite Rmult_1_l, floor_IZR. unfold P5.constrainZ. lia. }
  repeat split.
  - apply Hidx.
  - rewrite Hidx. apply constrainZ_bounds. exact Hlast.
  - rewrite Hidx. pose proof (constrainZ_bounds (P5.floor (value * IZR last)) 0 last Hlast).
    unfold last in *. lia.
  - unfold glyph. apply rampAt_in_range. rewrite Hidx.
    pose proof (constrainZ_bounds (P5.floor (value * IZR last)) 0 last Hlast).
    unfold last in *. lia.
  - exact Hzero.
  - unfold glyph. rewrite Hzero. reflexivity.
  - exact Hone.
  - unfold glyph. rewrite Hone. unfold rampAt.
    destruct (Z.ltb_spec last 0); [lia |]. f_equal. unfold last. lia.
  - intros c value ->. unfold glyph.
    pose proof (constrainZ_bounds (P5.floor (value * 0)) 0 0 (Z.le_refl 0)) as B.
    rewrite Hidx. unfold last. simpl List.length. simpl (Z.of_nat 1 - 1)%Z.
    replace (P5.constrainZ (P5.floor (value * 0)) 0 0) with 0%Z by lia.
    reflexivity.
Qed.

Lemma charIndex_total_in_bounds_witness :
  ["."; ":"; "#"]%char <> [] /\
  charIndex 0 ["."; ":"; "#"]%char = 0%Z /\
  glyph 1 ["."; ":"; "#"]%char = Some "#"%char.
Proof.
  assert (N : ["."; ":"; "#"]%char <> []) by discriminate.
  destruct (charIndex_total_in_bounds ["."; ":"; "#"]%char N)
    as (_ & Z0 & _ & _ & G1 & _).
  split; [exact N |]. split; [exact Z0 | exact G1].
Defined.

(** ** Click effects *)

Lemma updateInteractiveEffects_app (l1 l2 : list Click.t) :
  updateInteractiveEffects (l1 ++ l2) =
  updateInteractiveEffects l1 ++ updateInteractiveEffects l2.
Proof.
  unfold updateInteractiveEffects. rewrite List.map_app, filter_app. reflexivity.
Qed.

Lemma iter_update_app (n : nat) (l1 l2 : list Click.t) :
  Nat.iter n updateInteractiveEffects (l1 ++ l2) =
  Nat.iter n updateInteractiveEffects l1 ++ Nat.iter n updateInteractiveEffects l2.
Proof.
  induction n as [| n IH]; [reflexivity |].
  simpl. rewrite IH. apply updateInteractiveEffects_app.
Qed.

Lemma iter_update_nil (n : nat) : Nat.iter n updateInteractiveEffects [] = [].
Proof. induction n as [| n IH]; [reflexivity | simpl; rewrite IH; reflexivity]. Qed.

Lemma update_single (e : Click.t) :
  updateInteractiveEffects [e] =
  if Rgtb (Click.life e - 0.016) 0 then [decay e] else [].
Proof. reflexivity. Qed.

(** An effect is gone once the decrements add up to its life. *)
Lemma iter_update_expired (n : nat) :
  forall e : Click.t,
    (0 < n)%nat -> Click.life e <= INR n * 0.016 ->
    Nat.iter n updateInteractiveEffects [e] = [].
Proof.
  induction n as [| n IH]; intros e Hn Hl; [lia |].
  rewrite Nat.iter_succ_r, update_single. unfold Rgtb.
  destruct (Rlt_dec 0 (Click.life e - 0.016)) as [Hpos | Hneg].
  - rewrite (Rltb_true _ _ Hpos). rewrite S_INR in Hl.
    assert (Hn' : (0 < n)%nat).
    { destruct n; [simpl in Hl; lra | lia]. }
    apply IH; [exact Hn' | simpl; lra].
  - rewrite Rltb_false by lra. apply iter_update_nil.
Qed.

(** A fresh effect is still active during its first 187 updates. *)
Lemma iter_update_fresh (x y s r : R) (n : nat) :
  (n <= 187)%nat ->
  Nat.iter n updateInteractiveEffects [Click.mk x y 3.0 3.0 s r] =
  [Click.mk x y (3.0 - INR n * 0.016) 3.0 s r].
Proof.
  induction n as [| n IH]; intros Hn.
  - simpl. do 2 f_equal. lra.
  - simpl Nat.iter. rewrite IH by lia. rewrite update_single.
    apply le_INR in Hn. rewrite S_INR in Hn.
    assert (E : INR 187 = 187) by (rewrite INR_IZR_INZ; reflexivity).
    rewrite E in Hn. clear E.
    cbn [Click.life]. unfold Rgtb. rewrite Rltb_true.
    + unfold decay. cbn [Click.life Click.x Click.y Click.maxLife Click.strength Click.radius].
      do 2 f_equal. rewrite S_INR. lra.
    + lra.
Qed.

Lemma mousePressed_cases (interactive : Interactive.t)
    (cols rows gridScale width height mouseX mouseY : R) (l : list Click.t) :
  mousePressed interactive cols rows gridScale width height mouseX mouseY l = l \/
  exists x y : R,
    mousePressed interactive cols rows gridScale width height mouseX mouseY l =
    l ++ [Click.mk x y 3.0 3.0 (Interactive.strength interactive)
                   (Interactive.radius interactive)].
Proof.
  unfold mousePressed.
  destruct (Interactive.enabled interactive && Interactive.clickEnabled interactive);
    [| left; reflexivity].
  match goal with |- context [if ?c then _ else _] => destruct c end;
    [right; eexists; eexists; reflexivity | left; reflexivity].
Qed.

(** C8: the click effect life cycle.  One update decrements the life of
    every active effect by 0.016 and keeps exactly the effects whose life
    is then positive, so no effect with life <= 0 is ever active after an
    update; an effect created by [mousePressed] with life = maxLife = 3.0
    is still active, with life [3.0 - n*0.016], after each of the first
    187 updates, and is removed once the number of updates reaches
    3.0/0.016 (= 187.5): from then on the active set is the one it would
    have been without the click. *)
Theorem click_effect_lifecycle :
  (forall (l : list Click.t) (e' : Click.t),
      In e' (updateInteractiveEffects l) <->
      exists e, In e l /\ e' = decay e /\ 0 < Click.life e - 0.016) /\
  (forall e : Click.t, Click.life (decay e) = Click.life e - 0.016) /\
  (forall (l : list Click.t) (e' : Click.t),
      In e' (updateInteractiveEffects l) -> 0 < Click.life e') /\
  (forall (interactive : Interactive.t)
          (cols rows gridScale width height mouseX mouseY : R)
          (l : list Click.t) (n : nat),
      3.0 / 0.016 <= INR n ->
      Nat.iter n updateInteractiveEffects
        (mousePressed interactive cols rows gridScale width height mouseX mouseY l) =
      Nat.iter n updateInteractiveEffects l) /\
  (forall (x y s r : R) (n : nat),
      (n <= 187)%nat ->
      Nat.iter n updateInteractiveEffects [Click.mk x y 3.0 3.0 s r] =
      [Click.mk x y (3.0 - INR n * 0.016) 3.0 s r]).
Proof.
  assert (M : forall l e', In e' (updateInteractiveEffects l) <->
                exists e, In e l /\ e' = decay e /\ 0 < Click.life e - 0.016).
  { intros l e'. unfold updateInteractiveEffects. rewrite filter_In, in_map_iff.
    unfold Rgtb. rewrite Rltb_spec. split.
    - intros [(e & <- & Hin) Hpos]. exists e. auto.
    - intros (e & Hin & -> & Hpos). split; [exists e; auto | exact Hpos]. }
  split; [exact M |]. split; [reflexivity |]. split; [| split].
  - intros l e' Hin. apply M in Hin. destruct Hin as (e & _ & -> & Hpos). exact Hpos.
  - intros interactive cols rows gridScale width height mouseX mouseY l n Hn.
    destruct (mousePressed_cases interactive cols rows gridScale width height
                mouseX mouseY l) as [-> | (x & y & ->)]; [reflexivity |].
    rewrite iter_update_app, iter_update_expired, app_nil_r; [reflexivity | |].
    + destruct n; [simpl in Hn; lra | lia].
    + cbn [Click.life]. lra.
  - intros x y s r n Hn. apply iter_update_fresh. exact Hn.
Qed.

Lemma click_effect_lifecycle_witness :
  3.0 / 0.016 <= INR 188 /\
  Nat.iter 188 updateInteractiveEffects
    (mousePressed (Interactive.mk true "ripple" 1.0 0.2 true)
                  80 50 1 640 700 320 350 []) = [] /\
  Nat.iter 187 updateInteractiveEffects [Click.mk 0.5 0.5 3.0 3.0 1.0 0.2] =
  [Click.mk 0.5 0.5 (3.0 - INR 187 * 0.016) 3.0 1.0 0.2].
Proof.
  assert (H : 3.0 / 0.016 <= INR 188).
  { replace (INR 188) with 188 by (rewrite INR_IZR_INZ; reflexivity). lra. }
  destruct click_effect_lifecycle as (_ & _ & _ & A & B).
  split; [exact H |]. split.
  - rewrite (A _ _ _ _ _ _ _ _ [] 188%nat H). apply iter_update_nil.
  - apply B. lia.
Defined.

(** ** Escape-time kinds *)

Lemma mandelbrotLoop_le (fuel : nat) :
  forall (i maxIter : nat) (zx zy cx cy : R),
    (i + fuel = maxIter)%nat ->
    (mandelbrotLoop fuel i maxIter zx zy cx cy <= maxIter)%nat.
Proof.
  induction fuel as [| fuel IH]; intros i maxIter zx zy cx cy H; simpl.
  - lia.
  - destruct (Rgtb (zx * zx + zy * zy) 4); [lia | apply IH; lia].
Qed.

Lemma count_ratio_unit (k m : nat) :
  (0 < m)%nat -> (k <= m)%nat -> 0 <= INR k / INR m <= 1.
Proof.
  intros Hm Hk. apply lt_0_INR in Hm. apply le_INR in Hk.
  pose proof (pos_INR k) as Hk0.
  assert (Hinv : 0 < / INR m) by (apply Rinv_0_lt_compat; exact Hm).
  assert (Hone : INR m * / INR m = 1) by (apply Rinv_r; lra).
  unfold Rdiv. split; nra.
Qed.

Lemma mandelbrotValue_unit (nx ny : R) (p : Pattern) (t : R) (maxIter : nat) :
  (0 < maxIter)%nat -> 0 <= mandelbrotValue nx ny p t maxIter <= 1.
Proof.
  intros H. unfold mandelbrotValue, mandelbrotIteration.
  apply count_ratio_unit; [exact H | apply mandelbrotLoop_le; lia].
Qed.

Lemma juliaValue_unit (nx ny : R) (p : Pattern) (t : R) (maxIter : nat) :
  (0 < maxIter)%nat -> 0 <= juliaValue nx ny p t maxIter <= 1.
Proof.
  intros H. unfold juliaValue, juliaIteration.
  apply count_ratio_unit; [exact H | apply mandelbrotLoop_le; lia].
Qed.

(** C10: for the mandelbrot and julia kinds the iteration count lies in
    [0, maxIter], the raw scalar count/maxIter lies in [0,1], and the
    value returned by [getPatternValue] lies in [0.5, 1], never in the
    lower half of the normalized range (in js/scripts.js and in the
    documented variant alike), the state being left as it was. *)
Theorem escape_time_upper_half :
  (forall (cx cy : R) (maxIter : nat),
      (0 <= mandelbrotIteration cx cy maxIter <= maxIter)%nat) /\
  (forall (zx zy : R) (c : R * R) (maxIter : nat),
      (0 <= juliaIteration zx zy c maxIter <= maxIter)%nat) /\
  (forall (nx ny : R) (p : Pattern) (t : R),
      0 <= mandelbrotValue nx ny p t 20 <= 1 /\ 0 <= juliaValue nx ny p t 20 <= 1) /\
  (forall (st : State) (x y : R) (p : Pattern) (t : R),
      type p = "mandelbrot"%string \/ type p = "julia"%string ->
      exists v, getPatternValue st x y p t = (Some v, st) /\ 0.5 <= v <= 1) /\
  (forall (targetFPS : R) (st : State) (x y : R) (p : Pattern) (t : R),
      type p = "mandelbrot"%string \/ type p = "julia"%string ->
      exists v, Variant.getPatternValue targetFPS st x y p t = (Some v, st) /\
                0.5 <= v <= 1).
Proof.
  split; [| split; [| split; [| split]]].
  - intros cx cy maxIter. split; [lia |]. apply mandelbrotLoop_le. lia.
  - intros zx zy c maxIter. split; [lia |]. apply mandelbrotLoop_le. lia.
  - intros nx ny p t. split; [apply mandelbrotValue_unit | apply juliaValue_unit]; lia.
  - intros st x y p t [E | E]; unfold getPatternValue; rewrite E;
      cbn [String.eqb Ascii.eqb Bool.eqb option_map]; eexists; (split; [reflexivity |]).
    + pose proof (mandelbrotValue_unit (x / gridCols st) (y / gridRows st) p t 20
                    ltac:(lia)). lra.
    + pose proof (juliaValue_unit (x / gridCols st) (y / gridRows st) p t 20
                    ltac:(lia)). lra.
  - intros targetFPS st x y p t [E | E]; unfold Variant.getPatternValue; rewrite E;
      cbn [String.eqb Ascii.eqb Bool.eqb option_map]; eexists; (split; [reflexivity |]).
    + pose proof (mandelbrotValue_unit (x / gridCols st) (y / gridRows st) p t
                    (if Rleb targetFPS 30 then 10%nat else 15%nat)) as H.
      destruct (Rleb targetFPS 30); (assert (Hv := H ltac:(lia)); lra).
    + pose proof (juliaValue_unit (x / gridCols st) (y / gridRows st) p t
                    (if Rleb targetFPS 30 then 10%nat else 15%nat)) as H.
      destruct (Rleb targetFPS 30); (assert (Hv := H ltac:(lia)); lra).
Qed.

Lemma escape_time_upper_half_witness :
  exists v,
    getPatternValue demoState 3 4 (Build_Pattern "julia" 0.01 0.05 None) 1.6 =
    (Some v, demoState) /\ 0.5 <= v <= 1.
Proof.
  destruct escape_time_upper_half as (_ & _ & _ & A & _).
  apply A. right. reflexivity.
Defined.

(** ** Voronoi swarm *)

Lemma movePoint_inUnitSquare (p : Point.t) : inUnitSquare (movePoint p).
Proof.
  unfold inUnitSquare, movePoint. cbn [Point.x Point.y].
  split; apply constrain_bounds; lra.
Qed.

Lemma getVoronoiValue_points (points : list Point.t) (x y timeOffset : R) :
  snd (getVoronoiValue points x y timeOffset) = List.map movePoint points.
Proof.
  unfold getVoronoiValue.
  destruct (nearestTwo x y (List.map movePoint points)) as [[m |] [s |]]; reflexivity.
Qed.

Lemma swarmAfter_cons (x y t : R) (queries : list (R * R * R))
    (points : list Point.t) :
  swarmAfter ((x, y, t) :: queries) points =
  swarmAfter queries (List.map movePoint points).
Proof.
  unfold swarmAfter. cbn [fold_left]. rewrite getVoronoiValue_points. reflexivity.
Qed.

(** C4: when the points of the swarm start in the unit square, they are
    in the unit square after any number of calls of [getVoronoiValue],
    whatever the queries; every call replaces each point by its advance
    (position plus velocity, clamped to [0,1]) and keeps their number. *)
Theorem voronoi_points_stay_in_unit_square (points : list Point.t) :
  Forall inUnitSquare points ->
  forall queries : list (R * R * R),
    Forall inUnitSquare (swarmAfter queries points) /\
    List.length (swarmAfter queries points) = List.length points.
Proof.
  intros H queries. revert points H.
  induction queries as [| [[x y] t] queries IH]; intros points H.
  - split; [exact H | reflexivity].
  - rewrite swarmAfter_cons.
    destruct (IH (List.map movePoint points)) as [A B].
    + apply Forall_forall. intros p Hp. apply in_map_iff in Hp.
      destruct Hp as (q & <- & _). apply movePoint_inUnitSquare.
    + split; [exact A |]. rewrite B. apply length_map.
Qed.

Lemma voronoi_points_stay_in_unit_square_witness :
  Forall inUnitSquare demoSwarm /\
  Forall inUnitSquare (swarmAfter [(0, 0, 0); (0.5, 0.5, 0.016)] demoSwarm).
Proof.
  assert (H : Forall inUnitSquare demoSwarm).
  { unfold demoSwarm. apply Forall_cons.
    - unfold inUnitSquare. cbn [Point.x Point.y]. lra.
    - apply Forall_forall. intros p Hp. apply repeat_spec in Hp. subst p.
      unfold inUnitSquare. cbn [Point.x Point.y]. lra. }
  split; [exact H |].
  apply (voronoi_points_stay_in_unit_square demoSwarm H
           [(0, 0, 0); (0.5, 0.5, 0.016)]).
Defined.

(** ** Evaluation of the stateful kinds on concrete states *)

Lemma constrain_inside (n low high : R) :
  low <= n <= high -> P5.constrain n low high = n.
Proof.
  intros H. unfold P5.constrain, Rmax, Rmin.
  destruct (Rle_dec n high); destruct (Rle_dec _ low); lra.
Qed.

Lemma movePoint_origin : movePoint (Point.mk 0 0 0 0) = Point.mk 0 0 0 0.
Proof.
  unfold movePoint. cbn [Point.x Point.y Point.vx Point.vy].
  rewrite constrain_inside by lra.
  f_equal; try lra; destruct (Rleb (0 + 0) 0 || Rgeb (0 + 0) 1); lra.
Qed.

Lemma movePoint_on_edge (a v : R) :
  0 < a + v < 1 -> movePoint (Point.mk a 0 v 0) = Point.mk (a + v) 0 v 0.
Proof.
  intros H. unfold movePoint. cbn [Point.x Point.y Point.vx Point.vy].
  rewrite !constrain_inside by lra. unfold Rgeb.
  rewrite (Rleb_false (a + v) 0), (Rleb_false 1 (a + v)) by lra.
  cbn [orb]. f_equal; try lra.
  destruct (Rleb (0 + 0) 0 || Rleb 1 (0 + 0)); lra.
Qed.

Lemma dist_origin_edge (a : R) : 0 <= a -> P5.dist 0 0 a 0 = a.
Proof.
  intros H. unfold P5.dist.
  replace ((a - 0) * (a - 0) + (0 - 0) * (0 - 0)) with (a * a) by lra.
  apply sqrt_square. exact H.
Qed.

Lemma nearestTwo_rest (a v : R) (n : nat) :
  0 < a ->
  fold_left (fun acc point =>
    let '(minDist, secondMinDist) := acc in
    let d := P5.dist 0 0 (Point.x point) (Point.y point) in
    if distLt d minDist then (Finite d, minDist)
    else if distLt d secondMinDist then (minDist, Finite d)
    else (minDist, secondMinDist))
    (repeat (Point.mk a 0 v 0) n) (Finite 0, Finite a) = (Finite 0, Finite a).
Proof.
  intros H. induction n as [| n IH]; [reflexivity |].
  cbn [repeat fold_left Point.x Point.y]. rewrite dist_origin_edge by lra.
  cbn [distLt]. rewrite !Rltb_false by lra. exact IH.
Qed.

Lemma nearestTwo_origin_edge (a v : R) (n : nat) :
  0 < a ->
  nearestTwo 0 0 (Point.mk 0 0 0 0 :: repeat (Point.mk a 0 v 0) (S n)) =
  (Finite 0, Finite a).
Proof.
  intros H. unfold nearestTwo. cbn [repeat fold_left Point.x Point.y].
  rewrite !dist_origin_edge by lra. cbn [distLt].
  rewrite (Rltb_false a 0) by lra. apply nearestTwo_rest. exact H.
Qed.

Lemma getVoronoiValue_origin_edge (a v t : R) (n : nat) :
  0 < a + v < 1 ->
  getVoronoiValue (Point.mk 0 0 0 0 :: repeat (Point.mk a 0 v 0) (S n)) 0 0 t =
  (Some (((a + v - 0) * 10 + sin (t * 100)) * 2 - 1),
   Point.mk 0 0 0 0 :: repeat (Point.mk (a + v) 0 v 0) (S n)).
Proof.
  intros H. unfold getVoronoiValue.
  cbn [List.map]. rewrite map_repeat, movePoint_origin, movePoint_on_edge by exact H.
  rewrite nearestTwo_origin_edge by lra. reflexivity.
Qed.

Lemma getPatternValue_voronoi (st : State) (x y : R) (p : Pattern) (t : R) :
  type p = "voronoi"%string ->
  getPatternValue st x y p t =
  (option_map (fun value => (value + 1) / 2)
     (fst (getVoronoiValue (voronoiPoints st) (x / gridCols st) (y / gridRows st)
             (t * speed p))),
   setVoronoiPoints st
     (snd (getVoronoiValue (voronoiPoints st) (x / gridCols st) (y / gridRows st)
             (t * speed p)))).
Proof.
  intros E. unfold getPatternValue. rewrite E.
  cbn [String.eqb Ascii.eqb Bool.eqb].
  destruct (getVoronoiValue _ _ _ _) as [v points]. reflexivity.
Qed.

(** Two successive evaluations of the voronoi kind at the same cell and
    time on [voronoiState]: 5.1, then 5.2. *)
Lemma voronoi_two_calls :
  let p := Build_Pattern "voronoi" 0.01 0.05 None in
  let st1 := setVoronoiPoints voronoiState
               (Point.mk 0 0 0 0 :: repeat (Point.mk (0.5 + 0.01) 0 0.01 0) 7) in
  let st2 := setVoronoiPoints st1
               (Point.mk 0 0 0 0 :: repeat (Point.mk (0.5 + 0.01 + 0.01) 0 0.01 0) 7) in
  (exists v1, getPatternValue voronoiState 0 0 p 0 = (Some v1, st1) /\ v1 = 5.1) /\
  (exists v2, getPatternValue st1 0 0 p 0 = (Some v2, st2) /\ v2 = 5.2).
Proof.
  intros p st1 st2.
  assert (S0 : sin (0 * 0.01 * 100) = 0).
  { replace (0 * 0.01 * 100) with 0 by lra. apply sin_0. }
  split.
  - rewrite getPatternValue_voronoi by reflexivity.
    subst p. cbn [voronoiState voronoiPoints gridCols gridRows speed].
    unfold demoSwarm.
    replace (0 / 80) with 0 by lra. replace (0 / 50) with 0 by lra.
    rewrite getVoronoiValue_origin_edge by lra.
    cbn [fst snd option_map]. eexists. split; [reflexivity |]. rewrite S0. lra.
  - rewrite getPatternValue_voronoi by reflexivity.
    subst st2 st1 p.
    cbn [setVoronoiPoints voronoiState voronoiPoints gridCols gridRows speed].
    replace (0 / 80) with 0 by lra. replace (0 / 50) with 0 by lra.
    rewrite getVoronoiValue_origin_edge by lra.
    cbn [fst snd option_map]. eexists. split; [reflexivity |]. rewrite S0. lra.
Qed.

Lemma updateCellular_blinkerFlat : updateCellular blinkerFlat = Some blinkerUpright.
Proof. vm_compute. reflexivity. Qed.

Lemma updateCellular_blinkerUpright : updateCellular blinkerUpright = Some blinkerFlat.
Proof. vm_compute. reflexivity. Qed.

Lemma getPatternValue_cellular (st : State) (x y : R) (p : Pattern) (t : R)
    (grid : Grid) :
  type p = "cellular"%string ->
  (if (Z.rem (P5.floor (t * speed p * 100)) 30 =? 0)%Z
   then updateCellular (cellularGrid st) else Some (cellularGrid st)) = Some grid ->
  getPatternValue st x y p t =
  (Some (((if cellTruthy grid (P5.floor (y / gridRows st * 30))
                              (P5.floor (x / gridCols st * 40))
           then 1 else -1) + 1) / 2),
   setCellularGrid st grid).
Proof.
  intros E U. unfold getPatternValue. rewrite E.
  cbn [String.eqb Ascii.eqb Bool.eqb]. rewrite U. reflexivity.
Qed.

(** Two successive evaluations of the cellular kind at the same cell and
    time on [cellularState]: 1, then 0. *)
Lemma cellular_two_calls :
  let p := Build_Pattern "cellular" 0.01 0.05 None in
  let st1 := setCellularGrid cellularState blinkerUpright in
  let st2 := setCellularGrid st1 blinkerFlat in
  (exists v1, getPatternValue cellularState 1 0 p 0 = (Some v1, st1) /\ v1 = 1) /\
  (exists v2, getPatternValue st1 1 0 p 0 = (Some v2, st2) /\ v2 = 0).
Proof.
  intros p st1 st2.
  assert (F0 : P5.floor (0 * 0.01 * 100) = 0%Z) by (apply floor_unique; lra).
  assert (FY : P5.floor (0 / 30 * 30) = 0%Z) by (apply floor_unique; lra).
  assert (FX : P5.floor (1 / 40 * 40) = 1%Z) by (apply floor_unique; lra).
  split.
  - rewrite (getPatternValue_cellular _ _ _ _ _ blinkerUpright);
      [| reflexivity
       | subst p; cbn [speed cellularState cellularGrid]; rewrite F0;
         exact updateCellular_blinkerFlat].
    cbn [cellularState gridCols gridRows]. rewrite FX, FY.
    replace (cellTruthy blinkerUpright 0 1) with true by reflexivity.
    eexists. split; [reflexivity | lra].
  - rewrite (getPatternValue_cellular _ _ _ _ _ blinkerFlat);
      [| reflexivity
       | subst p st1; cbn [speed setCellularGrid cellularGrid]; rewrite F0;
         exact updateCellular_blinkerUpright].
    subst st1. cbn [setCellularGrid cellularState gridCols gridRows]. rewrite FX, FY.
    replace (cellTruthy blinkerFlat 0 1) with false by reflexivity.
    eexists. split; [reflexivity | lra].
Qed.

(** ** Determinism of the stateless kinds *)

Lemma stateless_kind_cases (kind : string) :
  In kind statelessKinds ->
  kind = "waves"%string \/ kind = "ripples"%string \/ kind = "noise"%string \/
  kind = "spiral"%string \/ kind = "checkerboard"%string \/
  kind = "stripes"%string \/ kind = "plasma"%string \/
  kind = "mandelbrot"%string \/ kind = "julia"%string \/
  kind = "tunnel"%string \/ kind = "mosaic"%string.
Proof.
  unfold statelessKinds. simpl. intuition auto.
Qed.

Lemma getPatternValue_stateless (st : State) (x y : R) (p : Pattern) (t : R) :
  In (type p) statelessKinds ->
  exists v, getPatternValue st x y p t = (Some v, st).
Proof.
  intros H. apply stateless_kind_cases in H.
  unfold getPatternValue.
  repeat (destruct H as [H | H]);
    rewrite H; cbn [String.eqb Ascii.eqb Bool.eqb option_map];
    eexists; reflexivity.
Qed.

(** C9: for every stateless kind (waves, ripples, noise, spiral,
    checkerboard, stripes, plasma, mandelbrot, julia, tunnel, mosaic) a
    call of [getPatternValue] returns a number and leaves the state as it
    found it, so a second call with the same arguments returns the same
    number; the number does not depend on the cellular grid nor on the
    Voronoi points.  The cellular and voronoi kinds are not covered: each
    has a state on which a call changes the state and two successive
    calls with the same arguments return different numbers. *)
Theorem stateless_kinds_deterministic :
  (forall (st : State) (x y : R) (p : Pattern) (t : R),
      In (type p) statelessKinds ->
      exists v,
        getPatternValue st x y p t = (Some v, st) /\
        getPatternValue (snd (getPatternValue st x y p t)) x y p t = (Some v, st) /\
        forall (grid : Grid) (points : list Point.t),
          fst (getPatternValue (setVoronoiPoints (setCellularGrid st grid) points)
                 x y p t) = Some v) /\
  (forall kind : string,
      kind = "voronoi"%string \/ kind = "cellular"%string ->
      ~ In kind statelessKinds /\
      exists (st : State) (x y : R) (p : Pattern) (t : R),
        type p = kind /\
        snd (getPatternValue st x y p t) <> st /\
        fst (getPatternValue (snd (getPatternValue st x y p t)) x y p t) <>
        fst (getPatternValue st x y p t)).
Proof.
  split.
  - intros st x y p t H.
    destruct (getPatternValue_stateless st x y p t H) as [v E].
    exists v. rewrite E. cbn [snd]. repeat split; try exact E.
    intros grid points.
    destruct (getPatternValue_stateless
                (setVoronoiPoints (setCellularGrid st grid) points) x y p t H)
      as [v' E'].
    rewrite E'. cbn [fst]. f_equal.
    apply stateless_kind_cases in H. revert E E'. unfold getPatternValue.
    cbn [setVoronoiPoints setCellularGrid gridCols gridRows noise].
    repeat (destruct H as [H | H]);
      rewrite H; cbn [String.eqb Ascii.eqb Bool.eqb option_map]; congruence.
  - intros kind [-> | ->].
    + split.
      { unfold statelessKinds. simpl. intros H.
        repeat destruct H as [H | H]; discriminate || exact H. }
      destruct voronoi_two_calls as [(v1 & E1 & V1) (v2 & E2 & V2)].
      exists voronoiState, 0, 0, (Build_Pattern "voronoi" 0.01 0.05 None), 0.
      split; [reflexivity |]. rewrite E1. cbn [snd fst]. rewrite E2. cbn [fst].
      split.
      * intros E. apply (f_equal voronoiPoints) in E.
        cbn [setVoronoiPoints voronoiState voronoiPoints demoSwarm repeat] in E.
        injection E. intros. lra.
      * intros E. injection E. lra.
    + split.
      { unfold statelessKinds. simpl. intros H.
        repeat destruct H as [H | H]; discriminate || exact H. }
      destruct cellular_two_calls as [(v1 & E1 & V1) (v2 & E2 & V2)].
      exists cellularState, 1, 0, (Build_Pattern "cellular" 0.01 0.05 None), 0.
      split; [reflexivity |]. rewrite E1. cbn [snd fst]. rewrite E2. cbn [fst].
      split.
      * intros E. apply (f_equal cellularGrid) in E.
        cbn [setCellularGrid cellularState cellularGrid] in E.
        discriminate E.
      * intros E. injection E. lra.
Qed.

Lemma stateless_kinds_deterministic_witness :
  In "waves"%string statelessKinds /\
  exists v,
    getPatternValue demoState 3 4 (Build_Pattern "waves" 0.01 0.05 None) 1.6 =
    (Some v, demoState).
Proof.
  assert (H : In "waves"%string statelessKinds) by (simpl; auto).
  split; [exact H |].
  destruct stateless_kinds_deterministic as [A _].
  destruct (A demoState 3 4 (Build_Pattern "waves" 0.01 0.05 None) 1.6 H)
    as (v & E & _).
  exists v. exact E.
Defined.

(** ** Range of the value returned by [getPatternValue] *)

Lemma sin_negative_4992 : sin (4.992 * 0.01 * 100) < 0.
Proof.
  pose proof PI_4. pose proof PI2_3_2.
  apply sin_lt_0; lra.
Qed.

(** The ridged variant of the noise kind: the raw value is
    [-2 * |2*noise - 1|], so the returned number never exceeds 0.5 and is
    negative as soon as the noise sample is below 0.25. *)
Lemma ridged_noise_range (targetFPS : R) (st : State) (x y : R) (p : Pattern) (t : R) :
  type p = "noise"%string -> noiseVariant p = Some "ridged"%string ->
  let sample := noise st (x / gridCols st * scale p * 100)
                         (y / gridRows st * scale p * 100) (t * speed p * 10) in
  exists v, Variant.getPatternValue targetFPS st x y p t = (Some v, st) /\
            v = (1.0 - Rabs (sample * 2 - 1) * 2 - 1 + 1) / 2 /\
            v <= 0.5 /\ (sample < 0.25 -> v < 0).
Proof.
  intros E V sample. unfold Variant.getPatternValue. rewrite E.
  cbn [String.eqb Ascii.eqb Bool.eqb]. unfold noiseVariantValue. rewrite V.
  cbn [String.eqb Ascii.eqb Bool.eqb option_map]. fold sample.
  eexists. split; [reflexivity |]. split; [reflexivity |].
  unfold Rabs. destruct (Rcase_abs (sample * 2 - 1)); split; intros; lra.
Qed.

(** The kinds that do stay in the unit interval: sums and products of
    sines, and the two escape-time kinds. *)
Lemma getPatternValue_bounded_kinds (st : State) (x y : R) (p : Pattern) (t : R) :
  In (type p) boundedKinds ->
  exists v, getPatternValue st x y p t = (Some v, st) /\ 0 <= v <= 1.
Proof.
  unfold boundedKinds. simpl. unfold getPatternValue.
  intros [E | [E | [E | [E | [E | [E | [E | [E | []]]]]]]]]; rewrite <- E;
    cbn [String.eqb Ascii.eqb Bool.eqb option_map]; eexists;
    (split; [reflexivity |]).
  - unfold wavesValue.
    pose proof (SIN_bound (x / gridCols st * P5.TWO_PI * 5 + t * speed p * 100)).
    pose proof (SIN_bound (x / gridCols st * P5.TWO_PI * 3 + t * speed p * 80)).
    pose proof (SIN_bound (y / gridRows st * P5.TWO_PI * 3 + t * speed p * 80)).
    lra.
  - unfold ripplesValue. cbv zeta.
    match goal with |- context [sin ?a] => pose proof (SIN_bound a) end. lra.
  - unfold spiralValue. cbv zeta.
    match goal with |- context [sin ?a] => pose proof (SIN_bound a) end. lra.
  - unfold stripesValue.
    match goal with |- context [sin ?a] => pose proof (SIN_bound a) end. lra.
  - unfold plasmaValue.
    pose proof (SIN_bound (x / gridCols st * 16 + t * speed p * 80)).
    pose proof (SIN_bound (y / gridRows st * 8 + t * speed p * 60)).
    pose proof (SIN_bound ((x / gridCols st + y / gridRows st) * 16 + t * speed p * 40)).
    pose proof (SIN_bound
      (sqrt (x / gridCols st * (x / gridCols st) + y / gridRows st * (y / gridRows st)) * 8
       + t * speed p * 120)).
    lra.
  - pose proof (mandelbrotValue_unit (x / gridCols st) (y / gridRows st) p t 20
                  ltac:(lia)). lra.
  - pose proof (juliaValue_unit (x / gridCols st) (y / gridRows st) p t 20
                  ltac:(lia)). lra.
  - unfold tunnelValue. cbv zeta.
    match goal with |- context [sin ?a * sin ?b] =>
      pose proof (SIN_bound a); pose proof (SIN_bound b);
      set (sa := sin a) in *; set (sb := sin b) in *
    end.
    split; nra.
Qed.

(** C1 fails on the code: the value returned by [getPatternValue] leaves
    [0,1].  For the mosaic kind at cell (0,0) with speed 0.01, scale 0.05
    and time 4.992 the returned value is negative; for the voronoi kind
    at cell (0,0) and time 0 on [voronoiState] it is 5.1. *)
Theorem getPatternValue_outside_unit_interval :
  (exists v,
      getPatternValue demoState 0 0 (Build_Pattern "mosaic" 0.01 0.05 None) 4.992 =
      (Some v, demoState) /\
      v = (-1 + sin (4.992 * 0.01 * 100) * 0.3 + 1) / 2 /\ v < 0) /\
  (exists v st',
      getPatternValue voronoiState 0 0 (Build_Pattern "voronoi" 0.01 0.05 None) 0 =
      (Some v, st') /\ v = 5.1 /\ 1 < v).
Proof.
  split.
  - unfold getPatternValue.
    cbn [type String.eqb Ascii.eqb Bool.eqb option_map demoState gridCols gridRows].
    unfold mosaicValue. cbn [speed scale].
    assert (FX : P5.floor (0 / 80 * 0.05 * 200) = 0%Z) by (apply floor_unique; lra).
    assert (FY : P5.floor (0 / 50 * 0.05 * 200) = 0%Z) by (apply floor_unique; lra).
    rewrite FX, FY.
    replace (Z.rem (Z.lxor (toInt32 (0 * 73856093)) (toInt32 (0 * 19349663))) 1000000)
      with 0%Z by reflexivity.
    eexists. split; [reflexivity |].
    pose proof sin_negative_4992. split; lra.
  - destruct voronoi_two_calls as [(v1 & E1 & V1) _].
    eexists. eexists. split; [exact E1 |]. split; [exact V1 | lra].
Qed.

(** ** Cellular automaton *)

Section Cellular.

Variable g : Grid.
Hypothesis rows : List.length g = 30%nat.

Lemma cellAt_alive (nx ny : Z) :
  (0 <= nx < 40)%Z -> (0 <= ny < 30)%Z -> cellAt g ny nx = Some (alive g nx ny).
Proof.
  intros Hx Hy. unfold cellAt, alive.
  destruct (nth_error g (Z.to_nat ny)) as [row |] eqn:E.
  - rewrite (nth_error_nth g (Z.to_nat ny) [] E).
    replace ((0 <=? nx) && (nx <? 40) && (0 <=? ny) && (ny <? 30))%Z with true;
      [reflexivity |].
    symmetry. rewrite !andb_true_iff, !Z.leb_le, !Z.ltb_lt. lia.
  - apply nth_error_None in E. lia.
Qed.

Lemma neighborStep_count (x y dx dy : Z) (n : nat) :
  neighborStep g x y dy (Some n) dx =
  Some (n + if ((dx =? 0) && (dy =? 0))%Z then 0
            else if alive g (x + dx) (y + dy) then 1 else 0)%nat.
Proof.
  unfold neighborStep. destruct ((dx =? 0) && (dy =? 0))%Z; [f_equal; lia |].
  cbv zeta.
  destruct ((0 <=? x + dx) && (x + dx <? 40) && (0 <=? y + dy) && (y + dy <? 30))%Z
    eqn:B.
  - rewrite !andb_true_iff, !Z.leb_le, !Z.ltb_lt in B.
    rewrite cellAt_alive by lia.
    destruct (alive g (x + dx) (y + dy)); f_equal; lia.
  - unfold alive. rewrite B. f_equal. lia.
Qed.

Lemma countNeighbors_liveNeighbors (x y : Z) :
  countNeighbors g x y = Some (liveNeighbors g x y).
Proof.
  unfold countNeighbors. cbn [fold_left].
  rewrite !neighborStep_count. unfold liveNeighbors, neighborOffsets.
  cbn [List.map fst snd Z.eqb andb]. unfold list_sum. cbn [fold_right].
  f_equal. lia.
Qed.

Lemma newCell_lifeRule (x y : Z) :
  (0 <= x < 40)%Z -> (0 <= y < 30)%Z ->
  newCell g x y = Some (lifeRule (alive g x y) (liveNeighbors g x y)).
Proof.
  intros Hx Hy. unfold newCell.
  rewrite countNeighbors_liveNeighbors, cellAt_alive by lia.
  unfold lifeRule. destruct (alive g x y); reflexivity.
Qed.

Lemma setAt_end {A : Type} (hole v : A) (a : list A) :
  setAt hole (List.length a) v a = a ++ [v].
Proof.
  unfold setAt. rewrite Nat.ltb_irrefl, Nat.sub_diag. reflexivity.
Qed.

Lemma setAt_last {A : Type} (hole v r : A) (a : list A) :
  setAt hole (List.length a) v (a ++ [r]) = a ++ [v].
Proof.
  unfold setAt. rewrite length_app. cbn [List.length].
  replace (List.length a <? List.length a + 1)%nat with true
    by (symmetry; apply Nat.ltb_lt; lia).
  induction a as [| h a IH]; [reflexivity |].
  cbn [List.length firstn skipn app] in *. f_equal. exact IH.
Qed.

Lemma nth_map_seq {A : Type} (f : nat -> A) (d : A) (n k : nat) :
  (k < n)%nat -> nth k (List.map f (seq 0 n)) d = f k.
Proof.
  intros H. rewrite (nth_indep _ d (f 0%nat)) by (rewrite length_map, length_seq; exact H).
  rewrite map_nth, seq_nth by exact H. reflexivity.
Qed.

Lemma rowLoop (y : nat) (G : Grid) :
  List.length G = y -> (y < 30)%nat ->
  forall (n k : nat) (row : list bool),
    List.length row = k -> (k + n <= 40)%nat ->
    fold_left (rowStep g y) (seq k n) (Some (G ++ [row])) =
    Some (G ++ [row ++ List.map
                  (fun x => lifeRule (alive g (Z.of_nat x) (Z.of_nat y))
                                     (liveNeighbors g (Z.of_nat x) (Z.of_nat y)))
                  (seq k n)]).
Proof.
  intros HG Hy. subst y. induction n as [| n IH]; intros k row Hrow Hk.
  - cbn [seq fold_left List.map]. rewrite app_nil_r. reflexivity.
  - cbn [seq fold_left List.map]. unfold rowStep at 2.
    rewrite newCell_lifeRule by lia.
    rewrite nth_middle. subst k.
    rewrite setAt_end, setAt_last.
    rewrite IH; [| rewrite length_app; cbn [List.length]; lia | lia].
    rewrite <- app_assoc. reflexivity.
Qed.

Lemma gridLoop (n : nat) :
  forall (k : nat) (G : Grid),
    List.length G = k -> (k + n <= 30)%nat ->
    fold_left (gridStep g) (seq k n) (Some G) =
    Some (G ++ List.map (nextRow g) (seq k n)).
Proof.
  induction n as [| n IH]; intros k G HG Hk.
  - cbn [seq fold_left List.map]. rewrite app_nil_r. reflexivity.
  - cbn [seq fold_left List.map]. unfold gridStep at 2. subst k.
    rewrite setAt_end.
    rewrite (rowLoop (List.length G) G eq_refl ltac:(lia) 40 0 [])
      by (cbn [List.length]; lia).
    cbn [app]. fold (nextRow g (List.length G)).
    rewrite IH; [| rewrite length_app; cbn [List.length]; lia | lia].
    rewrite <- app_assoc. reflexivity.
Qed.

Lemma updateCellular_nextGeneration : updateCellular g = Some (nextGeneration g).
Proof.
  unfold updateCellular.
  exact (gridLoop 30 0 [] eq_refl ltac:(lia)).
Qed.

End Cellular.

Lemma alive_in_range (g : Grid) (x y : Z) :
  (0 <= x < 40)%Z -> (0 <= y < 30)%Z ->
  alive g x y = nth (Z.to_nat x) (nth (Z.to_nat y) g []) false.
Proof.
  intros Hx Hy. unfold alive.
  replace ((0 <=? x) && (x <? 40) && (0 <=? y) && (y <? 30))%Z with true;
    [reflexivity |].
  symmetry. rewrite !andb_true_iff, !Z.leb_le, !Z.ltb_lt. lia.
Qed.

Lemma alive_out_of_range (g : Grid) (x y : Z) :
  ~ ((0 <= x < 40)%Z /\ (0 <= y < 30)%Z) -> alive g x y = false.
Proof.
  intros H. unfold alive.
  destruct ((0 <=? x) && (x <? 40) && (0 <=? y) && (y <? 30))%Z eqn:B;
    [| reflexivity].
  rewrite !andb_true_iff, !Z.leb_le, !Z.ltb_lt in B. lia.
Qed.

Lemma alive_nextGeneration (g : Grid) (x y : Z) :
  (0 <= x < 40)%Z -> (0 <= y < 30)%Z ->
  alive (nextGeneration g) x y = lifeRule (alive g x y) (liveNeighbors g x y).
Proof.
  intros Hx Hy. rewrite alive_in_range by lia.
  unfold nextGeneration. rewrite nth_map_seq by lia.
  unfold nextRow. rewrite nth_map_seq by lia.
  rewrite !Z2Nat.id by lia. reflexivity.
Qed.

Lemma wellFormed_nextGeneration (g : Grid) : wellFormed (nextGeneration g).
Proof.
  unfold wellFormed, nextGeneration. split.
  - rewrite length_map, length_seq. reflexivity.
  - apply Forall_forall. intros row H. apply in_map_iff in H.
    destruct H as (y & <- & _). unfold nextRow.
    rewrite length_map, length_seq. reflexivity.
Qed.

Lemma liveNeighbors_allDead (g : Grid) (x y : Z) :
  allDead g -> liveNeighbors g x y = 0%nat.
Proof.
  intros H. unfold liveNeighbors, neighborOffsets. cbn [List.map fst snd].
  rewrite !H. reflexivity.
Qed.

(** C3: one step of the cellular automaton is a synchronous Game of Life
    transition from the old 40x30 grid into a fresh 40x30 grid.  Every
    cell of the new grid is decided by the old grid alone: it is live
    when it had exactly 3 live neighbours; a live cell with exactly 1 live
    neighbour is dead; a live cell with 2 or 3 live neighbours stays
    live; every other cell is dead.  Neighbours outside the grid count as
    dead, and an all-dead grid maps to an all-dead grid. *)
Theorem updateCellular_game_of_life (g : Grid) :
  wellFormed g ->
  exists g' : Grid,
    updateCellular g = Some g' /\
    wellFormed g' /\
    (forall x y : Z,
        (0 <= x < 40)%Z -> (0 <= y < 30)%Z ->
        alive g' x y = lifeRule (alive g x y) (liveNeighbors g x y) /\
        (liveNeighbors g x y = 3%nat -> alive g' x y = true) /\
        (alive g x y = true -> liveNeighbors g x y = 1%nat -> alive g' x y = false) /\
        (alive g x y = true ->
         liveNeighbors g x y = 2%nat \/ liveNeighbors g x y = 3%nat ->
         alive g' x y = true) /\
        (liveNeighbors g x y <> 3%nat ->
         ~ (alive g x y = true /\ liveNeighbors g x y = 2%nat) ->
         alive g' x y = false)) /\
    (forall x y : Z,
        ~ ((0 <= x < 40)%Z /\ (0 <= y < 30)%Z) ->
        alive g x y = false /\ alive g' x y = false) /\
    (allDead g -> allDead g').
Proof.
  intros [Hrows _]. exists (nextGeneration g).
  split; [apply updateCellular_nextGeneration; exact Hrows |].
  split; [apply wellFormed_nextGeneration |].
  assert (R : forall x y : Z, (0 <= x < 40)%Z -> (0 <= y < 30)%Z ->
                alive (nextGeneration g) x y =
                lifeRule (alive g x y) (liveNeighbors g x y))
    by (intros; apply alive_nextGeneration; assumption).
  split; [| split].
  - intros x y Hx Hy. rewrite (R x y Hx Hy). unfold lifeRule.
    split; [reflexivity |]. split; [| split; [| split]].
    + intros ->. destruct (alive g x y); reflexivity.
    + intros -> ->. reflexivity.
    + intros -> [-> | ->]; reflexivity.
    + intros N3 N2. destruct (alive g x y).
      * destruct (Nat.eqb_spec (liveNeighbors g x y) 2); [tauto |].
        destruct (Nat.eqb_spec (liveNeighbors g x y) 3); [contradiction | reflexivity].
      * destruct (Nat.eqb_spec (liveNeighbors g x y) 3); [contradiction | reflexivity].
  - intros x y H. split; apply alive_out_of_range; exact H.
  - intros D x y.
    destruct (Z_le_dec 0 x), (Z_lt_dec x 40), (Z_le_dec 0 y), (Z_lt_dec y 30);
      try (apply alive_out_of_range; lia).
    rewrite R by lia. rewrite D, liveNeighbors_allDead by exact D. reflexivity.
Qed.

Lemma wellFormed_blinkerFlat : wellFormed blinkerFlat.
Proof. split; [reflexivity | repeat constructor]. Qed.

Lemma updateCellular_game_of_life_witness :
  wellFormed blinkerFlat /\
  exists g' : Grid,
    updateCellular blinkerFlat = Some g' /\
    alive g' 1 0 = true /\ alive g' 0 1 = false.
Proof.
  split; [exact wellFormed_blinkerFlat |].
  destruct (updateCellular_game_of_life blinkerFlat wellFormed_blinkerFlat)
    as (g' & U & _ & R & _).
  exists g'. split; [exact U |]. split.
  - destruct (R 1%Z 0%Z) as (_ & B & _); [lia | lia |].
    apply B. reflexivity.
  - destruct (R 0%Z 1%Z) as (_ & _ & D & _); [lia | lia |].
    apply D; reflexivity.
Defined.

(** * Further properties of the code *)

(** ** Scalar blend: range *)

Lemma lerp_between (a b t : R) :
  0 <= t <= 1 -> Rmin a b <= P5.lerp a b t <= Rmax a b.
Proof.
  intros H. unfold P5.lerp, Rmin, Rmax. destruct (Rle_dec a b); split; nra.
Qed.

(** X1: for values and an amount of the unit interval, [blendValues]
    returns a value of the unit interval, whatever the mode (recognised or
    not). *)
Theorem blendValues_unit_interval (v1 v2 amount : R) (mode : string) :
  0 <= v1 <= 1 -> 0 <= v2 <= 1 -> 0 <= amount <= 1 ->
  0 <= blendValues v1 v2 mode amount <= 1.
Proof.
  intros H1 H2 Ha. unfold blendValues.
  assert (L : 0 <= P5.lerp 0.5 v2 amount <= 1) by (unfold P5.lerp; nra).
  set (w := P5.lerp 0.5 v2 amount) in *.
  destruct (String.eqb mode "add"); [apply constrain_bounds; lra |].
  destruct (String.eqb mode "multiply"); [nra |].
  destruct (String.eqb mode "overlay").
  { unfold Rltb. destruct (Rlt_dec v1 0.5); nra. }
  destruct (String.eqb mode "difference").
  { unfold Rabs. destruct (Rcase_abs (v1 - w)); lra. }
  destruct (String.eqb mode "screen"); [nra | lra].
Qed.

Lemma blendValues_unit_interval_witness :
  0 <= blendValues 0.25 0.75 "overlay" 0.5 <= 1.
Proof. apply blendValues_unit_interval; lra. Defined.

(** ** Colours *)

Lemma hexDigit_hexValue (c : ascii) :
  hexDigit c = if isHexDigit c then Some (hexValue c) else None.
Proof.
  destruct c as [[] [] [] [] [] [] [] []]; vm_compute; reflexivity.
Qed.

(** X2: [hexToRgb] reads a colour of six hexadecimal digits, in either
    case and with or without the leading [#], as the three numbers its
    digit pairs denote in base 16; whatever the string, the channels it
    returns are integers of [0 .. 255]. *)
Theorem hexToRgb_reads_hex_colors (r1 r2 g1 g2 b1 b2 : ascii) :
  forallb isHexDigit [r1; r2; g1; g2; b1; b2] = true ->
  let parsed := Rgb.mk (16 * hexValue r1 + hexValue r2)
                       (16 * hexValue g1 + hexValue g2)
                       (16 * hexValue b1 + hexValue b2) in
  hexToRgb (string_of_list_ascii [r1; r2; g1; g2; b1; b2]) = parsed /\
  hexToRgb (String "#" (string_of_list_ascii [r1; r2; g1; g2; b1; b2])) = parsed /\
  forall hex : string, validRgb (hexToRgb hex).
Proof.
  intros H parsed. cbn [forallb] in H. rewrite !andb_true_iff in H.
  destruct H as (H1 & H2 & H3 & H4 & H5 & H6 & _).
  assert (P : forall c d, isHexDigit c = true -> isHexDigit d = true ->
                parseHex2 c d = Some (16 * hexValue c + hexValue d)%Z).
  { intros c d Hc Hd. unfold parseHex2. rewrite !hexDigit_hexValue, Hc, Hd.
    reflexivity. }
  assert (B : hexToRgb (String "#" (string_of_list_ascii [r1; r2; g1; g2; b1; b2]))
              = parsed).
  { unfold hexToRgb. cbn [string_of_list_ascii list_ascii_of_string].
    rewrite (P r1 r2), (P g1 g2), (P b1 b2) by assumption. reflexivity. }
  split; [| split; [exact B | exact hexToRgb_valid]].
  unfold hexToRgb. cbn [string_of_list_ascii].
  assert (N : r1 <> "#"%char) by (intros ->; discriminate H1).
  replace (match String r1 (String r2 (String g1 (String g2 (String b1 (String b2 "")))))
           with
           | String "#"%char rest => rest
           | _ => String r1 (String r2 (String g1 (String g2 (String b1 (String b2 "")))))
           end)
    with (String r1 (String r2 (String g1 (String g2 (String b1 (String b2 ""))))))
    by (destruct r1 as [[] [] [] [] [] [] [] []]; try reflexivity; contradiction N;
        reflexivity).
  cbn [list_ascii_of_string].
  rewrite (P r1 r2), (P g1 g2), (P b1 b2) by assumption. reflexivity.
Qed.

Lemma hexToRgb_reads_hex_colors_witness :
  hexToRgb "00Ff7a" = Rgb.mk 0 255 122 /\ hexToRgb "#00Ff7a" = Rgb.mk 0 255 122.
Proof.
  destruct (hexToRgb_reads_hex_colors "0" "0" "F" "f" "7" "a" eq_refl) as (A & B & _).
  split; [exact A | exact B].
Defined.

Lemma blendChannel_zero (mode : string) (c1 c2 : R) :
  0 <= c1 <= 255 -> blendChannel mode c1 c2 0 = c1.
Proof.
  intros H. unfold blendChannel.
  destruct (String.eqb mode "add").
  { rewrite constrain_inside by lra. lra. }
  repeat match goal with
         | |- context [if String.eqb ?m ?s then _ else _] => destruct (String.eqb m s)
         end; unfold P5.lerp; lra.
Qed.

Lemma IZR_channel_bounds (z : Z) : (0 <= z <= 255)%Z -> 0 <= IZR z <= 255.
Proof. intros [H1 H2]. apply IZR_le in H1. apply IZR_le in H2. lra. Qed.

(** X3: when the local blend factor [value1 * value2 * amount] is zero (a
    zero amount, or a pattern value of zero), [blendColors] returns the
    first colour unchanged, in every mode; the second colour plays no
    part. *)
Theorem blendColors_zero_blend (color1Hex color2Hex mode : string)
    (v1 v2 amount : R) :
  v1 * v2 * amount = 0 ->
  blendColors color1Hex color2Hex mode v1 v2 amount = rgbString (hexToRgb color1Hex).
Proof.
  intros H. unfold blendColors. f_equal.
  rewrite blendColorsRgb_channels, H.
  destruct (hexToRgb_valid color1Hex) as (Hr & Hg & Hb).
  rewrite !blendChannel_zero by (apply IZR_channel_bounds; assumption).
  rewrite !floor_IZR. destruct (hexToRgb color1Hex). reflexivity.
Qed.

Lemma blendColors_zero_blend_witness :
  blendColors "#336699" "#ff0000" "screen" 0.75 0.5 0 = "rgb(51, 102, 153)"%string.
Proof.
  rewrite (blendColors_zero_blend "#336699" "#ff0000" "screen" 0.75 0.5 0) by lra.
  reflexivity.
Defined.

Lemma lerp_range (a t localBlend lo hi : R) :
  0 <= localBlend <= 1 -> lo <= a < hi -> lo <= t < hi ->
  lo <= P5.lerp a t localBlend < hi.
Proof.
  intros Hb Ha Ht. unfold P5.lerp.
  assert (L1 : 0 <= localBlend * (t - lo)) by (apply Rmult_le_pos; lra).
  assert (L2 : 0 <= (1 - localBlend) * (a - lo)) by (apply Rmult_le_pos; lra).
  split; [lra |].
  destruct (Rle_dec a t) as [C | C].
  - assert (U : 0 <= (1 - localBlend) * (t - a)) by (apply Rmult_le_pos; lra). lra.
  - assert (U : 0 <= localBlend * (a - t)) by (apply Rmult_le_pos; lra). lra.
Qed.

Lemma blendChannel_range (mode : string) (c1 c2 localBlend : R) :
  0 <= c1 <= 255 -> 0 <= c2 <= 255 -> 0 <= localBlend <= 1 ->
  0 <= blendChannel mode c1 c2 localBlend < 256.
Proof.
  intros H1 H2 Hb. unfold blendChannel.
  destruct (String.eqb mode "add").
  { pose proof (constrain_bounds (c1 + c2 * localBlend) 0 255). lra. }
  destruct (String.eqb mode "multiply").
  { apply lerp_range; [exact Hb | lra |]. split; [| assert (c1 * c2 <= 255 * 255) by nra; lra].
    assert (0 <= c1 * c2) by nra. lra. }
  destruct (String.eqb mode "overlay").
  { apply lerp_range; [exact Hb | lra |]. unfold Rltb.
    destruct (Rlt_dec c1 128).
    - assert (0 <= c1 * c2) by nra. assert (c1 * c2 < 128 * 255) by nra. lra.
    - assert (0 <= (255 - c1) * (255 - c2)) by nra.
      assert ((255 - c1) * (255 - c2) <= 127 * 255) by nra. lra. }
  destruct (String.eqb mode "difference").
  { apply lerp_range; [exact Hb | lra |].
    unfold Rabs. destruct (Rcase_abs (c1 - c2)); lra. }
  destruct (String.eqb mode "screen").
  { apply lerp_range; [exact Hb | lra |].
    assert (0 <= (255 - c1) * (255 - c2)) by nra.
    assert ((255 - c1) * (255 - c2) <= 255 * 255) by nra. lra. }
  apply lerp_range; [exact Hb | lra | lra].
Qed.

Lemma floor_channel (r : R) : 0 <= r < 256 -> (0 <= P5.floor r <= 255)%Z.
Proof.
  intros H. pose proof (floor_bounds r) as F. split.
  - assert (L : (-1 < P5.floor r)%Z) by (apply lt_IZR; lra). lia.
  - assert (L : (P5.floor r < 256)%Z) by (apply lt_IZR; lra). lia.
Qed.

(** X4: for pattern values and an amount of the unit interval,
    [blendColors] prints a colour whose three channels are integers of
    [0 .. 255], whatever the two colour strings and the mode. *)
Theorem blendColors_valid_channels (color1Hex color2Hex mode : string)
    (v1 v2 amount : R) :
  0 <= v1 <= 1 -> 0 <= v2 <= 1 -> 0 <= amount <= 1 ->
  validRgb (blendColorsRgb color1Hex color2Hex mode v1 v2 amount) /\
  blendColors color1Hex color2Hex mode v1 v2 amount =
  rgbString (blendColorsRgb color1Hex color2Hex mode v1 v2 amount).
Proof.
  intros H1 H2 Ha. split; [| reflexivity].
  assert (Hb : 0 <= v1 * v2 * amount <= 1).
  { assert (0 <= v1 * v2 <= 1) by nra. nra. }
  destruct (hexToRgb_valid color1Hex) as (Hr1 & Hg1 & Hb1).
  destruct (hexToRgb_valid color2Hex) as (Hr2 & Hg2 & Hb2).
  rewrite blendColorsRgb_channels. unfold validRgb. cbn [Rgb.r Rgb.g Rgb.b].
  assert (F : forall a b : Z, (0 <= a <= 255)%Z -> (0 <= b <= 255)%Z ->
               (0 <= P5.floor (blendChannel mode (IZR a) (IZR b) (v1 * v2 * amount))
                <= 255)%Z).
  { intros a b Ha' Hb'. apply floor_channel, blendChannel_range;
      [apply IZR_channel_bounds | apply IZR_channel_bounds |]; assumption. }
  split; [| split]; apply F; assumption.
Qed.

Lemma blendColors_valid_channels_witness :
  validRgb (blendColorsRgb "#336699" "#ff8000" "overlay" 0.75 0.5 1).
Proof.
  apply (blendColors_valid_channels "#336699" "#ff8000" "overlay" 0.75 0.5 1); lra.
Defined.







(** ** Noise, checkerboard and mosaic kinds: ranges *)

Lemma turbulence_sum (f : R -> R) :
  fold_left (fun (acc : R * R * R) (_ : nat) =>
     let '(value, amplitude, frequency) := acc in
     (value + amplitude * f frequency, amplitude * 0.5, frequency * 2.0))
    (seq 0 4) (0, 1.0, 1.0) =
  (0 + 1.0 * f 1.0 + 1.0 * 0.5 * f (1.0 * 2.0)
   + 1.0 * 0.5 * 0.5 * f (1.0 * 2.0 * 2.0)
   + 1.0 * 0.5 * 0.5 * 0.5 * f (1.0 * 2.0 * 2.0 * 2.0),
   1.0 * 0.5 * 0.5 * 0.5 * 0.5, 1.0 * 2.0 * 2.0 * 2.0 * 2.0).
Proof. reflexivity. Qed.

(** X6: when [noise] returns numbers of [0, 1], as p5 documents, the
    noise kind returns a value of the unit interval in js/scripts.js and,
    in the documented variant, for the simplex and turbulence variants
    and for every variant name other than ridged. *)
Theorem noise_kind_unit_interval (st : State) (x y : R) (p : Pattern) (t : R) :
  (forall a b c : R, 0 <= noise st a b c <= 1) ->
  type p = "noise"%string ->
  (exists v, getPatternValue st x y p t = (Some v, st) /\ 0 <= v <= 1) /\
  (noiseVariant p <> Some "ridged"%string ->
   forall targetFPS : R,
   exists v, Variant.getPatternValue targetFPS st x y p t = (Some v, st) /\
             0 <= v <= 1).
Proof.
  intros N E.
  assert (S : forall nx ny, -1 <= noiseValue nx ny p t (noise st) <= 1).
  { intros nx ny. unfold noiseValue.
    pose proof (N (nx * scale p * 100) (ny * scale p * 100) (t * speed p * 10)). lra. }
  split.
  - unfold getPatternValue. rewrite E.
    cbn [String.eqb Ascii.eqb Bool.eqb option_map].
    eexists. split; [reflexivity |].
    pose proof (S (x / gridCols st) (y / gridRows st)). lra.
  - intros R targetFPS. unfold Variant.getPatternValue. rewrite E.
    cbn [String.eqb Ascii.eqb Bool.eqb option_map].
    eexists. split; [reflexivity |].
    pose proof (S (x / gridCols st) (y / gridRows st)) as B.
    unfold noiseVariantValue.
    set (variant := match noiseVariant p with
                    | Some s => if String.eqb s "" then "simplex"%string else s
                    | None => "simplex"%string
                    end).
    assert (V : String.eqb variant "ridged" = false).
    { apply String.eqb_neq. intros V. apply R. subst variant.
      destruct (noiseVariant p) as [s |]; [| discriminate V].
      destruct (String.eqb s ""); [discriminate V | congruence]. }
    destruct (String.eqb variant "simplex"); [lra |].
    destruct (String.eqb variant "turbulence").
    + rewrite (turbulence_sum
                 (fun frequency =>
                    noise st (x / gridCols st * scale p * 100 * frequency)
                             (y / gridRows st * scale p * 100 * frequency)
                             (t * speed p * 10 * frequency))).
      repeat match goal with
             | |- context [noise st ?a ?b ?c] =>
                 let H := fresh "H" in
                 pose proof (N a b c) as H; generalize dependent (noise st a b c);
                 intros
             end.
      lra.
    + rewrite V. lra.
Qed.

Lemma noise_kind_unit_interval_witness :
  exists v,
    getPatternValue demoState 3 4 (Build_Pattern "noise" 0.01 0.05 None) 1.6 =
    (Some v, demoState) /\ 0 <= v <= 1.
Proof.
  destruct (noise_kind_unit_interval demoState 3 4
              (Build_Pattern "noise" 0.01 0.05 None) 1.6) as [A _].
  - intros a b c. cbn [demoState noise]. lra.
  - reflexivity.
  - exact A.
Defined.

Lemma rem2_cases (z : Z) : Z.rem z 2 = 0%Z \/ Z.rem z 2 = 1%Z \/ Z.rem z 2 = (-1)%Z.
Proof.
  pose proof (Z.rem_bound_abs z 2 ltac:(lia)). lia.
Qed.

Lemma floor_nonneg (r : R) : 0 <= r -> (0 <= P5.floor r)%Z.
Proof.
  intros H. pose proof (floor_bounds r) as F.
  assert (L : (-1 < P5.floor r)%Z) by (apply lt_IZR; lra). lia.
Qed.

(** X7: the checkerboard kind returns 0, 1 or -1, never anything in
    between; when the cell indices, the grid size, the scale, the speed
    and the time are not negative it returns 0 or 1 (the value -1, below
    the unit interval, needs a negative sum of tile indices). *)
Theorem checkerboard_two_valued (st : State) (x y : R) (p : Pattern) (t : R) :
  type p = "checkerboard"%string ->
  exists v,
    getPatternValue st x y p t = (Some v, st) /\
    (v = 0 \/ v = 1 \/ v = -1) /\
    (0 <= x -> 0 <= y -> 0 < gridCols st -> 0 < gridRows st ->
     0 <= scale p -> 0 <= speed p -> 0 <= t -> v = 0 \/ v = 1).
Proof.
  intros E. unfold getPatternValue. rewrite E.
  cbn [String.eqb Ascii.eqb Bool.eqb option_map]. unfold checkerboardValue.
  set (sum := (P5.floor (x / gridCols st * scale p * 100) +
               P5.floor (y / gridRows st * scale p * 100) +
               P5.floor (t * speed p * 100))%Z).
  exists (IZR (Z.rem sum 2)). split; [do 2 f_equal; lra |]. split.
  - destruct (rem2_cases sum) as [-> | [-> | ->]]; auto.
  - intros Hx Hy Hc Hr Hs Hv Ht.
    assert (Px : 0 <= x / gridCols st).
    { unfold Rdiv. apply Rmult_le_pos; [lra | left; apply Rinv_0_lt_compat; lra]. }
    assert (Py : 0 <= y / gridRows st).
    { unfold Rdiv. apply Rmult_le_pos; [lra | left; apply Rinv_0_lt_compat; lra]. }
    assert (Qx : 0 <= x / gridCols st * scale p * 100).
    { apply Rmult_le_pos; [apply Rmult_le_pos; assumption | lra]. }
    assert (Qy : 0 <= y / gridRows st * scale p * 100).
    { apply Rmult_le_pos; [apply Rmult_le_pos; assumption | lra]. }
    assert (Qt : 0 <= t * speed p * 100).
    { apply Rmult_le_pos; [apply Rmult_le_pos; assumption | lra]. }
    assert (S : (0 <= sum)%Z).
    { unfold sum. apply floor_nonneg in Qx, Qy, Qt. lia. }
    pose proof (Z.rem_nonneg sum 2 ltac:(lia) S).
    destruct (rem2_cases sum) as [-> | [-> | R]]; auto. lia.
Qed.

Lemma checkerboard_two_valued_witness :
  exists v,
    getPatternValue demoState 3 4 (Build_Pattern "checkerboard" 0.01 0.05 None) 1.6 =
    (Some v, demoState) /\ (v = 0 \/ v = 1).
Proof.
  destruct (checkerboard_two_valued demoState 3 4
              (Build_Pattern "checkerboard" 0.01 0.05 None) 1.6 eq_refl)
    as (v & E & _ & B).
  exists v. split; [exact E |].
  apply B; cbn [demoState gridCols gridRows scale speed]; lra.
Defined.

(** X8: the mosaic kind returns a value strictly between -1.15 and 1.15:
    the tile hash contributes a number strictly between -1 and 1 (the
    remainder of a signed 32-bit integer by 1000000, divided by 1000000)
    and the time term at most 0.15 in absolute value. *)
Theorem mosaic_range (st : State) (x y : R) (p : Pattern) (t : R) :
  type p = "mosaic"%string ->
  exists (v : R) (mosaicHash : Z),
    getPatternValue st x y p t = (Some v, st) /\
    v = IZR mosaicHash / 1000000 + 0.15 * sin (t * speed p * 100) /\
    (-1000000 < mosaicHash < 1000000)%Z /\
    -1.15 < v < 1.15.
Proof.
  intros E. unfold getPatternValue. rewrite E.
  cbn [String.eqb Ascii.eqb Bool.eqb option_map]. unfold mosaicValue. cbv zeta.
  set (h := Z.rem _ 1000000).
  assert (B : (-1000000 < h < 1000000)%Z).
  { unfold h. pose proof (Z.rem_bound_abs
      (Z.lxor (toInt32 (P5.floor (x / gridCols st * scale p * 200) * 73856093))
              (toInt32 (P5.floor (y / gridRows st * scale p * 200) * 19349663)))
      1000000 ltac:(lia)). lia. }
  eexists. exists h. split; [reflexivity |]. split; [lra |]. split; [exact B |].
  pose proof (SIN_bound (t * speed p * 100)).
  destruct B as [B1 B2]. apply IZR_lt in B1. apply IZR_lt in B2. lra.
Qed.

Lemma mosaic_range_witness :
  exists v : R,
    getPatternValue demoState 3 4 (Build_Pattern "mosaic" 0.01 0.05 None) 1.6 =
    (Some v, demoState) /\ -1.15 < v < 1.15.
Proof.
  destruct (mosaic_range demoState 3 4 (Build_Pattern "mosaic" 0.01 0.05 None) 1.6
              eq_refl) as (v & h & E & _ & _ & B).
  exists v. split; [exact E | exact B].
Defined.

(** ** Voronoi kind *)

Lemma dist_nonneg (x1 y1 x2 y2 : R) : 0 <= P5.dist x1 y1 x2 y2.
Proof. unfold P5.dist. apply sqrt_pos. Qed.

Lemma dist_unit_square (x1 y1 x2 y2 : R) :
  0 <= x1 <= 1 -> 0 <= y1 <= 1 -> 0 <= x2 <= 1 -> 0 <= y2 <= 1 ->
  P5.dist x1 y1 x2 y2 <= sqrt 2.
Proof.
  intros Hx1 Hy1 Hx2 Hy2. unfold P5.dist.
  assert (A : 0 <= (x2 - x1) * (x2 - x1) <= 1).
  { split; [apply Rle_0_sqr |].
    assert (0 <= (1 - (x2 - x1)) * (1 + (x2 - x1))) by (apply Rmult_le_pos; lra). lra. }
  assert (B : 0 <= (y2 - y1) * (y2 - y1) <= 1).
  { split; [apply Rle_0_sqr |].
    assert (0 <= (1 - (y2 - y1)) * (1 + (y2 - y1))) by (apply Rmult_le_pos; lra). lra. }
  apply sqrt_le_1; lra.
Qed.

Lemma nearestTwo_step_inv (P : R -> Prop) (x y : R) (points : list Point.t) :
  Forall (fun point => P (P5.dist x y (Point.x point) (Point.y point))) points ->
  forall (k : nat) (acc : Dist * Dist),
    nearestInv P k acc ->
    nearestInv P (k + List.length points)
      (fold_left (fun acc point =>
         let '(minDist, secondMinDist) := acc in
         let d := P5.dist x y (Point.x point) (Point.y point) in
         if distLt d minDist then (Finite d, minDist)
         else if distLt d secondMinDist then (minDist, Finite d)
         else (minDist, secondMinDist)) points acc).
Proof.
  induction 1 as [| point points HP _ IH]; intros k acc Hacc.
  - cbn [fold_left List.length]. rewrite Nat.add_0_r. exact Hacc.
  - cbn [fold_left List.length]. replace (k + S (List.length points))%nat
      with (S k + List.length points)%nat by lia.
    apply IH. clear IH.
    pose proof (dist_nonneg x y (Point.x point) (Point.y point)) as Hd.
    set (d := P5.dist x y (Point.x point) (Point.y point)) in *.
    destruct acc as [[m |] [s |]]; cbn [nearestInv distLt] in *.
    + destruct Hacc as (Hk & Hms & Pm & Ps). unfold Rltb.
      destruct (Rlt_dec d m); [repeat split; try assumption; lia || lra |].
      destruct (Rlt_dec d s); repeat split; try assumption; lia || lra.
    + destruct Hacc as (Hk & Hm & Pm). unfold Rltb.
      destruct (Rlt_dec d m); repeat split; try assumption; lia || lra.
    + contradiction.
    + subst k. repeat split; try assumption; lia || lra.
Qed.

Lemma nearestTwo_finite (P : R -> Prop) (x y : R) (points : list Point.t) :
  Forall (fun point => P (P5.dist x y (Point.x point) (Point.y point))) points ->
  (2 <= List.length points)%nat ->
  exists m s, nearestTwo x y points = (Finite m, Finite s) /\
              0 <= m <= s /\ P m /\ P s.
Proof.
  intros HP Hlen.
  pose proof (nearestTwo_step_inv P x y points HP 0 (Infinity, Infinity) eq_refl) as I.
  cbn [Nat.add] in I. unfold nearestTwo.
  match type of I with nearestInv _ _ ?r => destruct r as [[m |] [s |]] end;
    cbn [nearestInv] in I.
  - exists m, s. destruct I as (_ & Ims & Pm & Ps). auto.
  - lia.
  - contradiction.
  - lia.
Qed.

(** X9: with at least two points in the swarm, the voronoi kind returns a
    finite value that is never below -1, and, for a cell of the unit
    square, never above [10 * sqrt 2 + 1]; the call advances every
    point and touches nothing else of the state. *)
Theorem voronoi_value_range (st : State) (x y : R) (p : Pattern) (t : R) :
  type p = "voronoi"%string ->
  (2 <= List.length (voronoiPoints st))%nat ->
  exists v,
    getPatternValue st x y p t =
      (Some v, setVoronoiPoints st (List.map movePoint (voronoiPoints st))) /\
    -1 <= v /\
    (0 <= x / gridCols st <= 1 -> 0 <= y / gridRows st <= 1 ->
     v <= 10 * sqrt 2 + 1).
Proof.
  intros E Hlen. rewrite (getPatternValue_voronoi st x y p t E).
  unfold getVoronoiValue.
  set (nx := x / gridCols st). set (ny := y / gridRows st).
  set (points' := List.map movePoint (voronoiPoints st)).
  assert (Hlen' : (2 <= List.length points')%nat)
    by (unfold points'; rewrite length_map; exact Hlen).
  destruct (nearestTwo_finite (fun _ => True) nx ny points'
              ltac:(apply Forall_forall; auto) Hlen')
    as (m & s & N & Hms & _).
  pose proof (SIN_bound (t * speed p * 100)) as Hsin.
  rewrite N. cbn [fst snd option_map]. eexists. split; [reflexivity |].
  split; [lra |]. intros Hx Hy.
  destruct (nearestTwo_finite (fun d => d <= sqrt 2) nx ny points') as
    (m' & s' & N' & Hms' & Hm' & Hs'); [| exact Hlen' |].
  - apply Forall_forall. intros q Hq. unfold points' in Hq.
    apply in_map_iff in Hq. destruct Hq as (q0 & <- & _).
    destruct (movePoint_inUnitSquare q0) as [Qx Qy].
    apply dist_unit_square; assumption.
  - rewrite N in N'. injection N' as -> ->. lra.
Qed.

Lemma voronoi_value_range_witness :
  exists v st',
    getPatternValue voronoiState 3 4 (Build_Pattern "voronoi" 0.01 0.05 None) 1.6 =
    (Some v, st') /\ -1 <= v.
Proof.
  destruct (voronoi_value_range voronoiState 3 4
              (Build_Pattern "voronoi" 0.01 0.05 None) 1.6 eq_refl)
    as (v & E & B & _).
  - cbn [voronoiState voronoiPoints demoSwarm List.length repeat]. lia.
  - exists v. eexists. split; [exact E | exact B].
Defined.

Lemma movePoint_speeds (p : Point.t) :
  Rabs (Point.vx (movePoint p)) = Rabs (Point.vx p) /\
  Rabs (Point.vy (movePoint p)) = Rabs (Point.vy p).
Proof.
  unfold movePoint. cbn [Point.vx Point.vy].
  split; match goal with |- context [if ?c then _ else _] => destruct c end;
    try reflexivity;
    match goal with |- Rabs (?v * -1) = _ =>
      replace (v * -1) with (- v) by ring; apply Rabs_Ropp end.
Qed.

(** X10: the points of the swarm only ever reverse direction: after any
    sequence of calls of [getVoronoiValue], every point has the speed
    (absolute velocity along each axis) it started with. *)
Theorem voronoi_speeds_preserved (queries : list (R * R * R)) :
  forall points : list Point.t,
    speeds (swarmAfter queries points) = speeds points.
Proof.
  induction queries as [| [[x y] t] queries IH]; intros points; [reflexivity |].
  rewrite swarmAfter_cons, IH. unfold speeds. rewrite List.map_map.
  apply map_ext. intros p. destruct (movePoint_speeds p) as [-> ->]. reflexivity.
Qed.

Lemma swarmAfter_length (queries : list (R * R * R)) :
  forall points : list Point.t,
    List.length (swarmAfter queries points) = List.length points.
Proof.
  induction queries as [| [[x y] t] queries IH]; intros points; [reflexivity |].
  rewrite swarmAfter_cons, IH. apply length_map.
Qed.

(** ** Seeding of the swarm *)

Lemma initVoronoi_points (rnd : Random) (k : nat) :
  initVoronoi rnd k =
  (List.map (fun i =>
      Point.mk (rnd (k + 4 * i)%nat) (rnd (k + 4 * i + 1)%nat)
               ((rnd (k + 4 * i + 2)%nat - 0.5) * 0.02)
               ((rnd (k + 4 * i + 3)%nat - 0.5) * 0.02)) (seq 0 8),
   (k + 32)%nat).
Proof.
  unfold initVoronoi. cbn [seq fold_left List.map app].
  repeat (f_equal; try lia).
Qed.

(** X11: seeded from random numbers of [[0, 1)], [initVoronoi] consumes 32
    of them and builds eight points of the unit square whose velocity
    components are at most 0.01 in absolute value; from then on the swarm
    keeps its eight points, and every call of [getVoronoiValue] returns a
    finite number. *)
Theorem initVoronoi_swarm (rnd : Random) (k : nat) :
  unitStream rnd ->
  let points := fst (initVoronoi rnd k) in
  snd (initVoronoi rnd k) = (k + 32)%nat /\
  List.length points = 8%nat /\
  Forall inUnitSquare points /\
  Forall slowPoint points /\
  forall (queries : list (R * R * R)) (x y t : R),
    List.length (swarmAfter queries points) = 8%nat /\
    exists v, fst (getVoronoiValue (swarmAfter queries points) x y t) = Some v.
Proof.
  intros U points. subst points. rewrite initVoronoi_points. cbn [fst snd].
  split; [reflexivity |]. split; [reflexivity |].
  assert (I : Forall inUnitSquare
                (List.map (fun i =>
                   Point.mk (rnd (k + 4 * i)%nat) (rnd (k + 4 * i + 1)%nat)
                            ((rnd (k + 4 * i + 2)%nat - 0.5) * 0.02)
                            ((rnd (k + 4 * i + 3)%nat - 0.5) * 0.02)) (seq 0 8))).
  { apply Forall_forall. intros p Hp. apply in_map_iff in Hp.
    destruct Hp as (i & <- & _). unfold inUnitSquare. cbn [Point.x Point.y].
    pose proof (U (k + 4 * i)%nat). pose proof (U (k + 4 * i + 1)%nat). lra. }
  split; [exact I |]. split.
  - apply Forall_forall. intros p Hp. apply in_map_iff in Hp.
    destruct Hp as (i & <- & _). unfold slowPoint. cbn [Point.vx Point.vy].
    pose proof (U (k + 4 * i + 2)%nat). pose proof (U (k + 4 * i + 3)%nat).
    split; apply Rabs_le; lra.
  - intros queries x y t.
    pose proof (swarmAfter_length queries
                  (List.map (fun i =>
                     Point.mk (rnd (k + 4 * i)%nat) (rnd (k + 4 * i + 1)%nat)
                              ((rnd (k + 4 * i + 2)%nat - 0.5) * 0.02)
                              ((rnd (k + 4 * i + 3)%nat - 0.5) * 0.02)) (seq 0 8)))
      as L.
    rewrite length_map, length_seq in L. split; [exact L |].
    unfold getVoronoiValue.
    destruct (nearestTwo_finite (fun _ => True) x y
                (List.map movePoint (swarmAfter queries
                   (List.map (fun i =>
                      Point.mk (rnd (k + 4 * i)%nat) (rnd (k + 4 * i + 1)%nat)
                               ((rnd (k + 4 * i + 2)%nat - 0.5) * 0.02)
                               ((rnd (k + 4 * i + 3)%nat - 0.5) * 0.02)) (seq 0 8)))))
      as (m & s & N & _).
    + apply Forall_forall. auto.
    + rewrite length_map, L. lia.
    + rewrite N. cbn [fst]. eexists. reflexivity.
Qed.

Lemma initVoronoi_swarm_witness :
  unitStream (fun _ => 0.25) /\
  List.length (fst (initVoronoi (fun _ => 0.25) 0)) = 8%nat.
Proof.
  assert (U : unitStream (fun _ => 0.25)) by (intros k; lra).
  split; [exact U |].
  destruct (initVoronoi_swarm (fun _ => 0.25) 0 U) as (_ & L & _). exact L.
Defined.

(** ** Escape-time kinds: the first round *)

Lemma mandelbrotLoop_between (fuel : nat) :
  forall (i maxIter : nat) (zx zy cx cy : R),
    (i + fuel = maxIter)%nat ->
    (i <= mandelbrotLoop fuel i maxIter zx zy cx cy <= maxIter)%nat.
Proof.
  induction fuel as [| fuel IH]; intros i maxIter zx zy cx cy H; simpl.
  - lia.
  - destruct (Rgtb (zx * zx + zy * zy) 4); [lia |].
    pose proof (IH (S i) maxIter (zx * zx - zy * zy + cx) (2 * zx * zy + cy) cx cy
                  ltac:(lia)). lia.
Qed.

(** X14: with at least one round allowed, [mandelbrotIteration] never
    returns 0 (the orbit starts at the origin, which has not escaped), so
    the mandelbrot kind of js/scripts.js returns at least 0.525; and
    [juliaIteration] returns 0 exactly when the starting point already
    lies outside the circle of radius 2. *)
Theorem escape_time_first_round :
  (forall (cx cy : R) (maxIter : nat),
      (1 <= maxIter)%nat -> (1 <= mandelbrotIteration cx cy maxIter)%nat) /\
  (forall (zx zy : R) (c : R * R) (maxIter : nat),
      (1 <= maxIter)%nat ->
      (juliaIteration zx zy c maxIter = 0%nat <-> 4 < zx * zx + zy * zy)) /\
  (forall (st : State) (x y : R) (p : Pattern) (t : R),
      type p = "mandelbrot"%string ->
      exists v, getPatternValue st x y p t = (Some v, st) /\ 0.525 <= v <= 1).
Proof.
  assert (M : forall cx cy maxIter,
             (1 <= maxIter)%nat -> (1 <= mandelbrotIteration cx cy maxIter)%nat).
  { intros cx cy [| m] H; [lia |]. unfold mandelbrotIteration.
    cbn [mandelbrotLoop]. unfold Rgtb. rewrite Rltb_false by lra.
    pose proof (mandelbrotLoop_between m 1 (S m) (0 * 0 - 0 * 0 + cx)
                  (2 * 0 * 0 + cy) cx cy ltac:(lia)). lia. }
  split; [exact M |]. split.
  - intros zx zy c [| m] H; [lia |]. unfold juliaIteration.
    cbn [mandelbrotLoop]. unfold Rgtb, Rltb.
    destruct (Rlt_dec 4 (zx * zx + zy * zy)) as [L | L].
    + split; [intros _; exact L | reflexivity].
    + pose proof (mandelbrotLoop_between m 1 (S m) (zx * zx - zy * zy + fst c)
                    (2 * zx * zy + snd c) (fst c) (snd c) ltac:(lia)).
      split; [lia | contradiction].
  - intros st x y p t E. unfold getPatternValue. rewrite E.
    cbn [String.eqb Ascii.eqb Bool.eqb option_map].
    eexists. split; [reflexivity |]. unfold mandelbrotValue. cbv zeta.
    set (k := mandelbrotIteration _ _ 20).
    assert (K : (1 <= k <= 20)%nat).
    { split; [apply M; lia |]. unfold k, mandelbrotIteration.
      apply mandelbrotLoop_between. lia. }
    assert (K1 : 1 <= INR k) by (replace 1 with (INR 1) by reflexivity; apply le_INR; lia).
    assert (K2 : INR k <= 20).
    { replace 20 with (INR 20) by (rewrite INR_IZR_INZ; reflexivity).
      apply le_INR. lia. }
    replace (INR 20) with 20 by (rewrite INR_IZR_INZ; reflexivity). lra.
Qed.

Lemma escape_time_first_round_witness :
  (1 <= mandelbrotIteration 0.3 (-0.2) 20)%nat /\
  juliaIteration 2 2 (0.1, 0.1) 20 = 0%nat.
Proof.
  destruct escape_time_first_round as (A & B & _).
  split; [apply A; lia |]. apply B; [lia | lra].
Defined.

(** ** Cellular kind *)

Lemma cellTruthy_alive (g : Grid) (cellX cellY : Z) :
  wellFormed g -> cellTruthy g cellY cellX = alive g cellX cellY.
Proof.
  intros [Hrows Hcols]. unfold cellTruthy, alive.
  destruct (Z.ltb_spec cellY 0) as [Hy | Hy].
  { replace (0 <=? cellY)%Z with false by (symmetry; apply Z.leb_gt; lia).
    rewrite !andb_false_r. reflexivity. }
  destruct (nth_error g (Z.to_nat cellY)) as [row |] eqn:E.
  - rewrite (nth_error_nth g (Z.to_nat cellY) [] E).
    assert (Hrow : List.length row = 40%nat).
    { rewrite Forall_forall in Hcols. apply Hcols. eapply nth_error_In. exact E. }
    assert (Hy' : (cellY < 30)%Z).
    { assert (Z.to_nat cellY < List.length g)%nat
        by (apply nth_error_Some; congruence). lia. }
    destruct (Z.ltb_spec cellX 0) as [Hx | Hx].
    + replace (0 <=? cellX)%Z with false by (symmetry; apply Z.leb_gt; lia).
      reflexivity.
    + destruct (Z.ltb_spec cellX 40) as [Hx' | Hx'].
      * replace (0 <=? cellX)%Z with true by (symmetry; apply Z.leb_le; lia).
        replace (0 <=? cellY)%Z with true by (symmetry; apply Z.leb_le; lia).
        replace (cellY <? 30)%Z with true by (symmetry; apply Z.ltb_lt; lia).
        reflexivity.
      * rewrite andb_false_r. cbn [andb].
        apply nth_overflow. lia.
  - apply nth_error_None in E.
    replace (cellY <? 30)%Z with false by (symmetry; apply Z.ltb_ge; lia).
    rewrite andb_false_r. reflexivity.
Qed.

(** X12: on a 40x30 grid the cellular kind never raises.  It returns 1
    when the cell of the automaton under the grid cell is live and 0
    otherwise, after first advancing the automaton by one generation when
    [floor(time * speed * 100)] is a multiple of 30 (so, during such a
    frame, by one generation per evaluated cell) and leaving it alone
    otherwise; the grid it leaves is again 40x30. *)
Theorem cellular_kind_step (st : State) (x y : R) (p : Pattern) (t : R) :
  type p = "cellular"%string ->
  wellFormed (cellularGrid st) ->
  let grid := if cellularGate p t then nextGeneration (cellularGrid st)
              else cellularGrid st in
  let cellX := P5.floor (x / gridCols st * 40) in
  let cellY := P5.floor (y / gridRows st * 30) in
  getPatternValue st x y p t =
    (Some (if alive grid cellX cellY then 1 else 0), setCellularGrid st grid) /\
  wellFormed grid.
Proof.
  intros E W grid cellX cellY.
  assert (Wg : wellFormed grid).
  { unfold grid. destruct (cellularGate p t);
      [apply wellFormed_nextGeneration | exact W]. }
  split; [| exact Wg].
  rewrite (getPatternValue_cellular st x y p t grid E).
  - fold cellX cellY. rewrite (cellTruthy_alive grid cellX cellY Wg).
    destruct (alive grid cellX cellY); do 2 f_equal; lra.
  - unfold grid, cellularGate. destruct (Z.rem _ 30 =? 0)%Z; [| reflexivity].
    apply updateCellular_nextGeneration. apply W.
Qed.

Lemma cellular_kind_step_witness :
  exists v st',
    getPatternValue cellularState 1 0 (Build_Pattern "cellular" 0.01 0.05 None) 1 =
    (Some v, st') /\ wellFormed (cellularGrid st').
Proof.
  destruct (cellular_kind_step cellularState 1 0
              (Build_Pattern "cellular" 0.01 0.05 None) 1 eq_refl
              wellFormed_blinkerFlat) as [E W].
  eexists. eexists. split; [exact E | exact W].
Defined.

(** ** Seeding and running the automaton *)

Lemma setAt_replace_last {A : Type} (hole v r : A) (a : list A) :
  setAt hole (List.length a) v (a ++ [r]) = a ++ [v].
Proof.
  unfold setAt. rewrite length_app. cbn [List.length].
  replace (List.length a <? List.length a + 1)%nat with true
    by (symmetry; apply Nat.ltb_lt; lia).
  rewrite firstn_app, firstn_all, Nat.sub_diag. cbn [firstn].
  rewrite app_nil_r. f_equal. f_equal.
  replace (S (List.length a)) with (List.length (a ++ [r]))
    by (rewrite length_app; cbn [List.length]; lia).
  apply skipn_all.
Qed.

Lemma initRowLoop (rnd : Random) (G : Grid) (n : nat) :
  forall (x0 c : nat) (row : list bool),
    List.length row = x0 ->
    fold_left (initRowStep rnd (List.length G)) (seq x0 n) (G ++ [row], c) =
    (G ++ [row ++ List.map (fun x => Rgtb (rnd (c + (x - x0))%nat) 0.6) (seq x0 n)],
     (c + n)%nat).
Proof.
  induction n as [| n IH]; intros x0 c row Hrow.
  - cbn [seq fold_left List.map]. rewrite app_nil_r, Nat.add_0_r. reflexivity.
  - cbn [seq fold_left List.map]. unfold initRowStep at 2.
    rewrite nth_middle. subst x0. rewrite setAt_end, setAt_replace_last.
    rewrite IH by (rewrite length_app; cbn [List.length]; lia).
    rewrite <- app_assoc. cbn [app]. rewrite Nat.sub_diag, Nat.add_0_r.
    f_equal; [| lia]. do 4 f_equal.
    apply map_ext_in. intros x Hx. apply in_seq in Hx. do 2 f_equal. lia.
Qed.

Lemma fold_left_cons_step {A B : Type} (f : A -> B -> A) (b : B) (l : list B) (a : A) :
  fold_left f (b :: l) a = fold_left f l (f a b).
Proof. reflexivity. Qed.

Lemma initGridStep_row (rnd : Random) (G : Grid) (c : nat) :
  initGridStep rnd (G, c) (List.length G) =
  (G ++ [List.map (fun x => Rgtb (rnd (c + x)%nat) 0.6) (seq 0 40)], (c + 40)%nat).
Proof.
  unfold initGridStep. rewrite setAt_end.
  rewrite (initRowLoop rnd G 40 0 c [] eq_refl).
  rewrite app_nil_l. apply f_equal2; [| reflexivity]. apply f_equal.
  apply (f_equal (fun row => [row])).
  apply map_ext. intros x. rewrite Nat.sub_0_r. reflexivity.
Qed.

Lemma initGridLoop (rnd : Random) (n : nat) :
  forall (c : nat) (G : Grid),
    fold_left (initGridStep rnd) (seq (List.length G) n) (G, c) =
    (G ++ List.map (fun y =>
            List.map (fun x => Rgtb (rnd (c + 40 * (y - List.length G) + x)%nat) 0.6)
                     (seq 0 40))
          (seq (List.length G) n),
     (c + 40 * n)%nat).
Proof.
  induction n as [| n IH]; intros c G.
  - cbn [seq fold_left List.map].
    rewrite app_nil_r, Nat.mul_0_r, Nat.add_0_r. reflexivity.
  - rewrite <- cons_seq, List.map_cons, fold_left_cons_step.
    rewrite initGridStep_row.
    replace (S (List.length G))
      with (List.length (G ++ [List.map (fun x => Rgtb (rnd (c + x)%nat) 0.6) (seq 0 40)]))
      by (rewrite length_app; cbn [List.length]; lia).
    rewrite IH, <- app_assoc.
    apply f_equal2; [| lia]. apply f_equal. cbn [app]. apply f_equal2.
    + rewrite Nat.sub_diag. apply map_ext. intros x. do 2 f_equal. lia.
    + apply map_ext_in. intros y Hy. apply in_seq in Hy.
      rewrite length_app in *. cbn [List.length] in *.
      apply map_ext. intros x. do 2 f_equal. lia.
Qed.

Lemma wellFormed_seededGrid (rnd : Random) (k : nat) : wellFormed (seededGrid rnd k).
Proof.
  unfold wellFormed, seededGrid. split.
  - rewrite length_map, length_seq. reflexivity.
  - apply Forall_forall. intros row H. apply in_map_iff in H.
    destruct H as (y & <- & _). rewrite length_map, length_seq. reflexivity.
Qed.

Lemma updateCellularTimes_wellFormed (n : nat) :
  forall g : Grid,
    wellFormed g ->
    exists g', updateCellularTimes n g = Some g' /\ wellFormed g'.
Proof.
  induction n as [| n IH]; intros g W.
  - exists g. split; [reflexivity | exact W].
  - cbn [updateCellularTimes].
    rewrite (updateCellular_nextGeneration g (proj1 W)).
    apply IH. apply wellFormed_nextGeneration.
Qed.

(** X13: whatever numbers [Math.random] returns, [initCellular] draws
    1200 of them and builds a grid of 30 rows of 40 cells, a cell being
    live exactly when its number exceeds 0.6; after that any number of
    calls of [updateCellular] succeed (no row is ever missing) and leave
    a 40x30 grid. *)
Theorem initCellular_then_updates (rnd : Random) (k : nat) :
  initCellular rnd k = (seededGrid rnd k, (k + 1200)%nat) /\
  wellFormed (seededGrid rnd k) /\
  (forall x y : nat,
      (x < 40)%nat -> (y < 30)%nat ->
      alive (seededGrid rnd k) (Z.of_nat x) (Z.of_nat y) =
      Rgtb (rnd (k + 40 * y + x)%nat) 0.6) /\
  forall n : nat,
    exists g', updateCellularTimes n (fst (initCellular rnd k)) = Some g' /\
               wellFormed g'.
Proof.
  assert (E : initCellular rnd k = (seededGrid rnd k, (k + 1200)%nat)).
  { unfold initCellular.
    pose proof (initGridLoop rnd 30 k []) as L. cbn [List.length] in L.
    etransitivity; [exact L |]. rewrite app_nil_l.
    apply f_equal2; [| reflexivity]. unfold seededGrid.
    apply map_ext. intros y. apply map_ext. intros x.
    cbn [List.length]. do 2 f_equal. lia. }
  split; [exact E |]. split; [apply wellFormed_seededGrid |]. split.
  - intros x y Hx Hy. rewrite alive_in_range by lia.
    unfold seededGrid. rewrite !Nat2Z.id.
    rewrite nth_map_seq by exact Hy. rewrite nth_map_seq by exact Hx. reflexivity.
  - intros n. rewrite E. cbn [fst].
    apply updateCellularTimes_wellFormed, wellFormed_seededGrid.
Qed.

Lemma initCellular_then_updates_witness :
  alive (seededGrid (fun _ => 0.75) 0) (Z.of_nat 5) (Z.of_nat 7) = true.
Proof.
  destruct (initCellular_then_updates (fun _ => 0.75) 0) as (_ & _ & A & _).
  rewrite (A 5%nat 7%nat) by lia. apply Rltb_true. lra.
Defined.

(** ** Pointer interaction *)

Lemma clicks_out_of_reach (nx ny effect : R) (clickEffects : list Click.t) :
  outOfReach nx ny clickEffects ->
  fold_left (fun effect clickEffect =>
      let clickDistance :=
        P5.dist nx ny (Click.x clickEffect) (Click.y clickEffect) in
      if Rltb clickDistance (Click.radius clickEffect) then
        let clickStrength :=
          (1 - clickDistance / Click.radius clickEffect) * Click.strength clickEffect
          * (Click.life clickEffect / Click.maxLife clickEffect) in
        effect + sin (clickDistance * 15
                      - (Click.maxLife clickEffect - Click.life clickEffect) * 3)
                 * clickStrength
      else effect) clickEffects effect = effect.
Proof.
  induction 1 as [| e l He _ IH]; [reflexivity |].
  cbn [fold_left]. cbv zeta. rewrite Rltb_false by exact He. exact IH.
Qed.

(** X15: [applyInteractiveEffect] always returns a value of the unit
    interval; and for a cell that neither the pointer (distance at least
    the radius) nor any click effect reaches, it returns the base value
    clamped to the unit interval, so a base value of the unit interval
    comes back unchanged. *)
Theorem applyInteractiveEffect_range (st : State) (interactive : Interactive.t)
    (mousePos : R * R) (time : R) (clickEffects : list Click.t)
    (x y baseValue : R) :
  0 <= applyInteractiveEffect st interactive mousePos time clickEffects x y baseValue
    <= 1 /\
  (Interactive.radius interactive <=
     P5.dist (x / gridCols st) (y / gridRows st) (fst mousePos) (snd mousePos) ->
   outOfReach (x / gridCols st) (y / gridRows st) clickEffects ->
   applyInteractiveEffect st interactive mousePos time clickEffects x y baseValue =
     P5.constrain baseValue 0 1 /\
   (0 <= baseValue <= 1 ->
    applyInteractiveEffect st interactive mousePos time clickEffects x y baseValue =
      baseValue)).
Proof.
  split.
  - unfold applyInteractiveEffect. apply constrain_bounds. lra.
  - intros Hm Hc.
    assert (E : applyInteractiveEffect st interactive mousePos time clickEffects
                  x y baseValue = P5.constrain baseValue 0 1).
    { unfold applyInteractiveEffect. cbv zeta.
      rewrite (Rltb_false _ _ Hm). rewrite clicks_out_of_reach by exact Hc.
      f_equal. lra. }
    split; [exact E |]. intros Hb. rewrite E. apply constrain_inside. exact Hb.
Qed.

Lemma applyInteractiveEffect_range_witness :
  applyInteractiveEffect demoState (Interactive.mk true "ripple" 1.0 0.2 true)
    (0, 0) 1.6 [] 80 0 0.25 = 0.25.
Proof.
  destruct (applyInteractiveEffect_range demoState
              (Interactive.mk true "ripple" 1.0 0.2 true) (0, 0) 1.6 [] 80 0 0.25)
    as [_ H].
  apply H; [| constructor | lra].
  cbn [demoState gridCols gridRows Interactive.radius fst snd].
  replace (80 / 80) with 1 by lra. replace (0 / 50) with 0 by lra.
  unfold P5.dist.
  replace ((0 - 1) * (0 - 1) + (0 - 0) * (0 - 0)) with 1 by lra.
  rewrite sqrt_1. lra.
Defined.

Lemma constrain_monotone (a b : R) :
  a <= b -> P5.constrain a 0 1 <= P5.constrain b 0 1.
Proof.
  intros H. unfold P5.constrain, Rmax, Rmin.
  destruct (Rle_dec a 1), (Rle_dec b 1);
    repeat match goal with |- context [Rle_dec ?u ?v] => destruct (Rle_dec u v) end;
    lra.
Qed.

(** X16: with no click effect in reach, a strength that is not negative
    and a positive radius, the 'attract' effect never lowers a cell and
    the 'repel' effect never raises it: the result is the clamped base
    value moved up (attract) or down (repel) by at most half the
    strength. *)
Theorem attract_raises_repel_lowers (st : State) (interactive : Interactive.t)
    (mousePos : R * R) (time : R) (clickEffects : list Click.t)
    (x y baseValue : R) :
  outOfReach (x / gridCols st) (y / gridRows st) clickEffects ->
  0 <= Interactive.strength interactive ->
  0 < Interactive.radius interactive ->
  let result :=
    applyInteractiveEffect st interactive mousePos time clickEffects x y baseValue in
  (Interactive.type interactive = "attract"%string ->
   P5.constrain baseValue 0 1 <= result <=
   P5.constrain (baseValue + 0.5 * Interactive.strength interactive) 0 1) /\
  (Interactive.type interactive = "repel"%string ->
   P5.constrain (baseValue - 0.5 * Interactive.strength interactive) 0 1 <= result <=
   P5.constrain baseValue 0 1).
Proof.
  intros Hc Hs Hr result. subst result. unfold applyInteractiveEffect. cbv zeta.
  rewrite clicks_out_of_reach by exact Hc.
  set (d := P5.dist (x / gridCols st) (y / gridRows st) (fst mousePos) (snd mousePos)).
  assert (Hd : 0 <= d) by apply dist_nonneg.
  unfold Rltb. destruct (Rlt_dec d (Interactive.radius interactive)) as [L | L].
  - assert (Q : 0 <= d / Interactive.radius interactive < 1).
    { split.
      - unfold Rdiv. apply Rmult_le_pos; [exact Hd |].
        left. apply Rinv_0_lt_compat. exact Hr.
      - apply Rmult_lt_reg_r with (Interactive.radius interactive); [exact Hr |].
        unfold Rdiv. rewrite Rmult_assoc, Rinv_l by lra. lra. }
    set (q := d / Interactive.radius interactive) in *.
    assert (S : 0 <= (1 - q) * Interactive.strength interactive
                <= Interactive.strength interactive) by nra.
    split; intros ->; cbn [String.eqb Ascii.eqb Bool.eqb];
      split; apply constrain_monotone; lra.
  - split; intros _; split; apply constrain_monotone; lra.
Qed.

Lemma attract_raises_repel_lowers_witness :
  P5.constrain 0.25 0 1 <=
  applyInteractiveEffect demoState (Interactive.mk true "attract" 1.0 0.2 true)
    (0, 0) 1.6 [] 0 0 0.25.
Proof.
  destruct (attract_raises_repel_lowers demoState
              (Interactive.mk true "attract" 1.0 0.2 true) (0, 0) 1.6 [] 0 0 0.25)
    as [A _].
  - constructor.
  - cbn [Interactive.strength]. lra.
  - cbn [Interactive.radius]. lra.
  - apply A. reflexivity.
Defined.

Lemma Rgeb_true (a b : R) : b <= a -> Rgeb a b = true.
Proof. intros H. unfold Rgeb. apply Rleb_true. exact H. Qed.

(** X17: while interaction is enabled, [mouseMoved] always leaves the
    pointer position in the unit square (it is clamped), and it leaves it
    untouched while interaction is disabled.  With clicks enabled too, a
    press inside the grid adds exactly one effect, placed where
    [mouseMoved] puts the pointer for the same mouse coordinates, with
    life and maximal life 3.0 and the strength and radius of the
    settings; a press outside the grid adds nothing. *)
Theorem pointer_position_and_click (interactive : Interactive.t)
    (gridCols gridRows gridScale width height mouseX mouseY : R)
    (mousePos : R * R) (clickEffects : list Click.t) :
  let normalizedX :=
    (mouseX - (width - gridCols * 8 * gridScale) / 2) / (gridCols * 8 * gridScale) in
  let normalizedY :=
    (mouseY - (height - gridRows * 14 * gridScale) / 2) / (gridRows * 14 * gridScale) in
  let moved := mouseMoved interactive gridCols gridRows gridScale width height
                          mouseX mouseY mousePos in
  let pressed := mousePressed interactive gridCols gridRows gridScale width height
                              mouseX mouseY clickEffects in
  (Interactive.enabled interactive = false -> moved = mousePos /\ pressed = clickEffects) /\
  (Interactive.enabled interactive = true ->
   0 <= fst moved <= 1 /\ 0 <= snd moved <= 1 /\
   (Interactive.clickEnabled interactive = true ->
    0 <= normalizedX <= 1 -> 0 <= normalizedY <= 1 ->
    moved = (normalizedX, normalizedY) /\
    pressed = clickEffects ++
              [Click.mk (fst moved) (snd moved) 3.0 3.0
                        (Interactive.strength interactive)
                        (Interactive.radius interactive)]) /\
   (~ (0 <= normalizedX <= 1 /\ 0 <= normalizedY <= 1) -> pressed = clickEffects)).
Proof.
  intros normalizedX normalizedY moved pressed.
  subst moved pressed. unfold mouseMoved, mousePressed, baseCharWidth, baseCharHeight.
  cbv zeta. fold normalizedX normalizedY. split.
  - intros ->. cbn [andb]. split; reflexivity.
  - intros ->. cbn [andb fst snd].
    split; [apply constrain_bounds; lra |].
    split; [apply constrain_bounds; lra |]. split.
    + intros -> Hx Hy. rewrite !constrain_inside by assumption.
      rewrite !Rgeb_true, !Rleb_true by lra. cbn [andb]. split; reflexivity.
    + intros N. destruct (Interactive.clickEnabled interactive); [| reflexivity].
      unfold Rgeb, Rleb.
      destruct (Rle_dec 0 normalizedX), (Rle_dec normalizedX 1),
               (Rle_dec 0 normalizedY), (Rle_dec normalizedY 1);
        cbn [andb]; try reflexivity.
      exfalso. apply N. lra.
Qed.

Lemma pointer_position_and_click_witness :
  mousePressed (Interactive.mk true "ripple" 1.0 0.2 true)
               80 50 1 640 700 320 350 [] =
  [Click.mk (fst (mouseMoved (Interactive.mk true "ripple" 1.0 0.2 true)
                             80 50 1 640 700 320 350 (0.5, 0.5)))
            (snd (mouseMoved (Interactive.mk true "ripple" 1.0 0.2 true)
                             80 50 1 640 700 320 350 (0.5, 0.5)))
            3.0 3.0 1.0 0.2].
Proof.
  destruct (pointer_position_and_click (Interactive.mk true "ripple" 1.0 0.2 true)
              80 50 1 640 700 320 350 (0.5, 0.5) []) as [_ H].
  destruct (H eq_refl) as (_ & _ & P & _).
  destruct (P eq_refl) as [_ E]; [lra | lra |]. exact E.
Defined.

(** ** Life cycle of the click effects under any history *)

Lemma update_keeps_live (l : list Click.t) :
  Forall liveEffect l -> Forall liveEffect (updateInteractiveEffects l).
Proof.
  intros H. apply Forall_forall. intros e' He'.
  unfold updateInteractiveEffects in He'. apply filter_In in He'.
  destruct He' as [Hin Hpos]. apply in_map_iff in Hin.
  destruct Hin as (e & <- & Hin). rewrite Forall_forall in H.
  destruct (H e Hin) as (Hl & Hm & Hx & Hy).
  unfold Rgtb in Hpos. apply Rltb_spec in Hpos.
  unfold liveEffect, decay in *.
  cbn [Click.life Click.maxLife Click.x Click.y] in *. repeat split; lra.
Qed.

Lemma mousePressed_keeps_live (interactive : Interactive.t)
    (cols rows gridScale width height mouseX mouseY : R) (l : list Click.t) :
  Forall liveEffect l ->
  Forall liveEffect
    (mousePressed interactive cols rows gridScale width height mouseX mouseY l).
Proof.
  intros H. unfold mousePressed.
  destruct (Interactive.enabled interactive && Interactive.clickEnabled interactive);
    [| exact H].
  cbv zeta.
  match goal with |- context [Rgeb ?a 0 && Rleb ?a 1 && Rgeb ?b 0 && Rleb ?b 1] =>
    set (nx := a); set (ny := b) end.
  unfold Rgeb, Rleb.
  destruct (Rle_dec 0 nx), (Rle_dec nx 1), (Rle_dec 0 ny), (Rle_dec ny 1);
    cbn [andb]; try exact H.
  apply Forall_app. split; [exact H |]. constructor; [| constructor].
  unfold liveEffect. cbn [Click.life Click.maxLife Click.x Click.y].
  repeat split; lra.
Qed.

Lemma iter_update_drains (n : nat) (l : list Click.t) :
  (0 < n)%nat ->
  Forall (fun e => Click.life e <= INR n * 0.016) l ->
  Nat.iter n updateInteractiveEffects l = [].
Proof.
  intros Hn. induction 1 as [| e l He _ IH].
  - apply iter_update_nil.
  - change (e :: l) with ([e] ++ l).
    rewrite iter_update_app, IH, app_nil_r.
    apply iter_update_expired; assumption.
Qed.

Lemma handleAll_frames (n : nat) (l : list Click.t) :
  handleAll (repeat Frame n) l = Nat.iter n updateInteractiveEffects l.
Proof.
  revert l. induction n as [| n IH]; intros l; [reflexivity |].
  rewrite Nat.iter_succ_r. cbn [repeat]. unfold handleAll in *.
  cbn [fold_left handle]. apply IH.
Qed.

Lemma handleAll_live (events : list Event) :
  forall l : list Click.t,
    Forall liveEffect l -> Forall liveEffect (handleAll events l).
Proof.
  induction events as [| e events IH]; intros l H; [exact H |].
  unfold handleAll. cbn [fold_left]. apply IH.
  destruct e; cbn [handle];
    [apply mousePressed_keeps_live | apply update_keeps_live]; exact H.
Qed.

Lemma handle_length (l : list Click.t) (e : Event) :
  (List.length (handle l e) <= List.length l + presses [e])%nat.
Proof.
  destruct e as [interactive cols rows gridScale width height mouseX mouseY |];
    cbn [handle presses filter List.length].
  - destruct (mousePressed_cases interactive cols rows gridScale
                width height mouseX mouseY l) as [E | (x & y & E)]; rewrite E.
    + lia.
    + rewrite length_app. cbn [List.length]. lia.
  - unfold updateInteractiveEffects.
    pose proof (filter_length_le (fun effect => Rgtb (Click.life effect) 0)
                  (List.map decay l)) as F.
    rewrite length_map in F. lia.
Qed.

Lemma handleAll_length (events : list Event) :
  forall l : list Click.t,
    (List.length (handleAll events l) <= List.length l + presses events)%nat.
Proof.
  induction events as [| e events IH]; intros l; [cbn; lia |].
  unfold handleAll. cbn [fold_left]. fold (handleAll events (handle l e)).
  pose proof (IH (handle l e)) as A. pose proof (handle_length l e) as B.
  assert (P : presses (e :: events) = (presses [e] + presses events)%nat).
  { unfold presses. cbn [filter]. destruct e; cbn [List.length]; lia. }
  lia.
Qed.

(** X18: whatever the history of presses and frames, every active click
    effect has a life in (0, 3], maximal life 3 and a position in the
    unit square, and the number of active effects never exceeds the
    number of presses; and 188 frames without a press always empty the
    set of active effects. *)
Theorem click_effects_bounded_and_drained (events : list Event) :
  Forall liveEffect (handleAll events []) /\
  (List.length (handleAll events []) <= presses events)%nat /\
  handleAll (events ++ repeat Frame 188) [] = [].
Proof.
  assert (I : Forall liveEffect (handleAll events []))
    by (apply handleAll_live; constructor).
  split; [exact I |]. split; [apply (handleAll_length events []) |].
  unfold handleAll. rewrite fold_left_app. fold (handleAll events []).
  fold (handleAll (repeat Frame 188) (handleAll events [])).
  rewrite handleAll_frames. apply iter_update_drains; [lia |].
  apply Forall_forall. intros e He. rewrite Forall_forall in I.
  destruct (I e He) as ([_ Hl] & _).
  replace (INR 188) with 188 by (rewrite INR_IZR_INZ; reflexivity). lra.
Qed.

(** ** The frame loop and the text export *)

Lemma cells_stateless (sk : Sketch.t) (sx sy cw chh cs : R) (st : State) (x y : nat) :
  statelessSketch sk ->
  exists call,
    drawCell sk sx sy cw chh cs st x y = (Some call, st) /\
    exportCell sk st x y = (Some (DrawCall.char call), st).
Proof.
  intros [H1 H2].
  destruct (getPatternValue_stateless st (INR x) (INR y) _ (Sketch.time sk) H1)
    as [v1 E1].
  unfold drawCell, exportCell. cbv zeta. rewrite E1.
  destruct (Settings.pattern2Enabled (Sketch.settings sk)) eqn:En.
  - destruct (getPatternValue_stateless st (INR x) (INR y) _ (Sketch.time sk)
                (H2 eq_refl)) as [v2 E2].
    rewrite E2. eexists. split; reflexivity.
  - eexists. split; reflexivity.
Qed.

Lemma drawLoop_rows (cell : State -> nat -> nat -> option DrawCall.t * State)
    (st : State) (x : nat) (f : nat -> DrawCall.t) :
  (forall y, cell st x y = (Some (f y), st)) ->
  forall (rows k : nat) (calls : list DrawCall.t),
    fold_left (drawStep cell x) (seq k rows) (Some (st, calls)) =
    Some (st, calls ++ List.map f (seq k rows)).
Proof.
  intros H. induction rows as [| rows IH]; intros k calls.
  - cbn [seq fold_left List.map]. rewrite app_nil_r. reflexivity.
  - cbn [seq fold_left List.map]. unfold drawStep at 2. rewrite H, IH, <- app_assoc.
    reflexivity.
Qed.

Lemma drawLoop_cols (cell : State -> nat -> nat -> option DrawCall.t * State)
    (st : State) (f : nat -> nat -> DrawCall.t) (rows : nat) :
  (forall x y, cell st x y = (Some (f x y), st)) ->
  forall (cols k : nat) (calls : list DrawCall.t),
    fold_left (fun acc x => fold_left (drawStep cell x) (seq 0 rows) acc)
              (seq k cols) (Some (st, calls)) =
    Some (st, calls ++ flat_map (fun x => List.map (f x) (seq 0 rows)) (seq k cols)).
Proof.
  intros H. induction cols as [| cols IH]; intros k calls.
  - cbn [seq fold_left flat_map]. rewrite app_nil_r. reflexivity.
  - rewrite <- cons_seq. cbn [fold_left flat_map].
    rewrite (drawLoop_rows cell st k (f k) (H k)), IH, <- app_assoc. reflexivity.
Qed.

Lemma appendChar_app (textContent : list Char) (char : option Char) :
  appendChar textContent char = textContent ++ appendChar [] char.
Proof. destruct char; reflexivity. Qed.

Lemma exportLoop_cols (sk : Sketch.t) (st : State) (y : nat) (g : nat -> option Char) :
  (forall x, exportCell sk st x y = (Some (g x), st)) ->
  forall (cols k : nat) (textContent : list Char),
    fold_left (exportStep sk y) (seq k cols) (Some (st, textContent)) =
    Some (st, textContent ++ flat_map (fun x => appendChar [] (g x)) (seq k cols)).
Proof.
  intros H. induction cols as [| cols IH]; intros k textContent.
  - cbn [seq fold_left flat_map]. rewrite app_nil_r. reflexivity.
  - cbn [seq fold_left flat_map]. unfold exportStep at 2.
    rewrite H, IH, appendChar_app, <- app_assoc. reflexivity.
Qed.

Lemma exportLoop_rows (sk : Sketch.t) (st : State) (g : nat -> nat -> option Char)
    (cols : nat) :
  (forall x y, exportCell sk st x y = (Some (g x y), st)) ->
  forall (rows k : nat) (textContent : list Char),
    fold_left (fun acc y =>
      match fold_left (exportStep sk y) (seq 0 cols) acc with
      | None => None
      | Some (st, textContent) => Some (st, textContent ++ [newline])
      end) (seq k rows) (Some (st, textContent)) =
    Some (st, textContent ++
              flat_map (fun y => flat_map (fun x => appendChar [] (g x y)) (seq 0 cols)
                                 ++ [newline]) (seq k rows)).
Proof.
  intros H. induction rows as [| rows IH]; intros k textContent.
  - cbn [seq fold_left flat_map]. rewrite app_nil_r. reflexivity.
  - rewrite <- cons_seq. cbn [fold_left flat_map].
    rewrite (exportLoop_cols sk st k (fun x => g x k) (fun x => H x k)).
    rewrite IH, <- !app_assoc. reflexivity.
Qed.

Lemma stateless_frame_and_export (sk : Sketch.t) :
  statelessSketch sk ->
  let cols := loopCount (gridCols (Sketch.state sk)) in
  let rows := loopCount (gridRows (Sketch.state sk)) in
  exists (sk' : Sketch.t) (cellCall : nat -> nat -> DrawCall.t),
    draw sk = Some (sk', flat_map (fun x => List.map (cellCall x) (seq 0 rows))
                                  (seq 0 cols)) /\
    Sketch.state sk' = Sketch.state sk /\
    Sketch.time sk' = Sketch.time sk + 0.016 * Sketch.speedMultiplier sk /\
    exportTextFile sk' =
    Some (Sketch.state sk,
          flat_map (fun y =>
            flat_map (fun x => appendChar [] (DrawCall.char (cellCall x y)))
                     (seq 0 cols) ++ [newline]) (seq 0 rows)).
Proof.
  intros H cols rows. unfold draw. cbv zeta.
  set (sk1 := Sketch.mk (Sketch.state sk) _ _ _ _ _ _ _ _ _ _).
  assert (H1 : statelessSketch sk1) by exact H.
  match goal with
  | |- context [drawCell sk1 ?sx ?sy ?cw ?chh ?cs] =>
      set (cell := drawCell sk1 sx sy cw chh cs)
  end.
  set (f := fun x y => callOf (cell (Sketch.state sk) x y)).
  assert (F : forall x y, cell (Sketch.state sk) x y = (Some (f x y), Sketch.state sk) /\
                          exportCell sk1 (Sketch.state sk) x y =
                          (Some (DrawCall.char (f x y)), Sketch.state sk)).
  { intros x y. unfold f, cell.
    match goal with
    | |- context [drawCell sk1 ?sx ?sy ?cw ?chh ?cs] =>
        destruct (cells_stateless sk1 sx sy cw chh cs (Sketch.state sk) x y H1)
          as (call & D & E)
    end.
    rewrite D. unfold callOf. cbn [fst]. split; [reflexivity | exact E]. }
  exists sk1, f.
  fold cols rows.
  rewrite (drawLoop_cols cell (Sketch.state sk) f rows (fun x y => proj1 (F x y))).
  cbn [app]. split; [reflexivity |]. split; [reflexivity |]. split; [reflexivity |].
  unfold exportTextFile.
  change (Sketch.state sk1) with (Sketch.state sk). fold cols rows.
  rewrite (exportLoop_rows sk1 (Sketch.state sk) (fun x y => DrawCall.char (f x y)) cols
             (fun x y => proj2 (F x y))).
  reflexivity.
Qed.

(** X19: when the active patterns are of stateless kinds, a frame never
    fails and leaves the pattern state alone; it draws the cells column
    by column, and a text export made after the frame writes, row by row
    with a line break after each row, exactly the characters that the
    frame drew, cell for cell. *)
Theorem export_text_matches_frame (sk : Sketch.t) :
  statelessSketch sk ->
  let cols := loopCount (gridCols (Sketch.state sk)) in
  let rows := loopCount (gridRows (Sketch.state sk)) in
  exists (sk' : Sketch.t) (cellCall : nat -> nat -> DrawCall.t),
    draw sk = Some (sk', flat_map (fun x => List.map (cellCall x) (seq 0 rows))
                                  (seq 0 cols)) /\
    Sketch.state sk' = Sketch.state sk /\
    Sketch.time sk' = Sketch.time sk + 0.016 * Sketch.speedMultiplier sk /\
    exportTextFile sk' =
    Some (Sketch.state sk,
          flat_map (fun y =>
            flat_map (fun x => appendChar [] (DrawCall.char (cellCall x y)))
                     (seq 0 cols) ++ [newline]) (seq 0 rows)).
Proof. exact (stateless_frame_and_export sk). Qed.

Lemma export_text_matches_frame_witness :
  statelessSketch demoSketch /\
  exists (sk' : Sketch.t) (calls : list DrawCall.t),
    draw demoSketch = Some (sk', calls) /\
    Sketch.state sk' = Sketch.state demoSketch.
Proof.
  assert (H : statelessSketch demoSketch).
  { split; [simpl; auto | intros E; discriminate E]. }
  split; [exact H |].
  destruct (export_text_matches_frame demoSketch H) as (sk' & f & D & S & _).
  exists sk'. eexists. split; [exact D | exact S].
Defined.

(** ** Frames on any pattern kinds *)

Lemma glyph_in_ramp {A : Type} (value : R) (ramp : list A) :
  ramp <> [] -> exists c, glyph value ramp = Some c /\ In c ramp.
Proof.
  intros Hne.
  assert (Hlen : (0 < List.length ramp)%nat)
    by (destruct ramp; [congruence | simpl; lia]).
  unfold glyph.
  destruct (rampAt_in_range ramp (charIndex value ramp)) as [c E].
  - unfold charIndex.
    pose proof (constrainZ_bounds
                  (P5.floor (P5.map value 0 1 0
                               (IZR (Z.of_nat (List.length ramp) - 1))))
                  0 (Z.of_nat (List.length ramp) - 1) ltac:(lia)).
    lia.
  - exists c. split; [exact E |]. unfold rampAt in E.
    destruct (charIndex value ramp <? 0)%Z; [discriminate E |].
    eapply nth_error_In. exact E.
Qed.

Lemma getPatternValue_other_kinds (st : State) (x y : R) (p : Pattern) (t : R) :
  type p <> "cellular"%string -> type p <> "voronoi"%string ->
  exists v, getPatternValue st x y p t = (Some v, st).
Proof.
  intros Hc Hv. apply String.eqb_neq in Hc, Hv.
  unfold getPatternValue. rewrite Hc, Hv.
  repeat match goal with
         | |- context [if String.eqb ?a ?b then _ else _] => destruct (String.eqb a b)
         end; eexists; reflexivity.
Qed.

Lemma getPatternValue_ready (st : State) (x y : R) (p : Pattern) (t : R) :
  readyState st ->
  exists v st', getPatternValue st x y p t = (Some v, st') /\ readyState st'.
Proof.
  intros [W V].
  destruct (string_dec (type p) "cellular") as [Ec | Ec].
  { set (grid := if (Z.rem (P5.floor (t * speed p * 100)) 30 =? 0)%Z
                 then nextGeneration (cellularGrid st) else cellularGrid st).
    rewrite (getPatternValue_cellular st x y p t grid Ec).
    - eexists. eexists. split; [reflexivity |]. split; [| exact V].
      cbn [setCellularGrid cellularGrid]. unfold grid.
      destruct (Z.rem _ 30 =? 0)%Z; [apply wellFormed_nextGeneration | exact W].
    - unfold grid. destruct (Z.rem _ 30 =? 0)%Z; [| reflexivity].
      apply updateCellular_nextGeneration. apply W. }
  destruct (string_dec (type p) "voronoi") as [Ev | Ev].
  { rewrite (getPatternValue_voronoi st x y p t Ev). unfold getVoronoiValue.
    destruct (nearestTwo_finite (fun _ => True) (x / gridCols st) (y / gridRows st)
                (List.map movePoint (voronoiPoints st)))
      as (m & s & N & _).
    - apply Forall_forall. auto.
    - rewrite length_map. exact V.
    - rewrite N. cbn [fst snd option_map]. eexists. eexists.
      split; [reflexivity |]. split; [exact W |].
      cbn [setVoronoiPoints voronoiPoints]. rewrite length_map. exact V. }
  destruct (getPatternValue_other_kinds st x y p t Ec Ev) as [v E].
  exists v, st. split; [exact E | split; assumption].
Qed.

Lemma drawCell_ready (sk : Sketch.t) (sx sy cw chh cs : R) (st : State) (x y : nat) :
  Sketch.currentRamp1 sk <> [] -> Sketch.currentRamp2 sk <> [] ->
  readyState st ->
  exists call st',
    drawCell sk sx sy cw chh cs st x y = (Some call, st') /\
    readyState st' /\ rampGlyph sk call.
Proof.
  intros R1 R2 H.
  destruct (getPatternValue_ready st (INR x) (INR y)
              (Slot.pattern (Settings.pattern1 (Sketch.settings sk)))
              (Sketch.time sk) H) as (v1 & st1 & E1 & H1).
  unfold drawCell. cbv zeta. rewrite E1.
  destruct (Settings.pattern2Enabled (Sketch.settings sk)).
  - destruct (getPatternValue_ready st1 (INR x) (INR y)
                (Slot.pattern (Settings.pattern2 (Sketch.settings sk)))
                (Sketch.time sk) H1) as (v2 & st2 & E2 & H2).
    rewrite E2. eexists. eexists. split; [reflexivity |]. split; [exact H2 |].
    unfold rampGlyph. cbn [DrawCall.char].
    destruct (Rltb (v1 * v2 * Settings.blendAmount (Sketch.settings sk)) 0.5).
    + destruct (glyph_in_ramp
                  (if Interactive.enabled (Settings.interactive (Sketch.settings sk))
                   then applyInteractiveEffect st2
                          (Settings.interactive (Sketch.settings sk))
                          (Sketch.mousePos sk) (Sketch.time sk) (Sketch.clickEffects sk)
                          (INR x) (INR y)
                          (blendValues v1 v2 (Settings.blendMode (Sketch.settings sk))
                             (Settings.blendAmount (Sketch.settings sk)))
                   else blendValues v1 v2 (Settings.blendMode (Sketch.settings sk))
                          (Settings.blendAmount (Sketch.settings sk)))
                  (Sketch.currentRamp1 sk) R1) as (c & G & I).
      exists c. split; [exact G | left; exact I].
    + destruct (glyph_in_ramp
                  (if Interactive.enabled (Settings.interactive (Sketch.settings sk))
                   then applyInteractiveEffect st2
                          (Settings.interactive (Sketch.settings sk))
                          (Sketch.mousePos sk) (Sketch.time sk) (Sketch.clickEffects sk)
                          (INR x) (INR y)
                          (blendValues v1 v2 (Settings.blendMode (Sketch.settings sk))
                             (Settings.blendAmount (Sketch.settings sk)))
                   else blendValues v1 v2 (Settings.blendMode (Sketch.settings sk))
                          (Settings.blendAmount (Sketch.settings sk)))
                  (Sketch.currentRamp2 sk) R2) as (c & G & I).
      exists c. split; [exact G | right; exact I].
  - eexists. eexists. split; [reflexivity |]. split; [exact H1 |].
    unfold rampGlyph. cbn [DrawCall.char].
    destruct (glyph_in_ramp
                (if Interactive.enabled (Settings.interactive (Sketch.settings sk))
                 then applyInteractiveEffect st1
                        (Settings.interactive (Sketch.settings sk))
                        (Sketch.mousePos sk) (Sketch.time sk) (Sketch.clickEffects sk)
                        (INR x) (INR y) v1
                 else v1)
                (Sketch.currentRamp1 sk) R1) as (c & G & I).
    exists c. split; [exact G | left; exact I].
Qed.

Lemma drawLoop_rows_ready (sk : Sketch.t)
    (cell : State -> nat -> nat -> option DrawCall.t * State) (x : nat) :
  (forall st y, readyState st ->
     exists call st', cell st x y = (Some call, st') /\
                      readyState st' /\ rampGlyph sk call) ->
  forall (rows k : nat) (st : State) (calls : list DrawCall.t),
    readyState st -> Forall (rampGlyph sk) calls ->
    exists st' calls',
      fold_left (drawStep cell x) (seq k rows) (Some (st, calls)) = Some (st', calls') /\
      readyState st' /\ Forall (rampGlyph sk) calls' /\
      List.length calls' = (List.length calls + rows)%nat.
Proof.
  intros H. induction rows as [| rows IH]; intros k st calls Hs Hc.
  - exists st, calls. cbn [seq fold_left].
    split; [reflexivity |]. split; [exact Hs |]. split; [exact Hc | lia].
  - cbn [seq fold_left]. unfold drawStep at 2.
    destruct (H st k Hs) as (call & st1 & E & Hs1 & Hg). rewrite E.
    destruct (IH (S k) st1 (calls ++ [call]) Hs1) as (st' & calls' & F & Hs' & Hc' & L).
    + apply Forall_app. split; [exact Hc | constructor; [exact Hg | constructor]].
    + exists st', calls'. rewrite length_app in L. cbn [List.length] in L.
      split; [exact F |]. split; [exact Hs' |]. split; [exact Hc' | lia].
Qed.

Lemma drawLoop_cols_ready (sk : Sketch.t)
    (cell : State -> nat -> nat -> option DrawCall.t * State) (rows : nat) :
  (forall st x y, readyState st ->
     exists call st', cell st x y = (Some call, st') /\
                      readyState st' /\ rampGlyph sk call) ->
  forall (cols k : nat) (st : State) (calls : list DrawCall.t),
    readyState st -> Forall (rampGlyph sk) calls ->
    exists st' calls',
      fold_left (fun acc x => fold_left (drawStep cell x) (seq 0 rows) acc)
                (seq k cols) (Some (st, calls)) = Some (st', calls') /\
      readyState st' /\ Forall (rampGlyph sk) calls' /\
      List.length calls' = (List.length calls + cols * rows)%nat.
Proof.
  intros H. induction cols as [| cols IH]; intros k st calls Hs Hc.
  - exists st, calls. cbn [seq fold_left].
    split; [reflexivity |]. split; [exact Hs |]. split; [exact Hc | lia].
  - rewrite <- cons_seq. cbn [fold_left].
    destruct (drawLoop_rows_ready sk cell k (fun st y => H st k y) rows 0 st calls Hs Hc)
      as (st1 & calls1 & E & Hs1 & Hc1 & L1).
    rewrite E.
    destruct (IH (S k) st1 calls1 Hs1 Hc1) as (st' & calls' & F & Hs' & Hc' & L).
    exists st', calls'.
    split; [exact F |]. split; [exact Hs' |]. split; [exact Hc' | lia].
Qed.

(** X20: once the cellular grid is 40x30 and the swarm has at least two
    points (as [setup] leaves them), a frame completes whatever the two
    pattern kinds and the settings are: with two ramps that are not
    empty, it draws exactly one character per cell of the grid, each a
    character of one of the two ramps (pattern values outside the unit
    interval are clamped to the ends of the ramp), and it leaves a 40x30
    grid and a swarm of at least two points for the next frame. *)
Theorem frame_completes (sk : Sketch.t) :
  readyState (Sketch.state sk) ->
  Sketch.currentRamp1 sk <> [] -> Sketch.currentRamp2 sk <> [] ->
  exists (sk' : Sketch.t) (calls : list DrawCall.t),
    draw sk = Some (sk', calls) /\
    List.length calls =
      (loopCount (gridCols (Sketch.state sk)) *
       loopCount (gridRows (Sketch.state sk)))%nat /\
    Forall (rampGlyph sk) calls /\
    readyState (Sketch.state sk') /\
    Sketch.currentRamp1 sk' = Sketch.currentRamp1 sk /\
    Sketch.currentRamp2 sk' = Sketch.currentRamp2 sk.
Proof.
  intros Hs R1 R2. unfold draw. cbv zeta.
  set (sk1 := Sketch.mk (Sketch.state sk) _ _ _ _ _ _ _ _ _ _).
  match goal with
  | |- context [drawCell sk1 ?sx ?sy ?cw ?chh ?cs] =>
      set (cell := drawCell sk1 sx sy cw chh cs)
  end.
  destruct (drawLoop_cols_ready sk1 cell (loopCount (gridRows (Sketch.state sk)))
              (fun st x y H => drawCell_ready sk1 _ _ _ _ _ st x y R1 R2 H)
              (loopCount (gridCols (Sketch.state sk))) 0 (Sketch.state sk) []
              Hs ltac:(constructor))
    as (st' & calls & E & Hs' & Hc & L).
  rewrite E. eexists. exists calls. split; [reflexivity |].
  split; [exact L |]. split; [exact Hc |]. split; [exact Hs' |].
  split; reflexivity.
Qed.

Lemma frame_completes_witness :
  readyState (Sketch.state demoReadySketch) /\
  exists (sk' : Sketch.t) (calls : list DrawCall.t),
    draw demoReadySketch = Some (sk', calls) /\ Forall (rampGlyph demoReadySketch) calls.
Proof.
  assert (H : readyState (Sketch.state demoReadySketch)).
  { split; [exact wellFormed_blinkerFlat |].
    cbn [demoReadySketch Sketch.state voronoiPoints demoSwarm List.length repeat]. lia. }
  split; [exact H |].
  destruct (frame_completes demoReadySketch H) as (sk' & calls & D & _ & G & _);
    try discriminate.
  exists sk', calls. split; [exact D | exact G].
Defined.

(** ** Which ramp a frame uses *)

Lemma drawCell_ramp2_unused (sk : Sketch.t) (ramp : list Char)
    (sx sy cw chh cs : R) (st : State) (x y : nat) :
  boundedSketch sk ->
  Settings.blendAmount (Sketch.settings sk) < 0.5 ->
  drawCell (withRamp2 sk ramp) sx sy cw chh cs st x y =
  drawCell sk sx sy cw chh cs st x y.
Proof.
  intros [B1 B2] Ha.
  destruct (getPatternValue_bounded_kinds st (INR x) (INR y) _ (Sketch.time sk) B1)
    as (v1 & E1 & V1).
  destruct (getPatternValue_bounded_kinds st (INR x) (INR y) _ (Sketch.time sk) B2)
    as (v2 & E2 & V2).
  unfold drawCell. cbv zeta.
  cbn [withRamp2 Sketch.settings Sketch.time Sketch.mousePos Sketch.clickEffects
       Sketch.currentRamp1 Sketch.currentRamp2].
  rewrite E1. destruct (Settings.pattern2Enabled (Sketch.settings sk)); [| reflexivity].
  rewrite E2.
  assert (L : Rltb (v1 * v2 * Settings.blendAmount (Sketch.settings sk)) 0.5 = true).
  { apply Rltb_true. assert (P : 0 <= v1 * v2 <= 1) by nra.
    destruct (Rle_dec (Settings.blendAmount (Sketch.settings sk)) 0); nra. }
  rewrite L. reflexivity.
Qed.

Lemma drawLoops_ext (cell1 cell2 : State -> nat -> nat -> option DrawCall.t * State)
    (rowList : list nat) :
  (forall st x y, cell1 st x y = cell2 st x y) ->
  forall (colList : list nat) (acc : option (State * list DrawCall.t)),
    fold_left (fun acc x => fold_left (drawStep cell1 x) rowList acc) colList acc =
    fold_left (fun acc x => fold_left (drawStep cell2 x) rowList acc) colList acc.
Proof.
  intros H.
  assert (Rows : forall x l acc,
             fold_left (drawStep cell1 x) l acc = fold_left (drawStep cell2 x) l acc).
  { intros x l. induction l as [| y l IH]; intros acc; [reflexivity |].
    cbn [fold_left]. rewrite IH. f_equal. unfold drawStep.
    destruct acc as [[st calls] |]; [rewrite H |]; reflexivity. }
  induction colList as [| x colList IH]; intros acc; [reflexivity |].
  cbn [fold_left]. rewrite IH, Rows. reflexivity.
Qed.

(** X21: when both patterns are of kinds whose values stay in the unit
    interval and the blend amount is below 0.5, the blend strength
    [value1 * value2 * amount] never reaches 0.5, so the secondary ramp
    is never used: a frame draws the same calls whatever
    [currentRamp2] is. *)
Theorem secondary_ramp_unused (sk : Sketch.t) (ramp : list Char) :
  boundedSketch sk ->
  Settings.blendAmount (Sketch.settings sk) < 0.5 ->
  option_map snd (draw (withRamp2 sk ramp)) = option_map snd (draw sk).
Proof.
  intros B Ha. unfold draw. cbv zeta.
  cbn [withRamp2 Sketch.state Sketch.settings Sketch.time Sketch.speedMultiplier
       Sketch.gridScale Sketch.width Sketch.height Sketch.mousePos
       Sketch.clickEffects Sketch.currentRamp1 Sketch.currentRamp2].
  match goal with
  | |- context [drawCell (Sketch.mk ?a ?b ?c ?d ?e ?f ?g ?h ?i ?j (Sketch.currentRamp2 sk))
                         ?sx ?sy ?cw ?chh ?cs] =>
      set (sk1 := Sketch.mk a b c d e f g h i j (Sketch.currentRamp2 sk));
      change (Sketch.mk a b c d e f g h i j ramp) with (withRamp2 sk1 ramp);
      rewrite (drawLoops_ext (drawCell (withRamp2 sk1 ramp) sx sy cw chh cs)
                 (drawCell sk1 sx sy cw chh cs))
  end.
  - match goal with |- context [fold_left ?f ?l ?a] => destruct (fold_left f l a) as [[st calls] |] end;
      reflexivity.
  - intros st x y. apply drawCell_ramp2_unused; assumption.
Qed.

Lemma secondary_ramp_unused_witness :
  option_map snd (draw (withRamp2 demoBlendSketch [64]%nat)) =
  option_map snd (draw demoBlendSketch).
Proof.
  apply secondary_ramp_unused.
  - split; simpl; auto.
  - cbn [demoBlendSketch Sketch.settings Settings.blendAmount]. lra.
Defined.

(** ** How far a frame advances the stateful kinds *)

Lemma drawLoop_rows_next (cell : State -> nat -> nat -> option DrawCall.t * State)
    (x : nat) (next : State -> State) (Inv : State -> Prop) :
  (forall st y, Inv st ->
     exists call, cell st x y = (Some call, next st) /\ Inv (next st)) ->
  forall (rows k : nat) (st : State) (calls : list DrawCall.t),
    Inv st ->
    exists calls',
      fold_left (drawStep cell x) (seq k rows) (Some (st, calls)) =
      Some (Nat.iter rows next st, calls') /\
      Inv (Nat.iter rows next st).
Proof.
  intros H. induction rows as [| rows IH]; intros k st calls Hs.
  - exists calls. split; [reflexivity | exact Hs].
  - cbn [seq fold_left]. unfold drawStep at 2.
    destruct (H st k Hs) as (call & E & Hs1). rewrite E.
    rewrite Nat.iter_succ_r. apply IH. exact Hs1.
Qed.

Lemma drawLoop_cols_next (cell : State -> nat -> nat -> option DrawCall.t * State)
    (rows : nat) (next : State -> State) (Inv : State -> Prop) :
  (forall st x y, Inv st ->
     exists call, cell st x y = (Some call, next st) /\ Inv (next st)) ->
  forall (cols k : nat) (st : State) (calls : list DrawCall.t),
    Inv st ->
    exists calls',
      fold_left (fun acc x => fold_left (drawStep cell x) (seq 0 rows) acc)
                (seq k cols) (Some (st, calls)) =
      Some (Nat.iter (cols * rows) next st, calls') /\
      Inv (Nat.iter (cols * rows) next st).
Proof.
  intros H. induction cols as [| cols IH]; intros k st calls Hs.
  - exists calls. split; [reflexivity | exact Hs].
  - rewrite <- cons_seq. cbn [fold_left].
    destruct (drawLoop_rows_next cell k next Inv (fun st y => H st k y) rows 0 st calls Hs)
      as (calls1 & E & Hs1).
    rewrite E.
    destruct (IH (S k) (Nat.iter rows next st) calls1 Hs1) as (calls' & F & Hs').
    replace (Nat.iter (S cols * rows) next st)
      with (Nat.iter (cols * rows) next (Nat.iter rows next st)).
    + exists calls'. split; [exact F | exact Hs'].
    + rewrite <- Nat.iter_add. f_equal. lia.
Qed.

Lemma voronoiPoints_iter_advance (n : nat) (st : State) :
  voronoiPoints (Nat.iter n advanceSwarm st) =
  Nat.iter n (List.map movePoint) (voronoiPoints st).
Proof.
  induction n as [| n IH]; [reflexivity |].
  rewrite !Nat.iter_succ. unfold advanceSwarm at 1.
  cbn [setVoronoiPoints voronoiPoints]. rewrite IH. reflexivity.
Qed.

Lemma cellularGrid_iter_advance (n : nat) (st : State) :
  cellularGrid (Nat.iter n advanceGeneration st) =
  Nat.iter n nextGeneration (cellularGrid st).
Proof.
  induction n as [| n IH]; [reflexivity |].
  rewrite !Nat.iter_succ. unfold advanceGeneration at 1.
  cbn [setCellularGrid cellularGrid]. rewrite IH. reflexivity.
Qed.

Lemma drawCell_single_voronoi (sk : Sketch.t) (sx sy cw chh cs : R) (st : State)
    (x y : nat) :
  singlePattern "voronoi" sk ->
  (2 <= List.length (voronoiPoints st))%nat ->
  exists call,
    drawCell sk sx sy cw chh cs st x y = (Some call, advanceSwarm st) /\
    (2 <= List.length (voronoiPoints (advanceSwarm st)))%nat.
Proof.
  intros [K D] V. unfold drawCell. cbv zeta.
  rewrite (getPatternValue_voronoi st (INR x) (INR y) _ (Sketch.time sk) K).
  unfold getVoronoiValue.
  destruct (nearestTwo_finite (fun _ => True) (INR x / gridCols st)
              (INR y / gridRows st) (List.map movePoint (voronoiPoints st)))
    as (m & s & N & _).
  - apply Forall_forall. auto.
  - rewrite length_map. exact V.
  - rewrite N, D. cbn [fst snd option_map]. eexists. split; [reflexivity |].
    unfold advanceSwarm. cbn [setVoronoiPoints voronoiPoints].
    rewrite length_map. exact V.
Qed.

(** X22: the swarm moves once per evaluated cell, not once per frame:
    when the voronoi kind is the only active pattern and the swarm has at
    least two points, a frame on a grid of [cols] by [rows] cells
    advances every point [cols * rows] times. *)
Theorem frame_advances_swarm_per_cell (sk : Sketch.t) :
  singlePattern "voronoi" sk ->
  (2 <= List.length (voronoiPoints (Sketch.state sk)))%nat ->
  exists (sk' : Sketch.t) (calls : list DrawCall.t),
    draw sk = Some (sk', calls) /\
    voronoiPoints (Sketch.state sk') =
    Nat.iter (loopCount (gridCols (Sketch.state sk)) *
              loopCount (gridRows (Sketch.state sk)))
             (List.map movePoint) (voronoiPoints (Sketch.state sk)).
Proof.
  intros K V. unfold draw. cbv zeta.
  set (sk1 := Sketch.mk (Sketch.state sk) _ _ _ _ _ _ _ _ _ _).
  match goal with
  | |- context [drawCell sk1 ?sx ?sy ?cw ?chh ?cs] =>
      set (cell := drawCell sk1 sx sy cw chh cs)
  end.
  destruct (drawLoop_cols_next cell (loopCount (gridRows (Sketch.state sk)))
              advanceSwarm (fun st => (2 <= List.length (voronoiPoints st))%nat)
              (fun st x y H => drawCell_single_voronoi sk1 _ _ _ _ _ st x y K H)
              (loopCount (gridCols (Sketch.state sk))) 0 (Sketch.state sk) [] V)
    as (calls & E & _).
  rewrite E. eexists. exists calls. split; [reflexivity |].
  cbn [Sketch.state]. apply voronoiPoints_iter_advance.
Qed.

Lemma loopCount_INR (n : nat) : loopCount (INR n) = n.
Proof.
  unfold loopCount. rewrite INR_IZR_INZ, <- opp_IZR, floor_IZR. lia.
Qed.

Lemma frame_advances_swarm_per_cell_witness :
  exists (sk' : Sketch.t) (calls : list DrawCall.t),
    draw (Sketch.mk voronoiState
            (Settings.mk 12 1.0
               (Slot.mk (Build_Pattern "voronoi" 0.01 0.05 None) "#ffffff" false false)
               (Slot.mk (Build_Pattern "ripples" 0.02 0.08 None) "#00ff00" false false)
               false (Interactive.mk false "ripple" 1.0 0.2 true) "multiply" 0.5)
            0 1.0 1.0 800 500 (0.5, 0.5) [] [32; 46; 58]%nat [32; 35]%nat)
    = Some (sk', calls).
Proof.
  match goal with |- context [draw ?s] =>
    destruct (frame_advances_swarm_per_cell s) as (sk' & calls & D & _)
  end.
  - split; reflexivity.
  - cbn [Sketch.state voronoiState voronoiPoints demoSwarm List.length repeat]. lia.
  - exists sk', calls. exact D.
Defined.

Lemma drawCell_single_cellular (sk : Sketch.t) (sx sy cw chh cs : R) (st : State)
    (x y : nat) :
  singlePattern "cellular" sk ->
  cellularGate (Slot.pattern (Settings.pattern1 (Sketch.settings sk))) (Sketch.time sk)
  = true ->
  wellFormed (cellularGrid st) ->
  exists call,
    drawCell sk sx sy cw chh cs st x y = (Some call, advanceGeneration st) /\
    wellFormed (cellularGrid (advanceGeneration st)).
Proof.
  intros [K D] G W. unfold drawCell. cbv zeta.
  rewrite (getPatternValue_cellular st (INR x) (INR y) _ (Sketch.time sk)
             (nextGeneration (cellularGrid st)) K).
  - rewrite D. eexists. split; [reflexivity |].
    unfold advanceGeneration. cbn [setCellularGrid cellularGrid].
    apply wellFormed_nextGeneration.
  - unfold cellularGate in G. rewrite G.
    apply updateCellular_nextGeneration. apply W.
Qed.

(** X23: while the gate of the cellular kind is open (the floor of
    [time * speed * 100] is a multiple of 30 at the time of the frame),
    the automaton advances one generation per evaluated cell: when the
    cellular kind is the only active pattern, one frame on a grid of
    [cols] by [rows] cells advances a 40x30 automaton by [cols * rows]
    generations. *)
Theorem frame_advances_automaton_per_cell (sk : Sketch.t) :
  singlePattern "cellular" sk ->
  cellularGate (Slot.pattern (Settings.pattern1 (Sketch.settings sk)))
               (Sketch.time sk + 0.016 * Sketch.speedMultiplier sk) = true ->
  wellFormed (cellularGrid (Sketch.state sk)) ->
  exists (sk' : Sketch.t) (calls : list DrawCall.t),
    draw sk = Some (sk', calls) /\
    cellularGrid (Sketch.state sk') =
    Nat.iter (loopCount (gridCols (Sketch.state sk)) *
              loopCount (gridRows (Sketch.state sk)))
             nextGeneration (cellularGrid (Sketch.state sk)).
Proof.
  intros K G W. unfold draw. cbv zeta.
  set (sk1 := Sketch.mk (Sketch.state sk) _ _ _ _ _ _ _ _ _ _).
  match goal with
  | |- context [drawCell sk1 ?sx ?sy ?cw ?chh ?cs] =>
      set (cell := drawCell sk1 sx sy cw chh cs)
  end.
  destruct (drawLoop_cols_next cell (loopCount (gridRows (Sketch.state sk)))
              advanceGeneration (fun st => wellFormed (cellularGrid st))
              (fun st x y H => drawCell_single_cellular sk1 _ _ _ _ _ st x y K G H)
              (loopCount (gridCols (Sketch.state sk))) 0 (Sketch.state sk) [] W)
    as (calls & E & _).
  rewrite E. eexists. exists calls. split; [reflexivity |].
  cbn [Sketch.state]. apply cellularGrid_iter_advance.
Qed.

Lemma frame_advances_automaton_per_cell_witness :
  exists (sk' : Sketch.t) (calls : list DrawCall.t),
    draw (Sketch.mk cellularState
            (Settings.mk 12 1.0
               (Slot.mk (Build_Pattern "cellular" 0.01 0.05 None) "#ffffff" false false)
               (Slot.mk (Build_Pattern "ripples" 0.02 0.08 None) "#00ff00" false false)
               false (Interactive.mk false "ripple" 1.0 0.2 true) "multiply" 0.5)
            0 1.0 1.0 800 500 (0.5, 0.5) [] [32; 46; 58]%nat [32; 35]%nat)
    = Some (sk', calls).
Proof.
  match goal with |- context [draw ?s] =>
    destruct (frame_advances_automaton_per_cell s) as (sk' & calls & D & _)
  end.
  - split; reflexivity.
  - unfold cellularGate. cbn [Sketch.settings Settings.pattern1 Slot.pattern speed
                               Sketch.time Sketch.speedMultiplier].
    assert (F : P5.floor ((0 + 0.016 * 1.0) * 0.01 * 100) = 0%Z)
      by (apply floor_unique; lra).
    rewrite F. reflexivity.
  - exact wellFormed_blinkerFlat.
  - exists sk', calls. exact D.
Defined.

(** ** The text export on any pattern kinds *)

Lemma exportCell_ready (sk : Sketch.t) (st : State) (x y : nat) :
  Sketch.currentRamp1 sk <> [] -> Sketch.currentRamp2 sk <> [] ->
  readyState st ->
  exists (c : Char) (st' : State),
    exportCell sk st x y = (Some (Some c), st') /\ readyState st'.
Proof.
  intros R1 R2 H.
  destruct (getPatternValue_ready st (INR x) (INR y)
              (Slot.pattern (Settings.pattern1 (Sketch.settings sk)))
              (Sketch.time sk) H) as (v1 & st1 & E1 & H1).
  unfold exportCell. cbv zeta. rewrite E1.
  destruct (Settings.pattern2Enabled (Sketch.settings sk)).
  - destruct (getPatternValue_ready st1 (INR x) (INR y)
                (Slot.pattern (Settings.pattern2 (Sketch.settings sk)))
                (Sketch.time sk) H1) as (v2 & st2 & E2 & H2).
    rewrite E2.
    destruct (Rltb (v1 * v2 * Settings.blendAmount (Sketch.settings sk)) 0.5).
    + match goal with |- context [glyph ?v ?r] =>
        destruct (glyph_in_ramp v r R1) as (c & G & _)
      end.
      rewrite G. exists c, st2. split; [reflexivity | exact H2].
    + match goal with |- context [glyph ?v ?r] =>
        destruct (glyph_in_ramp v r R2) as (c & G & _)
      end.
      rewrite G. exists c, st2. split; [reflexivity | exact H2].
  - match goal with |- context [glyph ?v ?r] =>
      destruct (glyph_in_ramp v r R1) as (c & G & _)
    end.
    rewrite G. exists c, st1. split; [reflexivity | exact H1].
Qed.

Lemma exportLoop_cols_ready (sk : Sketch.t) (y : nat) :
  Sketch.currentRamp1 sk <> [] -> Sketch.currentRamp2 sk <> [] ->
  forall (cols k : nat) (st : State) (textContent : list Char),
    readyState st ->
    exists st' textContent',
      fold_left (exportStep sk y) (seq k cols) (Some (st, textContent)) =
      Some (st', textContent') /\
      readyState st' /\
      List.length textContent' = (List.length textContent + cols)%nat.
Proof.
  intros R1 R2. induction cols as [| cols IH]; intros k st textContent Hs.
  - exists st, textContent. cbn [seq fold_left].
    split; [reflexivity |]. split; [exact Hs | lia].
  - cbn [seq fold_left]. unfold exportStep at 2.
    destruct (exportCell_ready sk st k y R1 R2 Hs) as (c & st1 & E & Hs1).
    rewrite E. cbn [appendChar].
    destruct (IH (S k) st1 (textContent ++ [c]) Hs1) as (st' & text' & F & Hs' & L).
    exists st', text'. rewrite length_app in L. cbn [List.length] in L.
    split; [exact F |]. split; [exact Hs' | lia].
Qed.

(** X24: once the cellular grid is 40x30 and the swarm has at least two
    points, a text export completes whatever the pattern kinds are: with
    two ramps that are not empty it never writes [undefined], and the
    text has one line per row of the grid, each of one character per
    column and a line break, [rows * (cols + 1)] characters in all. *)
Theorem export_completes (sk : Sketch.t) :
  readyState (Sketch.state sk) ->
  Sketch.currentRamp1 sk <> [] -> Sketch.currentRamp2 sk <> [] ->
  exists (st' : State) (textContent : list Char),
    exportTextFile sk = Some (st', textContent) /\
    readyState st' /\
    List.length textContent =
      (loopCount (gridRows (Sketch.state sk)) *
       (loopCount (gridCols (Sketch.state sk)) + 1))%nat.
Proof.
  intros Hs R1 R2. unfold exportTextFile.
  set (cols := loopCount (gridCols (Sketch.state sk))).
  assert (L : forall (rows k : nat) (st : State) (textContent : list Char),
             readyState st ->
             exists st' textContent',
               fold_left (fun acc y =>
                 match fold_left (exportStep sk y) (seq 0 cols) acc with
                 | None => None
                 | Some (st, textContent) => Some (st, textContent ++ [newline])
                 end) (seq k rows) (Some (st, textContent)) =
               Some (st', textContent') /\
               readyState st' /\
               List.length textContent' =
                 (List.length textContent + rows * (cols + 1))%nat).
  { induction rows as [| rows IH]; intros k st textContent H.
    - exists st, textContent. cbn [seq fold_left].
      split; [reflexivity |]. split; [exact H | lia].
    - rewrite <- cons_seq. cbn [fold_left].
      destruct (exportLoop_cols_ready sk k R1 R2 cols 0 st textContent H)
        as (st1 & text1 & E & H1 & L1).
      rewrite E.
      destruct (IH (S k) st1 (text1 ++ [newline]) H1) as (st' & text' & F & H' & L').
      exists st', text'. rewrite length_app in L'. cbn [List.length] in L'.
      split; [exact F |]. split; [exact H' | lia]. }
  destruct (L (loopCount (gridRows (Sketch.state sk))) 0%nat (Sketch.state sk) [] Hs)
    as (st' & text & E & H' & Len).
  exists st', text. cbn [List.length] in Len.
  split; [exact E |]. split; [exact H' | lia].
Qed.

Lemma export_completes_witness :
  exists (st' : State) (textContent : list Char),
    exportTextFile demoReadySketch = Some (st', textContent) /\ readyState st'.
Proof.
  destruct (export_completes demoReadySketch) as (st' & text & E & H & _);
    try discriminate.
  - split; [exact wellFormed_blinkerFlat |].
    cbn [demoReadySketch Sketch.state voronoiPoints demoSwarm List.length repeat]. lia.
  - exists st', text. split; [exact E | exact H].
Defined.

Lemma exportCell_single_voronoi (sk : Sketch.t) (st : State) (x y : nat) :
  singlePattern "voronoi" sk ->
  (2 <= List.length (voronoiPoints st))%nat ->
  exists char,
    exportCell sk st x y = (Some char, advanceSwarm st) /\
    (2 <= List.length (voronoiPoints (advanceSwarm st)))%nat.
Proof.
  intros [K D] V. unfold exportCell. cbv zeta.
  rewrite (getPatternValue_voronoi st (INR x) (INR y) _ (Sketch.time sk) K).
  unfold getVoronoiValue.
  destruct (nearestTwo_finite (fun _ => True) (INR x / gridCols st)
              (INR y / gridRows st) (List.map movePoint (voronoiPoints st)))
    as (m & s & N & _).
  - apply Forall_forall. auto.
  - rewrite length_map. exact V.
  - rewrite N, D. cbn [fst snd option_map]. eexists. split; [reflexivity |].
    unfold advanceSwarm. cbn [setVoronoiPoints voronoiPoints].
    rewrite length_map. exact V.
Qed.

Lemma exportLoop_cols_swarm (sk : Sketch.t) (y : nat) :
  singlePattern "voronoi" sk ->
  forall (cols k : nat) (st : State) (textContent : list Char),
    (2 <= List.length (voronoiPoints st))%nat ->
    exists textContent',
      fold_left (exportStep sk y) (seq k cols) (Some (st, textContent)) =
      Some (Nat.iter cols advanceSwarm st, textContent') /\
      (2 <= List.length (voronoiPoints (Nat.iter cols advanceSwarm st)))%nat.
Proof.
  intros K. induction cols as [| cols IH]; intros k st textContent V.
  - exists textContent. split; [reflexivity | exact V].
  - cbn [seq fold_left]. unfold exportStep at 2.
    destruct (exportCell_single_voronoi sk st k y K V) as (char & E & V1).
    rewrite E, Nat.iter_succ_r. apply IH. exact V1.
Qed.

(** X25: a text export is not a read-only view of the sketch: it
    evaluates the patterns itself, so when the voronoi kind is the only
    active pattern and the swarm has at least two points, exporting a
    grid of [cols] by [rows] cells advances every point of the live
    swarm [rows * cols] times, as a frame does. *)
Theorem export_advances_swarm (sk : Sketch.t) :
  singlePattern "voronoi" sk ->
  (2 <= List.length (voronoiPoints (Sketch.state sk)))%nat ->
  exists (st' : State) (textContent : list Char),
    exportTextFile sk = Some (st', textContent) /\
    voronoiPoints st' =
    Nat.iter (loopCount (gridRows (Sketch.state sk)) *
              loopCount (gridCols (Sketch.state sk)))
             (List.map movePoint) (voronoiPoints (Sketch.state sk)).
Proof.
  intros K V. unfold exportTextFile.
  set (cols := loopCount (gridCols (Sketch.state sk))).
  assert (L : forall (rows k : nat) (st : State) (textContent : list Char),
             (2 <= List.length (voronoiPoints st))%nat ->
             exists textContent',
               fold_left (fun acc y =>
                 match fold_left (exportStep sk y) (seq 0 cols) acc with
                 | None => None
                 | Some (st, textContent) => Some (st, textContent ++ [newline])
                 end) (seq k rows) (Some (st, textContent)) =
               Some (Nat.iter (rows * cols) advanceSwarm st, textContent') /\
               (2 <= List.length
                       (voronoiPoints (Nat.iter (rows * cols) advanceSwarm st)))%nat).
  { induction rows as [| rows IH]; intros k st textContent H.
    - exists textContent. split; [reflexivity | exact H].
    - rewrite <- cons_seq. cbn [fold_left].
      destruct (exportLoop_cols_swarm sk k K cols 0 st textContent H)
        as (text1 & E & H1).
      rewrite E.
      destruct (IH (S k) (Nat.iter cols advanceSwarm st) (text1 ++ [newline]) H1)
        as (text' & F & H').
      replace (Nat.iter (S rows * cols) advanceSwarm st)
        with (Nat.iter (rows * cols) advanceSwarm (Nat.iter cols advanceSwarm st)).
      + exists text'. split; [exact F | exact H'].
      + rewrite <- Nat.iter_add. f_equal. lia. }
  destruct (L (loopCount (gridRows (Sketch.state sk))) 0%nat (Sketch.state sk) [] V)
    as (text & E & _).
  eexists. exists text. split; [exact E |]. apply voronoiPoints_iter_advance.
Qed.

Lemma export_advances_swarm_witness :
  exists (st' : State) (textContent : list Char),
    exportTextFile (Sketch.mk voronoiState
            (Settings.mk 12 1.0
               (Slot.mk (Build_Pattern "voronoi" 0.01 0.05 None) "#ffffff" false false)
               (Slot.mk (Build_Pattern "ripples" 0.02 0.08 None) "#00ff00" false false)
               false (Interactive.mk false "ripple" 1.0 0.2 true) "multiply" 0.5)
            0 1.0 1.0 800 500 (0.5, 0.5) [] [32; 46; 58]%nat [32; 35]%nat)
    = Some (st', textContent).
Proof.
  match goal with |- context [exportTextFile ?s] =>
    destruct (export_advances_swarm s) as (st' & text & E & _)
  end.
  - split; reflexivity.
  - cbn [Sketch.state voronoiState voronoiPoints demoSwarm List.length repeat]. lia.
  - exists st', text. exact E.
Defined.

(** ** Webcam glyphs *)

Lemma floor_monotone (a b : R) : a <= b -> (P5.floor a <= P5.floor b)%Z.
Proof.
  intros H. pose proof (floor_bounds a) as A. pose proof (floor_bounds b) as B.
  assert (L : (P5.floor a < P5.floor b + 1)%Z).
  { apply lt_IZR. rewrite plus_IZR. lra. }
  lia.
Qed.

(** X26: for a grey level of [0 .. 255], [getWebcamCharByScale] always
    returns a character of the prepared gradient, never [undefined]; the
    index grows with the grey level, level 255 gives the last character
    [@], and every level below 81 gives the non-breaking space that
    replaces the underscores. *)
Theorem getWebcamCharByScale_in_gradient (scale : R) :
  0 <= scale <= 255 ->
  (exists c, getWebcamCharByScale scale = Some c /\ In c preparedWebcamGradient) /\
  (forall scale' : R, scale <= scale' -> (webcamIndex scale <= webcamIndex scale')%Z) /\
  getWebcamCharByScale 255 = Some 64%nat /\
  (scale < 81 -> getWebcamCharByScale scale = Some 160%nat).
Proof.
  intros H.
  assert (L : INR (List.length webcamGradient) - 1 = 22).
  { replace (List.length webcamGradient) with 23%nat by reflexivity.
    rewrite INR_IZR_INZ. simpl. lra. }
  assert (B : (0 <= webcamIndex scale <= 22)%Z).
  { unfold webcamIndex. rewrite L.
    pose proof (floor_bounds (scale / 255 * 22)) as F. split.
    - assert ((-1 < P5.floor (scale / 255 * 22))%Z) by (apply lt_IZR; lra). lia.
    - assert ((P5.floor (scale / 255 * 22) < 23)%Z) by (apply lt_IZR; lra). lia. }
  split; [| split; [| split]].
  - unfold getWebcamCharByScale.
    destruct (rampAt_in_range preparedWebcamGradient (webcamIndex scale)) as [c E].
    + replace (List.length preparedWebcamGradient) with 23%nat by reflexivity. lia.
    + exists c. split; [exact E |]. unfold rampAt in E.
      destruct (webcamIndex scale <? 0)%Z; [discriminate E |].
      eapply nth_error_In. exact E.
  - intros scale' Hs. unfold webcamIndex. rewrite L. apply floor_monotone. lra.
  - unfold getWebcamCharByScale, webcamIndex. rewrite L.
    replace (255 / 255 * 22) with (IZR 22) by lra. rewrite floor_IZR. reflexivity.
  - intros Hd. unfold getWebcamCharByScale.
    assert (S : (webcamIndex scale <= 6)%Z).
    { unfold webcamIndex. rewrite L.
      pose proof (floor_bounds (scale / 255 * 22)) as F.
      assert ((P5.floor (scale / 255 * 22) < 7)%Z) by (apply lt_IZR; lra). lia. }
    destruct B as [B0 _].
    assert (C : webcamIndex scale = 0%Z \/ webcamIndex scale = 1%Z \/
                webcamIndex scale = 2%Z \/ webcamIndex scale = 3%Z \/
                webcamIndex scale = 4%Z \/ webcamIndex scale = 5%Z \/
                webcamIndex scale = 6%Z) by lia.
    destruct C as [-> | [-> | [-> | [-> | [-> | [-> | ->]]]]]]; reflexivity.
Qed.

Lemma getWebcamCharByScale_in_gradient_witness :
  getWebcamCharByScale 40 = Some 160%nat.
Proof.
  destruct (getWebcamCharByScale_in_gradient 40) as (_ & _ & _ & D); [lra |].
  apply D. lra.
Defined.
